(** * Heka pipeline core: plugin runners, sandbox decoder, file and SMTP outputs

    A shallow embedding of
      - pipeline/plugin_runners.go  (iRunner, dRunner, foRunner),
      - the sandbox decoder adapter (SandboxDecoder, copyMessageHeaders),
      - plugins/file/file_output.go (FileOutput.Init, openFile, receiver,
        handleMessage, committer),
      - plugins/smtp/smtp_output.go (SmtpOutput.Init, Run),
      - the filter script http_status.lua (process_message),
    followed by the properties of the specification that concern them
    (C1 to C10) and by further properties read off the code (X1 to X25).

    Conventions.  A Go pointer that may be nil is an [option]; a pointer to
    a pack is the pack's address, a [nat].  A nil slice is [None] where the
    code tests for nil.  Side effects that other components observe
    (recycling a pack, a log line, a send on the router channel, a call to
    [ShutDown]) are recorded as events, in program order.  Code that
    belongs to other packages (the plugin bodies, the script host,
    [proto.Unmarshal], [json.Marshal], the mail transport) is a method of a
    type class, so every statement holds for all behaviours of it. *)

From stdpp Require Import gmap strings list fin_maps functions.
From Stdlib Require Import ZArith QArith Lia.
From Stdlib.Strings Require Import Ascii Byte.

Close Scope Q_scope.

Open Scope string_scope.
Open Scope list_scope.

(** Go [error] values, identified with their message. *)
Definition Error := string.

(** What running a piece of Go code can end in: a normal result, a run-time
    panic (nil dereference, failed type assertion), or a receive that never
    completes. *)
Inductive Outcome (A : Type) : Type :=
| Done (a : A)
| Panic
| Blocked.
Arguments Done {A} a.
Arguments Panic {A}.
Arguments Blocked {A}.

(* ===================================================================== *)
(** ** message.Message *)
(* ===================================================================== *)

Module message.

(** [message.NewField(name, value, representation)] for string values. *)
Record Field := NewField {
  Name : string;
  ValueString : string;
  Representation : string
}.

(** The protobuf message.  Every header is optional: a nil pointer (or a
    nil slice for [Uuid]) is [None]. *)
Record Message := mkMessage {
  Uuid : option (list byte);
  Timestamp : option Z;
  Type_ : option string;
  Logger : option string;
  Severity : option Z;
  Payload : option string;
  EnvVersion : option string;
  Pid : option Z;
  Hostname : option string;
  Fields : list Field
}.

(** [new(message.Message)], also what [Reset] leaves. *)
Definition zero : Message :=
  mkMessage None None None None None None None None None [].

(** Generated getters: the zero value when the header is unset. *)
Definition GetUuid (m : Message) : list byte := default [] (Uuid m).
Definition GetTimestamp (m : Message) : Z := default 0%Z (Timestamp m).
Definition GetType (m : Message) : string := default EmptyString (Type_ m).
Definition GetLogger (m : Message) : string := default EmptyString (Logger m).
Definition GetSeverity (m : Message) : Z := default 0%Z (Severity m).
Definition GetPayload (m : Message) : string := default EmptyString (Payload m).
Definition GetPid (m : Message) : Z := default 0%Z (Pid m).
Definition GetHostname (m : Message) : string := default EmptyString (Hostname m).

(** Setters.  [SetUuid] stores the slice it is given, so a nil argument
    leaves the header nil; the others store a pointer to the value. *)
Definition SetUuid (v : option (list byte)) (m : Message) : Message :=
  mkMessage v (Timestamp m) (Type_ m) (Logger m) (Severity m) (Payload m)
            (EnvVersion m) (Pid m) (Hostname m) (Fields m).
Definition SetTimestamp (v : Z) (m : Message) : Message :=
  mkMessage (Uuid m) (Some v) (Type_ m) (Logger m) (Severity m) (Payload m)
            (EnvVersion m) (Pid m) (Hostname m) (Fields m).
Definition SetType (v : string) (m : Message) : Message :=
  mkMessage (Uuid m) (Timestamp m) (Some v) (Logger m) (Severity m) (Payload m)
            (EnvVersion m) (Pid m) (Hostname m) (Fields m).
Definition SetLogger (v : string) (m : Message) : Message :=
  mkMessage (Uuid m) (Timestamp m) (Type_ m) (Some v) (Severity m) (Payload m)
            (EnvVersion m) (Pid m) (Hostname m) (Fields m).
Definition SetSeverity (v : Z) (m : Message) : Message :=
  mkMessage (Uuid m) (Timestamp m) (Type_ m) (Logger m) (Some v) (Payload m)
            (EnvVersion m) (Pid m) (Hostname m) (Fields m).
Definition SetPayload (v : string) (m : Message) : Message :=
  mkMessage (Uuid m) (Timestamp m) (Type_ m) (Logger m) (Severity m) (Some v)
            (EnvVersion m) (Pid m) (Hostname m) (Fields m).
Definition SetPid (v : Z) (m : Message) : Message :=
  mkMessage (Uuid m) (Timestamp m) (Type_ m) (Logger m) (Severity m) (Payload m)
            (EnvVersion m) (Some v) (Hostname m) (Fields m).
Definition SetHostname (v : string) (m : Message) : Message :=
  mkMessage (Uuid m) (Timestamp m) (Type_ m) (Logger m) (Severity m) (Payload m)
            (EnvVersion m) (Pid m) (Some v) (Fields m).
Definition AddField (f : Field) (m : Message) : Message :=
  mkMessage (Uuid m) (Timestamp m) (Type_ m) (Logger m) (Severity m) (Payload m)
            (EnvVersion m) (Pid m) (Hostname m) (Fields m ++ [f]).

(** Clearing a header ([dst.Type = nil] and the like). *)
Definition ClearTimestamp (m : Message) : Message :=
  mkMessage (Uuid m) None (Type_ m) (Logger m) (Severity m) (Payload m)
            (EnvVersion m) (Pid m) (Hostname m) (Fields m).
Definition ClearType (m : Message) : Message :=
  mkMessage (Uuid m) (Timestamp m) None (Logger m) (Severity m) (Payload m)
            (EnvVersion m) (Pid m) (Hostname m) (Fields m).
Definition ClearLogger (m : Message) : Message :=
  mkMessage (Uuid m) (Timestamp m) (Type_ m) None (Severity m) (Payload m)
            (EnvVersion m) (Pid m) (Hostname m) (Fields m).
Definition ClearSeverity (m : Message) : Message :=
  mkMessage (Uuid m) (Timestamp m) (Type_ m) (Logger m) None (Payload m)
            (EnvVersion m) (Pid m) (Hostname m) (Fields m).
Definition ClearPid (m : Message) : Message :=
  mkMessage (Uuid m) (Timestamp m) (Type_ m) (Logger m) (Severity m) (Payload m)
            (EnvVersion m) None (Hostname m) (Fields m).
Definition ClearHostname (m : Message) : Message :=
  mkMessage (Uuid m) (Timestamp m) (Type_ m) (Logger m) (Severity m) (Payload m)
            (EnvVersion m) (Pid m) None (Fields m).

End message.

(** A [*PipelinePack]: the address of a pack.  The message a pack carries
    lives in a store indexed by the address, so that two references to the
    same pack see the same message. *)
Definition PipelinePack := nat.
Abbreviation MessageStore := (PipelinePack → message.Message) (only parsing).

(* ===================================================================== *)
(** ** pipeline/plugin_runners.go *)
(* ===================================================================== *)

Module pipeline.
Import message.

(** A plugin instance.  Go decides a plugin's role with type assertions
    ([plugin.(Filter)], [plugin.(Restarting)], ...); the flags record
    which assertions succeed. *)
Record Plugin := mkPlugin {
  instance : nat;
  isInput : bool;
  isFilter : bool;
  isOutput : bool;
  isRestarting : bool
}.

Record PluginWrapper := mkPluginWrapper { pw_Name : string }.

Record RetryOptions := mkRetryOptions {
  MaxDelay : string;
  Delay : string;
  MaxJitter : string;
  MaxRetries : Z
}.

Record PluginGlobals := mkPluginGlobals { Retries : RetryOptions }.

(** The wrapper maps of [PipelineConfig]; a missing key reads as nil. *)
Record PipelineConfig := mkPipelineConfig {
  inputWrappers : gmap string PluginWrapper;
  filterWrappers : gmap string PluginWrapper;
  outputWrappers : gmap string PluginWrapper
}.

(** [pRunnerBase]. *)
Record pRunnerBase := mkBase {
  name : string;
  plugin : Plugin;
  pluginGlobals : PluginGlobals;
  leakCount : Z
}.

Definition SetPlugin (p : Plugin) (b : pRunnerBase) : pRunnerBase :=
  mkBase (name b) p (pluginGlobals b) (leakCount b).

(** Effects of the runners that the rest of the pipeline observes. *)
Inductive Event :=
| EvRecycle (p : PipelinePack)            (* pack.Recycle() *)
| EvLogError (e : Error)                  (* runner.LogError(err) *)
| EvLogMessage (m : string)               (* runner.LogMessage(msg) *)
| EvRouterSend (p : PipelinePack)         (* router.InChan() <- p *)
| EvGoRouterSend (p : PipelinePack)       (* go func() { router.InChan() <- p }() *)
| EvMatcherStart                          (* foRunner.matcher.Start(inChan) *)
| EvRun (p : Plugin)                      (* plugin.Run(runner, h) *)
| EvCleanupForRestart (p : Plugin)
| EvWait                                  (* a backoff sleep of rh.Wait() *)
| EvCreateWithError (pw : option PluginWrapper)
| EvShutDown                              (* globals.ShutDown() *)
| EvWgDone.                               (* wg.Done() *)

Definition isCreate (e : Event) : bool :=
  match e with EvCreateWithError _ => true | _ => false end.
Definition isRun (e : Event) : bool :=
  match e with EvRun _ => true | _ => false end.
Definition isCleanup (e : Event) : bool :=
  match e with EvCleanupForRestart _ => true | _ => false end.
Definition isShutDown (e : Event) : bool :=
  match e with EvShutDown => true | _ => false end.

(** Number of events of a trace that satisfy [f]. *)
Definition count (f : Event → bool) (tr : list Event) : nat :=
  length (List.filter f tr).

(** [Globals()]: the process-wide state.  [ext] stands for everything
    else in the process that plugin code can read or change. *)
Record GlobalConfigStruct (E : Type) := mkGlobals {
  Stopping : bool;
  ext : E
}.
Arguments mkGlobals {E} _ _.
Arguments Stopping {E} _.
Arguments ext {E} _.

(** Modelled from the spec: [GlobalConfigStruct.ShutDown], which is not
    part of these sources.  The spec has fatal errors "flip the global
    shutdown flag"; the model sets [Stopping]. *)
Definition ShutDown {E} (g : GlobalConfigStruct E) : GlobalConfigStruct E :=
  mkGlobals true (ext g).

(** The code the supervisor calls into: the plugin bodies, the wrapper's
    factory, the clock.  Each may run for long; meanwhile other
    goroutines may change the globals, so each returns them. *)
Class Host (E : Type) := {
  ParseDuration : string → option Z;
  plugin_Run : Plugin → GlobalConfigStruct E → option Error * GlobalConfigStruct E;
  CleanupForRestart : Plugin → GlobalConfigStruct E → GlobalConfigStruct E;
  CreateWithError :
    option PluginWrapper → GlobalConfigStruct E → (Plugin + Error) * GlobalConfigStruct E;
  Sleep : GlobalConfigStruct E → GlobalConfigStruct E
}.

(** Modelled from the spec: the retry helper ([NewRetryHelper], [Wait],
    [Reset]), which is not part of these sources.  The spec: "bounded
    exponential backoff with jitter", "retries are bounded by
    MaxRetries; exhaustion -> broadcast shutdown", the delays are
    duration strings.  [times] counts the waits since the last [Reset];
    [Wait] fails once [times] has reached [retries]. *)
Record RetryHelper := mkRetryHelper { retries : Z; times : Z }.

Definition NewRetryHelper `{Host E} (opts : RetryOptions) : RetryHelper + Error :=
  match ParseDuration (Delay opts), ParseDuration (MaxDelay opts),
        ParseDuration (MaxJitter opts) with
  | Some _, Some _, Some _ => inl (mkRetryHelper (MaxRetries opts) 0)
  | _, _, _ => inr "invalid duration"
  end.

(** How the re-creation loop hands control back to [Starter]. *)
Inductive Ctl :=
| CBreak        (* break createLoop: a new plugin is installed *)
| CLoopExit     (* the loop condition !globals.Stopping failed *)
| CReturn.      (* Starter returns *)

(** How [Starter] ends. *)
Inductive Exit := Returned | Panicked.

Section Supervisor.
Context {E : Type} `{!Host E}.

(** What a [Starter] goroutine reads and writes: the globals, its
    runner's base fields and its local retry helper [rh]. *)
Record St := mkSt {
  globals : GlobalConfigStruct E;
  base : pRunnerBase;
  rh : RetryHelper
}.

(** State passing with a log of events. *)
Definition M (A : Type) : Type := St → A * St * list Event.

Definition ret {A} (a : A) : M A := λ s, (a, s, []).

Definition bind {A B} (m : M A) (k : A → M B) : M B :=
  λ s, let '(a, s1, e1) := m s in
       let '(b, s2, e2) := k a s1 in
       (b, s2, e1 ++ e2).

Definition emit (e : Event) : M unit := λ s, (tt, s, [e]).

Definition getStopping : M bool := λ s, (Stopping (globals s), s, []).

Definition getPlugin : M Plugin := λ s, (plugin (base s), s, []).

Definition setPlugin (p : Plugin) : M unit :=
  λ s, (tt, mkSt (globals s) (SetPlugin p (base s)) (rh s), []).

Definition setRh (h : RetryHelper) : M unit :=
  λ s, (tt, mkSt (globals s) (base s) h, []).

Definition LogError (e : Error) : M unit := emit (EvLogError e).

Definition LogMessage (m : string) : M unit := emit (EvLogMessage m).

Definition globals_ShutDown : M unit :=
  λ s, (tt, mkSt (ShutDown (globals s)) (base s) (rh s), [EvShutDown]).

Definition rh_Wait : M (option Error) :=
  λ s, if (retries (rh s) <=? times (rh s))%Z
       then (Some "Max retries exceeded", s, [])
       else (None,
             mkSt (Sleep (globals s)) (base s)
                  (mkRetryHelper (retries (rh s)) (times (rh s) + 1)),
             [EvWait]).

Definition rh_Reset : M unit :=
  λ s, (tt, mkSt (globals s) (base s) (mkRetryHelper (retries (rh s)) 0), []).

Definition call_Run : M (option Error) :=
  λ s, let '(err, g) := plugin_Run (plugin (base s)) (globals s) in
       (err, mkSt g (base s) (rh s), [EvRun (plugin (base s))]).

Definition call_CleanupForRestart : M unit :=
  λ s, (tt,
        mkSt (CleanupForRestart (plugin (base s)) (globals s)) (base s) (rh s),
        [EvCleanupForRestart (plugin (base s))]).

Definition call_CreateWithError (pw : option PluginWrapper) : M (Plugin + Error) :=
  λ s, let '(r, g) := CreateWithError pw (globals s) in
       (r, mkSt g (base s) (rh s), [EvCreateWithError pw]).

Notation "x <- m ;; k" := (bind m (λ x, k))
  (at level 100, m at next level, right associativity).
Notation "m ;; k" := (bind m (λ _, k))
  (at level 100, right associativity).

(** The [createLoop] of both [Starter]s:
<<
  createLoop:
    for !globals.Stopping {
      err := rh.Wait()
      if err != nil { LogError(err); globals.ShutDown(); return }
      p, err := pw.CreateWithError()
      if err != nil { LogError(err); continue }
      runner.plugin = p.(Plugin)
      rh.Reset()
      break createLoop
    }
>>
    [None] when the fuel runs out. *)
Fixpoint createLoop (fuel : nat) (pw : option PluginWrapper) : M (option Ctl) :=
  match fuel with
  | O => ret None
  | S fuel' =>
    stopping <- getStopping ;;
    if stopping then ret (Some CLoopExit)
    else
      werr <- rh_Wait ;;
      match werr with
      | Some err => LogError err ;; globals_ShutDown ;; ret (Some CReturn)
      | None =>
        c <- call_CreateWithError pw ;;
        match c with
        | inr err => LogError err ;; createLoop fuel' pw
        | inl p => setPlugin p ;; rh_Reset ;; ret (Some CBreak)
        end
      end
  end.

(** What follows [Run] in both [Starter]s once the wrapper is known:
    the [Restarting] test, the re-creation loop and the closing log
    line.  [Some true]: go round the supervisor loop again;
    [Some false]: [Starter] returns. *)
Definition restart (fuel : nat) (pw : option PluginWrapper) : M (option bool) :=
  p <- getPlugin ;;
  if isRestarting p then
    call_CleanupForRestart ;;
    c <- createLoop fuel pw ;;
    match c with
    | None => ret None
    | Some CReturn => ret (Some false)
    | Some _ => LogMessage "exited, now restarting." ;; ret (Some true)
    end
  else
    LogMessage "has stopped, shutting down." ;;
    globals_ShutDown ;;
    ret (Some false).

(** The [for !globals.Stopping] loop of [iRunner.Starter].
    [ir.Input()] is the type assertion [ir.plugin.(Input)]. *)
Fixpoint iRunner_loop (fuel : nat) (pc : PipelineConfig) : M (option Exit) :=
  match fuel with
  | O => ret None
  | S fuel' =>
    stopping <- getStopping ;;
    if stopping then ret (Some Returned)
    else
      p <- getPlugin ;;
      if negb (isInput p) then ret (Some Panicked)
      else
        err <- call_Run ;;
        match err with
        | Some e => LogError e
        | None => LogMessage "stopped"
        end ;;
        stopping <- getStopping ;;
        if stopping then ret (Some Returned)
        else
          nm <- (λ s, (name (base s), s, [])) ;;
          r <- restart fuel' (inputWrappers pc !! nm) ;;
          match r with
          | None => ret None
          | Some false => ret (Some Returned)
          | Some true => iRunner_loop fuel' pc
          end
  end.

(** [iRunner.Starter]; the deferred [wg.Done()] runs last. *)
Definition iRunner_Starter (fuel : nat) (pc : PipelineConfig) : M (option Exit) :=
  r <- (opts <- (λ s, (Retries (pluginGlobals (base s)), s, [])) ;;
        match NewRetryHelper opts with
        | inr err => LogError err ;; globals_ShutDown ;; ret (Some Returned)
        | inl h => setRh h ;; iRunner_loop fuel pc
        end) ;;
  emit EvWgDone ;;
  ret r.

(** The [for !globals.Stopping] loop of [foRunner.Starter];
    [has_matcher] is [foRunner.matcher != nil]. *)
Fixpoint foRunner_loop (fuel : nat) (has_matcher : bool) (pc : PipelineConfig)
  : M (option Exit) :=
  match fuel with
  | O => ret None
  | S fuel' =>
    stopping <- getStopping ;;
    if stopping then ret (Some Returned)
    else
      (if has_matcher then emit EvMatcherStart else ret tt) ;;
      p <- getPlugin ;;
      if negb (isFilter p) && negb (isOutput p) then
        LogError "Unable to assert this is an Output or Filter" ;;
        ret (Some Returned)
      else
        let pluginType := if isFilter p then "filter" else "output" in
        err <- call_Run ;;
        match err with
        | Some e => LogError e
        | None => LogMessage "stopped"
        end ;;
        stopping <- getStopping ;;
        if stopping then ret (Some Returned)
        else
          nm <- (λ s, (name (base s), s, [])) ;;
          let pw := if String.eqb pluginType "filter"
                    then filterWrappers pc !! nm
                    else outputWrappers pc !! nm in
          match pw with
          | None => ret (Some Returned)      (* no wrapper means it is Stoppable *)
          | Some _ =>
            r <- restart fuel' pw ;;
            match r with
            | None => ret None
            | Some false => ret (Some Returned)
            | Some true => foRunner_loop fuel' has_matcher pc
            end
          end
  end.

(** [foRunner.Starter]. *)
Definition foRunner_Starter (fuel : nat) (has_matcher : bool) (pc : PipelineConfig)
  : M (option Exit) :=
  r <- (opts <- (λ s, (Retries (pluginGlobals (base s)), s, [])) ;;
        match NewRetryHelper opts with
        | inr err => LogError err ;; globals_ShutDown ;; ret (Some Returned)
        | inl h => setRh h ;; foRunner_loop fuel has_matcher pc
        end) ;;
  emit EvWgDone ;;
  ret r.

End Supervisor.

Arguments St E : clear implicits.
Arguments M E A : clear implicits.

(** *** dRunner *)

(** The [Decoder] interface with its two optional capabilities,
    [WantsDecoderRunner] and [WantsDecoderRunnerShutdown].  [Decode]
    returns the pack slice (nil is [None]) and the error. *)
Class Decoder (D : Type) := {
  Decode : D → PipelinePack → Outcome (option (list PipelinePack) * option Error * D);
  SetDecoderRunner : option (D → D);
  Shutdown : option (D → D)
}.

Section DecoderRunner.
Context {D : Type} `{!Decoder D}.

(** The body of [for pack = range dr.inChan] for one pack: the events
    that follow a [Decode] that returned [(packs, err)]. *)
Definition drain_pack (pack : PipelinePack)
           (packs : option (list PipelinePack)) (err : option Error) : list Event :=
  match packs with
  | Some ps => map EvRouterSend ps
  | None =>
    match err with
    | Some e => [EvLogError e]
    | None => []
    end ++ [EvRecycle pack]
  end.

(** The drain loop over the packs [dr.inChan] delivers before it is
    closed. *)
Fixpoint drain (d : D) (queue : list PipelinePack) : Outcome D * list Event :=
  match queue with
  | [] => (Done d, [])
  | pack :: rest =>
    match Decode d pack with
    | Done (packs, err, d') =>
      let '(r, evs) := drain d' rest in
      (r, drain_pack pack packs err ++ evs)
    | Panic => (Panic, [])
    | Blocked => (Blocked, [])
    end
  end.

(** The goroutine of [dRunner.Start]. *)
Definition dRunner_Start (d : D) (queue : list PipelinePack) : Outcome D * list Event :=
  let d1 := match SetDecoderRunner with Some f => f d | None => d end in
  match drain d1 queue with
  | (Done d2, evs) =>
    (Done (match Shutdown with Some f => f d2 | None => d2 end),
     evs ++ [EvLogMessage "stopped"; EvWgDone])
  | (o, evs) => (o, evs)
  end.

End DecoderRunner.

(** *** foRunner *)

Definition ChanId := nat.

(** [MatchRunner]: only the compiled predicate matters here,
    [MatcherSpecification().Match]. *)
Record MatchRunner := mkMatchRunner { Match : Message → bool }.

Record foRunner := mkFoRunner {
  fo_base : pRunnerBase;
  matcher : option MatchRunner;
  inChan : ChanId;
  retainPack : option PipelinePack
}.

Definition foRunner_MatchRunner (fo : foRunner) : option MatchRunner := matcher fo.

(** [foRunner.Inject].  [MatcherSpecification] reads a field of its
    receiver, so a runner without a matcher faults. *)
Definition foRunner_Inject (fo : foRunner) (msgs : MessageStore) (pack : PipelinePack)
  : Outcome bool * list Event :=
  match foRunner_MatchRunner fo with
  | None => (Panic, [])
  | Some mr =>
    let match_ := Match mr (msgs pack) in
    if match_ then
      (Done false,
       [EvRecycle pack; EvLogError "attempted to Inject a message to itself"])
    else
      (Done true, [EvGoRouterSend pack])
  end.

(** **** RetainPack, InChan and the goroutine InChan starts

    [InChan] starts a goroutine that shares [foRunner.retainPack] with
    its caller, so the runner lives in a small run-time state together
    with the channels and the goroutines. *)

Record Chan := mkChan { buf : list PipelinePack; closed : bool }.

(** Where the goroutine of [InChan] stands:
<<
    go func() {
      retainChan <- foRunner.retainPack   // GRetainEval, then GRetainSend
      foRunner.retainPack = nil           // GRetainClear
      close(retainChan)                   // GRetainClose
    }()
>>
    The operand of a send is evaluated before the send blocks. *)
Inductive Goroutine :=
| GRetainEval (c : ChanId)
| GRetainSend (c : ChanId) (v : option PipelinePack)
| GRetainClear (c : ChanId)
| GRetainClose (c : ChanId)
| GDone.

Record Runtime := mkRuntime {
  runner : foRunner;
  chans : gmap ChanId Chan;
  gos : list Goroutine
}.

Definition set_retainPack (v : option PipelinePack) (fo : foRunner) : foRunner :=
  mkFoRunner (fo_base fo) (matcher fo) (inChan fo) v.

Definition foRunner_RetainPack (pack : option PipelinePack) (rt : Runtime) : Runtime :=
  mkRuntime (set_retainPack pack (runner rt)) (chans rt) (gos rt).

(** [foRunner.InChan]: [make] allocates a channel no one else holds. *)
Definition foRunner_InChan (rt : Runtime) : ChanId * Runtime :=
  match retainPack (runner rt) with
  | Some _ =>
    let retainChan := fresh (dom (chans rt)) in
    (retainChan,
     mkRuntime (runner rt)
               (<[retainChan := mkChan [] false]> (chans rt))
               (gos rt ++ [GRetainEval retainChan]))
  | None => (inChan (runner rt), rt)
  end.

(** What the scheduler can do next: let goroutine [i] take a step, or
    let the plugin receive from channel [c]. *)
Inductive Action :=
| Step (i : nat)
| Recv (c : ChanId).

(** What a receive [v, ok := <-c] yields. *)
Inductive Obs :=
| Got (v : option PipelinePack)
| GotClosed.

(** The first goroutine blocked in a send on [c], with the value it
    holds. *)
Fixpoint find_sender (c : ChanId) (i : nat) (gs : list Goroutine)
  : option (nat * option PipelinePack) :=
  match gs with
  | [] => None
  | GRetainSend c' v :: gs' =>
    if Nat.eqb c c' then Some (i, v) else find_sender c (S i) gs'
  | _ :: gs' => find_sender c (S i) gs'
  end.

(** One scheduling step.  An action that cannot proceed (a send without
    a receiver, a receive from an empty open channel) leaves the state
    as it is. *)
Definition exec_step (a : Action) (rt : Runtime) : Runtime * list Obs :=
  match a with
  | Step i =>
    match gos rt !! i with
    | Some (GRetainEval c) =>
      (mkRuntime (runner rt) (chans rt)
                 (<[i := GRetainSend c (retainPack (runner rt))]> (gos rt)), [])
    | Some (GRetainClear c) =>
      (mkRuntime (set_retainPack None (runner rt)) (chans rt)
                 (<[i := GRetainClose c]> (gos rt)), [])
    | Some (GRetainClose c) =>
      (mkRuntime (runner rt)
                 (alter (λ ch, mkChan (buf ch) true) c (chans rt))
                 (<[i := GDone]> (gos rt)), [])
    | _ => (rt, [])
    end
  | Recv c =>
    match chans rt !! c with
    | None => (rt, [])
    | Some ch =>
      match buf ch with
      | p :: rest =>
        (mkRuntime (runner rt) (<[c := mkChan rest (closed ch)]> (chans rt)) (gos rt),
         [Got (Some p)])
      | [] =>
        match find_sender c 0 (gos rt) with
        | Some (i, v) =>
          (mkRuntime (runner rt) (chans rt) (<[i := GRetainClear c]> (gos rt)),
           [Got v])
        | None => if closed ch then (rt, [GotClosed]) else (rt, [])
        end
      end
    end
  end.

(** A run under a schedule, with what the plugin received. *)
Fixpoint exec (sched : list Action) (rt : Runtime) : Runtime * list Obs :=
  match sched with
  | [] => (rt, [])
  | a :: sched' =>
    let '(rt1, o1) := exec_step a rt in
    let '(rt2, o2) := exec sched' rt1 in
    (rt2, o1 ++ o2)
  end.

End pipeline.

(* ===================================================================== *)
(** ** The sandbox decoder *)
(* ===================================================================== *)

Module plugins.
Import message.
Import pipeline.

(** [proto.Unmarshal(buf, m)] resets [m] and merges what it decodes from
    [buf] into it, so what [m] holds afterwards depends on [buf] alone
    (the code: "unmarshal will wipe them out").  The flag is [true] when
    no error is returned. *)
Class Protobuf := { Unmarshal : string → bool * Message }.

(** One call of the script to [inject_message]. *)
Record InjectCall := mkCall {
  payload : string;
  payload_type : string;
  payload_name : string
}.

(** What one [s.sb.ProcessMessage(pack)] does, as seen from the adapter:
    the calls the script makes to the inject callback, in order, the
    value it returns, the sandbox's last error, and the two readings the
    sampling code takes ([time.Since] and [rand.Intn]). *)
Record ScriptRun := mkRun {
  calls : list InjectCall;
  retval : Z;
  LastError : string;
  duration : Z;
  rand_Intn : Z
}.

(** The variable [original *message.Message] the callback closes over:
    nil, a message of its own ([new(message.Message)]), or the message
    of a pack ([s.packs[0].Message]). *)
Inductive OrigPtr :=
| ONil
| ONew (m : Message)
| OPack (p : PipelinePack).

Definition wrap64 (z : Z) : Z := ((z + 2 ^ 63) mod 2 ^ 64 - 2 ^ 63)%Z.

Record SandboxDecoder := mkSandboxDecoder {
  sb : bool;                          (* s.sb != nil *)
  processMessageCount : Z;
  processMessageFailures : Z;
  processMessageSamples : Z;
  processMessageDuration : Z;
  sample : bool;
  err : option Error;
  pack : option PipelinePack;
  packs : option (list PipelinePack)
}.

(** The decoder with what it shares with the rest of the process. *)
Record World := mkWorld {
  dec : SandboxDecoder;
  original : OrigPtr;
  msgs : MessageStore;
  inputRecycleChan : list PipelinePack;
  globalsStopping : bool              (* pipeline.Globals().Stopping *)
}.

Definition set_pack (v : option PipelinePack) (s : SandboxDecoder) : SandboxDecoder :=
  mkSandboxDecoder (sb s) (processMessageCount s) (processMessageFailures s)
                   (processMessageSamples s) (processMessageDuration s) (sample s)
                   (err s) v (packs s).
Definition set_packs (v : option (list PipelinePack)) (s : SandboxDecoder) : SandboxDecoder :=
  mkSandboxDecoder (sb s) (processMessageCount s) (processMessageFailures s)
                   (processMessageSamples s) (processMessageDuration s) (sample s)
                   (err s) (pack s) v.
Definition set_err (v : option Error) (s : SandboxDecoder) : SandboxDecoder :=
  mkSandboxDecoder (sb s) (processMessageCount s) (processMessageFailures s)
                   (processMessageSamples s) (processMessageDuration s) (sample s)
                   v (pack s) (packs s).

Definition with_dec (f : SandboxDecoder → SandboxDecoder) (w : World) : World :=
  mkWorld (f (dec w)) (original w) (msgs w) (inputRecycleChan w) (globalsStopping w).
Definition set_original (o : OrigPtr) (w : World) : World :=
  mkWorld (dec w) o (msgs w) (inputRecycleChan w) (globalsStopping w).
Definition set_Message (p : PipelinePack) (m : Message) (w : World) : World :=
  mkWorld (dec w) (original w) (<[p := m]> (msgs w)) (inputRecycleChan w) (globalsStopping w).

Definition deref (w : World) (o : OrigPtr) : option Message :=
  match o with
  | ONil => None
  | ONew m => Some m
  | OPack p => Some (msgs w p)
  end.

(** [copyMessageHeaders(dst, src)].  The capacity of a slice is
    identified with its length.  When [src] and [dst] are the same
    pointer the Go function returns at once; by value that is the case
    [dst = src], where the copy changes nothing either. *)
Definition copyMessageHeaders (dst src : option Message) : option Message :=
  match dst, src with
  | Some d, Some s =>
    let d := match Uuid s with
             | Some (b :: bs) => SetUuid (Some (b :: bs)) d
             | _ => SetUuid None d
             end in
    let d := match Timestamp s with
             | Some v => SetTimestamp v d
             | None => ClearTimestamp d
             end in
    let d := match Type_ s with
             | Some v => SetType v d
             | None => ClearType d
             end in
    let d := match Logger s with
             | Some v => SetLogger v d
             | None => ClearLogger d
             end in
    let d := match Severity s with
             | Some v => SetSeverity v d
             | None => ClearSeverity d
             end in
    let d := match Pid s with
             | Some v => SetPid v d
             | None => ClearPid d
             end in
    let d := match Hostname s with
             | Some v => SetHostname v d
             | None => ClearHostname d
             end in
    Some d
  | _, _ => dst
  end.

(** The block [if original != nil { ... }] of the callback: every
    standard header that is nil on the outgoing message takes the value
    the getter of [original] returns. *)
Definition fill_headers (orig m : Message) : Message :=
  let m := if Uuid m is Some _ then m else SetUuid (Uuid orig) m in
  let m := if Timestamp m is Some _ then m else SetTimestamp (GetTimestamp orig) m in
  let m := if Type_ m is Some _ then m else SetType (GetType orig) m in
  let m := if Hostname m is Some _ then m else SetHostname (GetHostname orig) m in
  let m := if Logger m is Some _ then m else SetLogger (GetLogger orig) m in
  let m := if Severity m is Some _ then m else SetSeverity (GetSeverity orig) m in
  let m := if Pid m is Some _ then m else SetPid (GetPid orig) m in
  m.

(** Modelled from the spec: [dr.NewPack()], a receive from the pack pool,
    which is not part of these sources.  The spec: Acquire "blocks until
    a free envelope is available; returns an envelope with all fields
    zeroed". *)
Definition NewPack (w : World) : option (PipelinePack * World) :=
  match inputRecycleChan w with
  | [] => None
  | p :: rest =>
    Some (p, mkWorld (dec w) (original w) (<[p := zero]> (msgs w)) rest (globalsStopping w))
  end.

Definition append_pack (l : option (list PipelinePack)) (p : PipelinePack)
  : option (list PipelinePack) :=
  Some (default [] l ++ [p]).

Section Adapter.
Context `{!Protobuf}.

(** The tail of the callback, from [if original != nil] on. *)
Definition inject_finish (p : PipelinePack) (w : World) : World :=
  let w1 := match deref w (original w) with
            | Some orig => set_Message p (fill_headers orig (msgs w p)) w
            | None => w
            end in
  with_dec (λ s, set_pack None (set_packs (append_pack (packs s) p) s)) w1.

(** The callback [SetDecoderRunner] registers with
    [s.sb.InjectMessage]; the result is the callback's return value. *)
Definition inject_callback (c : InjectCall) (w : World) : Outcome (Z * World) :=
  let start :=
    match pack (dec w) with
    | None =>
      match NewPack w with
      | None => Blocked
      | Some (p, w1) =>
        let w2 := with_dec (set_pack (Some p)) w1 in
        match original w2, packs (dec w2) with
        | ONil, Some (p0 :: _) => Done (p, set_original (OPack p0) w2)
        | _, _ => Done (p, w2)
        end
      end
    | Some p => Done (p, set_original ONil w)
    end in
  match start with
  | Done (p, w1) =>
    if String.eqb (payload_type c) EmptyString then
      let w2 := match original w1 with
                | ONil =>
                  set_original
                    (match copyMessageHeaders (Some zero) (Some (msgs w1 p)) with
                     | Some m => ONew m
                     | None => ONil
                     end) w1
                | _ => w1
                end in
      let '(ok, m) := Unmarshal (payload c) in
      let w3 := set_Message p m w2 in
      if ok then Done (0%Z, inject_finish p w3) else Done (1%Z, w3)
    else
      let ptype := NewField "payload_type" (payload_type c) "file-extension" in
      let pname := NewField "payload_name" (payload_name c) EmptyString in
      let m := AddField pname (AddField ptype (SetPayload (payload c) (msgs w1 p))) in
      Done (0%Z, inject_finish p (set_Message p m w1))
  | Panic => Panic
  | Blocked => Blocked
  end.

(** [s.sb.ProcessMessage(s.pack)]: the script makes its calls; it sees
    each return value and the list [cs] is what it did. *)
Fixpoint ProcessMessage (cs : list InjectCall) (w : World) : Outcome World :=
  match cs with
  | [] => Done w
  | c :: cs' =>
    match inject_callback c w with
    | Done (_, w1) => ProcessMessage cs' w1
    | Panic => Panic
    | Blocked => Blocked
    end
  end.

(** [SandboxDecoder.Decode]. *)
Definition SandboxDecoder_Decode (pack_ : PipelinePack) (run : ScriptRun) (w : World)
  : Outcome (option (list PipelinePack) * option Error * World) * list Event :=
  if negb (sb (dec w)) then (Done (None, err (dec w), w), [])
  else
    let w := with_dec (λ s,
               mkSandboxDecoder (sb s) (wrap64 (processMessageCount s + 1))
                 (processMessageFailures s) (processMessageSamples s)
                 (processMessageDuration s) (sample s) (err s) (Some pack_) (packs s)) w in
    match ProcessMessage (calls run) w with
    | Panic => (Panic, [])
    | Blocked => (Blocked, [])
    | Done w =>
      let w := with_dec (λ s,
                 mkSandboxDecoder (sb s) (processMessageCount s)
                   (processMessageFailures s)
                   (if sample s then wrap64 (processMessageSamples s + 1)
                    else processMessageSamples s)
                   (if sample s then wrap64 (processMessageDuration s + duration run)
                    else processMessageDuration s)
                   (Z.eqb 0 (rand_Intn run)) (err s) (pack s) (packs s)) w in
      let '(w, ev1) :=
        if (0 <? retval run)%Z then
          let e := String.append "FATAL: " (LastError run) in
          (mkWorld (set_err (Some e) (dec w)) (original w) (msgs w)
                   (inputRecycleChan w) true,
           [EvLogError e; EvShutDown])
        else (w, []) in
      let neg :=
        if (retval run <? 0)%Z then
          match pack (dec w) with
          | None => Panic        (* s.pack.Message with s.pack == nil *)
          | Some p =>
            let e := String.append "Failed parsing: " (GetPayload (msgs w p)) in
            let recycled := match packs (dec w) with
                            | Some (_ :: tl) => map EvRecycle tl
                            | _ => []
                            end in
            Done (with_dec (λ s,
                    mkSandboxDecoder (sb s) (processMessageCount s)
                      (wrap64 (processMessageFailures s + 1))
                      (processMessageSamples s) (processMessageDuration s)
                      (sample s) (Some e) (pack s) None) w,
                  recycled)
          end
        else Done (w, []) in
      match neg with
      | Done (w, ev2) =>
        (Done (packs (dec w), err (dec w), with_dec (set_packs None) w), ev1 ++ ev2)
      | Panic => (Panic, ev1)
      | Blocked => (Blocked, ev1)
      end
    end.

End Adapter.

End plugins.

(* ===================================================================== *)
(** ** The outputs: plugins/file and plugins/smtp *)
(* ===================================================================== *)

(** The serializers the outputs call.  [ProtobufEncodeMessage(pack, &out)]
    returns what it leaves in [out] together with its error. *)
Class Encoders := {
  json_Marshal : message.Message → list byte + Error;
  ProtobufEncodeMessage : message.Message → list byte → list byte * option Error
}.

(** Effects of an output's loop, in program order. *)
Inductive OutEvent :=
| OTake (p : PipelinePack)            (* a pack received from inChan *)
| ORecycle (p : PipelinePack)         (* pack.Recycle() *)
| OLogError (e : Error)               (* or.LogError(e) *)
| OSendMail (msg : list byte)         (* s.sendFunction(...) *)
| OBatch (b : list byte)              (* o.batchChan <- outBatch *)
| OCloseBatch                         (* close(o.batchChan) *)
| OWgDone.

(** The takes and recycles of a trace. *)
Definition isPackEvent (e : OutEvent) : bool :=
  match e with OTake _ | ORecycle _ => true | _ => false end.
Definition pack_events (tr : list OutEvent) : list OutEvent :=
  List.filter isPackEvent tr.

(** [pipeline.NEWLINE]. *)
Definition NEWLINE : byte := "010"%byte.

Module file.
Import message.

Record FileOutput := mkFileOutput {
  path : string;
  format : string;
  prefix_ts : bool;
  flushInterval : Z
}.

Section Handle.
Context `{!Encoders}.

(** [FileOutput.handleMessage(pack, outBytes)], with [now] the
    formatted [time.Now()] and [m] the pack's message.  The result
    [err] is a named result and starts nil.  In the json case the
    statement [if jsonMessage, err := json.Marshal(...); ...] declares
    an [err] of its own, and the assignment in its [else] branch
    writes that one: the named result stays nil.  In the text case
    [*pack.Message.Payload] dereferences the payload pointer. *)
Definition handleMessage (o : FileOutput) (now : string) (m : Message)
           (outBytes : list byte) : Outcome (option Error * list byte) :=
  let outBytes :=
    if prefix_ts o && negb (String.eqb (format o) "protobufstream")
    then outBytes ++ String.list_byte_of_string now
    else outBytes in
  let err : option Error := None in
  if String.eqb (format o) "json" then
    match json_Marshal m with
    | inl jsonMessage => Done (err, outBytes ++ jsonMessage ++ [NEWLINE])
    | inr err' =>
      let err' := String.append "Can't encode to JSON: " err' in
      Done (err, outBytes)
    end
  else if String.eqb (format o) "text" then
    match Payload m with
    | None => Panic
    | Some payload => Done (err, outBytes ++ String.list_byte_of_string payload ++ [NEWLINE])
    end
  else if String.eqb (format o) "protobufstream" then
    let '(out, e) := ProtobufEncodeMessage m outBytes in
    match e with
    | Some e => Done (Some (String.append "Can't encode to ProtoBuf: " e), out)
    | None => Done (None, out)
    end
  else
    Done (Some (String.append "Invalid serialization format " (format o)), outBytes).

(** What the [select] of the receiver loop picks, in order: a pack from
    [inChan] (with the clock reading [handleMessage] will take), the
    closure of [inChan], or a tick. *)
Inductive Select :=
| InPack (p : PipelinePack) (now : string)
| InClosed
| Tick.

(** The body of [case pack, ok = <-inChan] for a received pack. *)
Definition receive_pack (o : FileOutput) (msgs : MessageStore) (p : PipelinePack)
           (now : string) (outBatch outBytes : list byte)
  : Outcome (list byte) * list OutEvent :=
  match handleMessage o now (msgs p) outBytes with
  | Done (Some e, _) => (Done outBatch, [OLogError e; ORecycle p])
  | Done (None, outBytes) => (Done (outBatch ++ outBytes), [ORecycle p])
  | Panic => (Panic, [])
  | Blocked => (Blocked, [])
  end.

(** [FileOutput.receiver]: the loop [for ok { select { ... } }].
    [outBytes] is emptied after every message ([outBytes[:0]]), and the
    buffer the committer hands back on [backChan] is empty.  When the
    schedule ends the [select] waits. *)
Fixpoint receiver (o : FileOutput) (msgs : MessageStore) (sel : list Select)
         (outBatch : list byte) : Outcome unit * list OutEvent :=
  match sel with
  | [] => (Blocked, [])
  | InClosed :: _ =>
    (Done tt,
     (if (0 <? length outBatch)%nat then [OBatch outBatch] else [])
       ++ [OCloseBatch; OWgDone])
  | InPack p now :: sel' =>
    match receive_pack o msgs p now outBatch [] with
    | (Done outBatch', evs) =>
      let '(r, tr) := receiver o msgs sel' outBatch' in
      (r, OTake p :: evs ++ tr)
    | (Panic, evs) => (Panic, OTake p :: evs)
    | (Blocked, evs) => (Blocked, OTake p :: evs)
    end
  | Tick :: sel' =>
    if (0 <? length outBatch)%nat then
      let '(r, tr) := receiver o msgs sel' [] in
      (r, OBatch outBatch :: tr)
    else receiver o msgs sel' outBatch
  end.

(** The packs a schedule delivers before [inChan] is closed. *)
Fixpoint taken (sel : list Select) : list PipelinePack :=
  match sel with
  | [] => []
  | InClosed :: _ => []
  | InPack p _ :: sel' => p :: taken sel'
  | Tick :: sel' => taken sel'
  end.

End Handle.

(** *** Init, openFile and the committer *)

(** [FILEFORMATS]. *)
Definition FILEFORMATS : gmap string bool :=
  <["json" := true]> (<["text" := true]> (<["protobufstream" := true]> ∅)).

Record FileOutputConfig := mkFileOutputConfig {
  Path : string;
  Format : string;
  Prefix_ts : bool;
  Perm : string;
  FlushInterval : Z;
  FolderPerm : string
}.

(** [FileOutput.ConfigStruct]: the defaults; [Path] has none. *)
Definition ConfigStruct : FileOutputConfig :=
  mkFileOutputConfig EmptyString "text" false "644" 1000 "700".

(** [FileOutput] with the fields the receiver does not read: the two
    modes and the open file ([*os.File], nil when [None]). *)
Record FileOutputState := mkFileOutputState {
  out : FileOutput;
  perm : Z;
  folderPerm : Z;
  file_ : option nat
}.

(** [os.FileMode(intPerm)]: the conversion of an [int64] to [uint32]. *)
Definition FileMode (intPerm : Z) : Z := (intPerm mod 2 ^ 32)%Z.

(** The operating system and the library calls, with the state [F] of
    the file system. *)
Class FileSystem (F : Type) := {
  ParseInt : string → Z → Z → Z + Error;       (* strconv.ParseInt(s, base, bitSize) *)
  filepath_Dir : string → string;
  MkdirAll : string → Z → F → option Error * F;
  CheckWritePermission : string → F → option Error * F;
  OpenFile : string → Z → F → (nat + Error) * F;
  file_Write : option nat → list byte → F → (Z * option Error) * F;
  file_Sync : option nat → F → F;
  file_Close : option nat → F → F
}.

Section Files.
Context {F : Type} `{!FileSystem F}.

(** [FileOutput.openFile]. *)
Definition openFile (o : FileOutputState) (f : F) : option Error * FileOutputState * F :=
  let basePath := filepath_Dir (path (out o)) in
  match MkdirAll basePath (folderPerm o) f with
  | (Some err, f) =>
    (Some (String.append "Can't create the basepath for the FileOutput plugin: " err), o, f)
  | (None, f) =>
    match CheckWritePermission basePath f with
    | (Some err, f) => (Some err, o, f)
    | (None, f) =>
      match OpenFile (path (out o)) (perm o) f with
      | (inl h, f) => (None, mkFileOutputState (out o) (perm o) (folderPerm o) (Some h), f)
      | (inr err, f) => (Some err, mkFileOutputState (out o) (perm o) (folderPerm o) None, f)
      end
    end
  end.

(** [FileOutput.Init].  The fields are assigned one after the other, so
    a failing [Init] leaves those already assigned. *)
Definition Init (conf : FileOutputConfig) (o : FileOutputState) (f : F)
  : option Error * FileOutputState * F :=
  match FILEFORMATS !! Format conf with
  | None =>
    (Some (String.append "FileOutput '"
             (String.append (Path conf)
                (String.append "' unsupported format: " (Format conf)))), o, f)
  | Some _ =>
    let o := mkFileOutputState
               (mkFileOutput (Path conf) (Format conf) (Prefix_ts conf)
                             (flushInterval (out o)))
               (perm o) (folderPerm o) (file_ o) in
    match ParseInt (FolderPerm conf) 8 32 with
    | inr _ =>
      (Some (String.append "FileOutput '"
               (String.append (path (out o))
                  "' can't parse `folder_perm`, is it an octal integer string?")), o, f)
    | inl intPerm =>
      let o := mkFileOutputState (out o) (perm o) (FileMode intPerm) (file_ o) in
      match ParseInt (Perm conf) 8 32 with
      | inr _ =>
        (Some (String.append "FileOutput '"
                 (String.append (path (out o))
                    "' can't parse `perm`, is it an octal integer string?")), o, f)
      | inl intPerm =>
        let o := mkFileOutputState (out o) (FileMode intPerm) (folderPerm o) (file_ o) in
        match openFile o f with
        | (Some err, o, f) =>
          (Some (String.append "FileOutput '"
                   (String.append (path (out o))
                      (String.append "' error opening file: " err))), o, f)
        | (None, o, f) =>
          (None,
           mkFileOutputState
             (mkFileOutput (path (out o)) (format (out o)) (prefix_ts (out o))
                           (FlushInterval conf))
             (perm o) (folderPerm o) (file_ o), f)
        end
      end
    end
  end.

(** Effects of the committer, in program order. *)
Inductive CommitEvent :=
| CBack (b : list byte)               (* o.backChan <- b *)
| CWrite (b : list byte)              (* o.file.Write(b) *)
| CLogError (e : Error)
| CSync                               (* o.file.Sync() *)
| CClose                              (* o.file.Close() *)
| CWgDone.

(** What the [select] of the committer picks: a batch, the closure of
    [batchChan], or the reload signal. *)
Inductive CommitSelect :=
| GotBatch (b : list byte)
| BatchClosed
| Hup.

(** The loop [for ok { select { ... } }] of [FileOutput.committer]. *)
Fixpoint committer_loop (o : FileOutputState) (sel : list CommitSelect) (f : F)
  : Outcome (FileOutputState * F) * list CommitEvent :=
  match sel with
  | [] => (Blocked, [])
  | BatchClosed :: _ =>
    (Done (o, file_Close (file_ o) f), [CClose; CWgDone])
  | GotBatch outBatch :: sel' =>
    let '(n, err, f) := file_Write (file_ o) outBatch f in
    let '(evs, f) :=
      match err with
      | Some err =>
        ([CLogError (String.append "Can't write to "
                       (String.append (path (out o)) (String.append ": " err)))], f)
      | None =>
        if negb (n =? Z.of_nat (length outBatch))%Z
        then ([CLogError (String.append "Truncated output for " (path (out o)))], f)
        else ([CSync], file_Sync (file_ o) f)
      end in
    let '(r, tr) := committer_loop o sel' f in
    (r, CWrite outBatch :: evs ++ CBack [] :: tr)
  | Hup :: sel' =>
    let f := file_Close (file_ o) f in
    match openFile o f with
    | (Some _, _, _) => (Panic, [CClose])
    | (None, o, f) =>
      let '(r, tr) := committer_loop o sel' f in
      (r, CClose :: tr)
    end
  end.

(** [FileOutput.committer]: the initial buffer goes to [backChan] first. *)
Definition committer (o : FileOutputState) (sel : list CommitSelect) (f : F)
  : Outcome (FileOutputState * F) * list CommitEvent :=
  let '(r, tr) := committer_loop o sel f in
  (r, CBack [] :: tr).

End Files.

End file.

Module smtp.
Import message.

Record SmtpOutputConfig := mkSmtpOutputConfig {
  PayloadOnly : bool;
  SendFrom : string;
  SendTo : list string;
  Host : string
}.

(** [s.sendFunction]: the mail transport, with its own state. *)
Class Transport (T : Type) := {
  sendFunction : T → SmtpOutputConfig → list byte → option Error * T
}.

Definition CRLF : string := String "013"%char (String "010"%char EmptyString).

(** [fmt.Sprintf("Subject: %s\r\n\r\n%s", subject, body)] as bytes. *)
Definition mail (subject : string) (body : list byte) : list byte :=
  String.list_byte_of_string
    (String.append "Subject: " (String.append subject (String.append CRLF CRLF)))
    ++ body.

Section Run.
Context {T : Type} `{!Transport T} `{!Encoders}.

(** The body of [for pack = range inChan] in [SmtpOutput.Run]; [err]
    is the named result, which every iteration overwrites. *)
Definition Run_pack (conf : SmtpOutputConfig) (subject : string) (msg : Message)
           (pack : PipelinePack) (t : T) : option Error * T * list OutEvent :=
  let '(err, t, ev) :=
    if PayloadOnly conf then
      let message := mail subject (String.list_byte_of_string (GetPayload msg)) in
      let '(err, t) := sendFunction t conf message in
      (err, t, [OSendMail message])
    else
      match json_Marshal msg with
      | inl contents =>
        let message := mail subject contents in
        let '(err, t) := sendFunction t conf message in
        (err, t, [OSendMail message])
      | inr err => (Some err, t, [OLogError err])
      end in
  (err, t,
   ev ++ match err with Some e => [OLogError e] | None => [] end ++ [ORecycle pack]).

(** [SmtpOutput.Run] over the packs [inChan] delivers before it is
    closed; the result is the error [Run] returns. *)
Fixpoint Run_loop (conf : SmtpOutputConfig) (subject : string) (msgs : MessageStore)
         (queue : list PipelinePack) (t : T) (err : option Error)
  : option Error * T * list OutEvent :=
  match queue with
  | [] => (err, t, [])
  | pack :: rest =>
    let '(err, t, ev) := Run_pack conf subject (msgs pack) pack t in
    let '(r, t, tr) := Run_loop conf subject msgs rest t err in
    (r, t, OTake pack :: ev ++ tr)
  end.

Definition SmtpOutput_Run (conf : SmtpOutputConfig) (subject : string)
           (msgs : MessageStore) (queue : list PipelinePack) (t : T)
  : option Error * T * list OutEvent :=
  Run_loop conf subject msgs queue t None.

End Run.

(** *** Init *)

(** [SmtpOutputConfig] as [Init] reads it: [SendTo] is a slice that may
    be nil, and [Auth], [User] and [Password] are there. *)
Record InitConfig := mkInitConfig {
  cPayloadOnly : bool;
  cSendFrom : string;
  cSendTo : option (list string);
  cHost : string;
  cAuth : string;
  cUser : string;
  cPassword : string
}.

(** [SmtpOutput.ConfigStruct]: the defaults. *)
Definition ConfigStruct : InitConfig :=
  mkInitConfig true "heka@localhost.localdomain" None "127.0.0.1:25" "none"
               EmptyString EmptyString.

(** [smtp.Auth] values. *)
Inductive Auth :=
| PlainAuth (identity username password host : string)
| CRAMMD5Auth (username secret : string).

Record SmtpOutput := mkSmtpOutput {
  conf_ : option InitConfig;
  auth : option Auth;
  sendFunction_set : bool          (* s.sendFunction != nil *)
}.

(** [net.SplitHostPort]. *)
Class Net := { SplitHostPort : string → (string * string) + Error }.

(** [SmtpOutput.Init]. *)
Definition Init `{!Net} (config : InitConfig) (s : SmtpOutput) : option Error * SmtpOutput :=
  let s := mkSmtpOutput (Some config) (auth s) (sendFunction_set s) in
  match cSendTo config with
  | None => (Some "send_to must contain at least one recipient", s)
  | Some _ =>
    match SplitHostPort (cHost config) with
    | inr _ => (Some "Host must contain a port specifier", s)
    | inl (host, _) =>
      let s := mkSmtpOutput (conf_ s) (auth s) true in
      if String.eqb (cAuth config) "Plain" then
        (None, mkSmtpOutput (conf_ s)
                 (Some (PlainAuth EmptyString (cUser config) (cPassword config) host))
                 (sendFunction_set s))
      else if String.eqb (cAuth config) "CRAMMD5" then
        (None, mkSmtpOutput (conf_ s)
                 (Some (CRAMMD5Auth (cUser config) (cPassword config)))
                 (sendFunction_set s))
      else if String.eqb (cAuth config) "none" then
        (None, mkSmtpOutput (conf_ s) None (sendFunction_set s))
      else
        (Some (String.append "Invalid auth type: " (cAuth config)), s)
    end
  end.

End smtp.

(* ===================================================================== *)
(** ** The filter script http_status.lua *)
(* ===================================================================== *)

Module http_status.

(** The values [read_message] can return.  Numbers are the finite ones:
    they compare as the rationals they denote. *)
Inductive LuaValue :=
| LNil
| LBoolean (b : bool)
| LNumber (q : Q)
| LString (s : string).

(** The columns, as [status:set_header] numbers them. *)
Definition HTTP_200 : Z := 1.
Definition HTTP_300 : Z := 2.
Definition HTTP_400 : Z := 3.
Definition HTTP_500 : Z := 4.
Definition HTTP_UNKNOWN : Z := 5.

(** [read_config(key) or default]. *)
Definition config_or (v : LuaValue) (default_ : Q) : LuaValue :=
  match v with
  | LNil | LBoolean false => LNumber default_
  | _ => v
  end.

(** [v >= k] and [v < k] for a number [k]: comparing anything but a
    number with a number raises an error, [None]. *)
Definition lua_ge (v : LuaValue) (k : Q) : option bool :=
  match v with
  | LNumber q => Some (Qle_bool k q)
  | _ => None
  end.

Definition lua_lt (v : LuaValue) (k : Q) : option bool :=
  match v with
  | LNumber q => Some (negb (Qle_bool k q))
  | _ => None
  end.

(** [v >= lo and v < hi]; [and] evaluates its second operand only when
    the first is true. *)
Definition lua_in (v : LuaValue) (lo hi : Q) : option bool :=
  match lua_ge v lo with
  | Some true => lua_lt v hi
  | r => r
  end.

(** [process_message], with [ts] and [sc] what [read_message] returns for
    the timestamp and for [Fields[status]].  The result is the return
    value and the calls [status:add(ts, column, 1)]; [None] when the
    script raises an error. *)
Definition process_message (ts : Z) (sc : LuaValue) : option (Z * list (Z * Z * Z)) :=
  match lua_in sc 200 300 with
  | None => None
  | Some true => Some (0%Z, [(ts, HTTP_200, 1%Z)])
  | Some false =>
    match lua_in sc 300 400 with
    | None => None
    | Some true => Some (0%Z, [(ts, HTTP_300, 1%Z)])
    | Some false =>
      match lua_in sc 400 500 with
      | None => None
      | Some true => Some (0%Z, [(ts, HTTP_400, 1%Z)])
      | Some false =>
        match lua_in sc 500 600 with
        | None => None
        | Some true => Some (0%Z, [(ts, HTTP_500, 1%Z)])
        | Some false => Some (0%Z, [(ts, HTTP_UNKNOWN, 1%Z)])
        end
      end
    end
  end.

End http_status.

(* ===================================================================== *)
(** ** Vocabulary of the properties *)
(* ===================================================================== *)

Import message pipeline plugins.

(** The trace of failed re-creation attempts, one per error: the backoff
    wait, the call of the wrapper, the error logged. *)
Definition attempts (pw : option PluginWrapper) (errs : list Error) : list Event :=
  flat_map (λ e, [EvWait; EvCreateWithError pw; EvLogError e]) errs.

(** The line a [Starter] logs when [Run] returns. *)
Definition run_log (err : option Error) : Event :=
  match err with
  | Some e => EvLogError e
  | None => EvLogMessage "stopped"
  end.

Definition matcher_start (has_matcher : bool) : list Event :=
  if has_matcher then [EvMatcherStart] else [].

(** The wrapper [foRunner.Starter] looks up: in [filterWrappers] for a
    filter, in [outputWrappers] otherwise. *)
Definition wrapper_of (pc : PipelineConfig) (p : Plugin) (nm : string)
  : option PluginWrapper :=
  if isFilter p then filterWrappers pc !! nm else outputWrappers pc !! nm.

(** How a [Starter] closes after [Run] of a plugin that is not
    [Restarting]: nothing more when the pipeline is stopping already. *)
Definition closing {E} (g1 : GlobalConfigStruct E) : list Event :=
  if Stopping g1 then []
  else [EvLogMessage "has stopped, shutting down."; EvShutDown].


(** A schedule in which the plugin receives from [c] only. *)
Definition reads_only (c : ChanId) (sched : list Action) : Prop :=
  Forall (λ a, match a with Recv c' => c' = c | Step _ => True end) sched.

(** The goroutines of earlier calls to [InChan] have finished, [n] of
    them; the goroutine of the last call stands at [g], and its channel
    [c] is empty and open (closed when [cl]). *)
Definition at_pc (c : ChanId) (n : nat) (g : Goroutine) (cl : bool) (rt : Runtime) : Prop :=
  gos rt = replicate n GDone ++ [g] ∧ chans rt !! c = Some (mkChan [] cl).

(** [out] carries the headers of [decoded] where [decoded] has them, and
    the header values of [orig] where it has not. *)
Definition filled_from (orig decoded out : Message) : Prop :=
  GetUuid out = (if Uuid decoded is Some u then u else GetUuid orig)
  ∧ GetTimestamp out = default (GetTimestamp orig) (Timestamp decoded)
  ∧ GetType out = default (GetType orig) (Type_ decoded)
  ∧ GetHostname out = default (GetHostname orig) (Hostname decoded)
  ∧ GetLogger out = default (GetLogger orig) (Logger decoded)
  ∧ GetSeverity out = default (GetSeverity orig) (Severity decoded)
  ∧ GetPid out = default (GetPid orig) (Pid decoded).

(** The state [Decode] hands to the script: [s.pack = pack] and the
    message counter advanced. *)
Definition entered (pack_ : PipelinePack) (w : World) : World :=
  with_dec (λ s,
    mkSandboxDecoder (sb s) (wrap64 (processMessageCount s + 1))
      (processMessageFailures s) (processMessageSamples s)
      (processMessageDuration s) (sample s) (err s) (Some pack_) (packs s)) w.

(** [a] and [b] have the same standard headers. *)
Definition same_headers (a b : Message) : Prop :=
  GetUuid a = GetUuid b ∧ GetTimestamp a = GetTimestamp b
  ∧ GetType a = GetType b ∧ GetHostname a = GetHostname b
  ∧ GetLogger a = GetLogger b ∧ GetSeverity a = GetSeverity b
  ∧ GetPid a = GetPid b.

(** The message an injection starts from before the headers are filled
    in: what the payload decodes to on the binary path, a blank message
    with the payload on the other. *)
Definition injected `{!Protobuf} (c : InjectCall) : Message :=
  if String.eqb (payload_type c) EmptyString then (Unmarshal (payload c)).2
  else AddField (NewField "payload_name" (payload_name c) EmptyString)
         (AddField (NewField "payload_type" (payload_type c) "file-extension")
            (SetPayload (payload c) zero)).

(** An injection that cannot fail to decode. *)
Definition decodable `{!Protobuf} (c : InjectCall) : Prop :=
  payload_type c = EmptyString → (Unmarshal (payload c)).1 = true.

(** Where the adapter stands between two injections of one call to
    [Decode], for the input pack [input] whose message was [m0] on entry:
    [original], if set, leads to the headers of [m0]. *)
Definition between (m0 : Message) (input : PipelinePack) (w : World) : Prop :=
  pack (dec w) = None
  ∧ (∃ ps, packs (dec w) = Some (input :: ps))
  ∧ match original w with
    | ONil => same_headers (msgs w input) m0
    | OPack p0 => p0 = input ∧ same_headers (msgs w input) m0
    | ONew o => same_headers o m0
    end.

(** A take followed by its recycle, for each pack in turn. *)
Definition take_recycle (ps : list PipelinePack) : list OutEvent :=
  flat_map (λ p, [OTake p; ORecycle p]) ps.

(** What the supervisor loop of an input runner may do: run a plugin
    that is an [Input], clean up a plugin that is [Restarting], wait,
    call the wrapper, log and shut down - and nothing with packs, the
    matcher or the wait group. *)
Definition iRunner_may (e : Event) : Prop :=
  match e with
  | EvRun p => isInput p = true
  | EvCleanupForRestart p => isRestarting p = true
  | EvWait | EvCreateWithError _ | EvShutDown | EvLogError _ | EvLogMessage _ => True
  | _ => False
  end.

(** The same for a filter/output runner, which also starts its matcher. *)
Definition foRunner_may (e : Event) : Prop :=
  match e with
  | EvRun p => isFilter p || isOutput p = true
  | EvCleanupForRestart p => isRestarting p = true
  | EvWait | EvCreateWithError _ | EvShutDown | EvLogError _ | EvLogMessage _
  | EvMatcherStart => True
  | _ => False
  end.

(** What the re-creation loop may do. *)
Definition createLoop_may (e : Event) : Prop :=
  match e with
  | EvWait | EvCreateWithError _ | EvShutDown | EvLogError _ | EvLogMessage _ => True
  | _ => False
  end.

(** What the goroutine of [dRunner.Start] does with packs: it sends
    them to the router, recycles them and logs errors. *)
Definition dRunner_may (e : Event) : Prop :=
  match e with
  | EvRouterSend _ | EvRecycle _ | EvLogError _ => True
  | _ => False
  end.


(** The fields of the decoder that only [Decode] itself writes: the
    sandbox, the counters, the sampling flag and the sticky error. *)
Definition bookkeeping (s : SandboxDecoder)
  : bool * Z * Z * Z * Z * bool * option Error :=
  (sb s, processMessageCount s, processMessageFailures s,
   processMessageSamples s, processMessageDuration s, sample s, err s).

(** The batches a receiver trace puts on [batchChan], in order. *)
Definition batches_of (tr : list OutEvent) : list (list byte) :=
  flat_map (λ e, match e with OBatch b => [b] | _ => [] end) tr.

(** The bytes of the messages a schedule delivers before [inChan] is
    closed and [handleMessage] serializes without an error, in order. *)
Fixpoint produced `{!Encoders} (o : file.FileOutput) (msgs : MessageStore)
         (sel : list file.Select) : list byte :=
  match sel with
  | [] => []
  | file.InClosed :: _ => []
  | file.InPack p now :: sel' =>
    match file.handleMessage o now (msgs p) [] with
    | Done (None, out) => out ++ produced o msgs sel'
    | _ => produced o msgs sel'
    end
  | file.Tick :: sel' => produced o msgs sel'
  end.

(** What the receiver does before it closes [batchChan]: takes,
    recycles, log lines and batches that are not empty. *)
Definition receiver_may (e : OutEvent) : Prop :=
  match e with
  | OTake _ | ORecycle _ | OLogError _ => True
  | OBatch b => b ≠ []
  | _ => False
  end.

(** The buffers a committer trace writes and hands back, in order. *)
Definition commit_writes (tr : list file.CommitEvent) : list (list byte) :=
  flat_map (λ e, match e with file.CWrite b => [b] | _ => [] end) tr.
Definition commit_backs (tr : list file.CommitEvent) : list (list byte) :=
  flat_map (λ e, match e with file.CBack b => [b] | _ => [] end) tr.

(** The batches a schedule of the committer delivers before [batchChan]
    is closed. *)
Fixpoint delivered (sel : list file.CommitSelect) : list (list byte) :=
  match sel with
  | [] => []
  | file.BatchClosed :: _ => []
  | file.GotBatch b :: sel' => b :: delivered sel'
  | file.Hup :: sel' => delivered sel'
  end.

(** What the committer does before it is done: everything but
    [wg.Done()]. *)
Definition committer_may (e : file.CommitEvent) : Prop :=
  match e with file.CWgDone => False | _ => True end.

(** The mails a trace hands to the transport, and the errors it logs. *)
Definition mails (tr : list OutEvent) : list (list byte) :=
  flat_map (λ e, match e with OSendMail m => [m] | _ => [] end) tr.
Definition logged (tr : list OutEvent) : list Error :=
  flat_map (λ e, match e with OLogError m => [m] | _ => [] end) tr.

(** The mail [SmtpOutput.Run] builds for a message, if any. *)
Definition mail_for `{!Encoders} (conf : smtp.SmtpOutputConfig) (subject : string)
           (m : message.Message) : option (list byte) :=
  if smtp.PayloadOnly conf
  then Some (smtp.mail subject (String.list_byte_of_string (message.GetPayload m)))
  else match json_Marshal m with
       | inl contents => Some (smtp.mail subject contents)
       | inr _ => None
       end.

(** What the text receiver gets through: a tick, or a pack whose message
    has a payload. *)
Definition passes_text (msgs : MessageStore) (s : file.Select) : Prop :=
  match s with
  | file.InPack q _ => message.Payload (msgs q) ≠ None
  | file.Tick => True
  | file.InClosed => False
  end.

(* ===================================================================== *)
(** ** Instances for the examples *)
(* ===================================================================== *)

(** A host whose plugins fail: [Run] returns an error and every
    re-creation fails. *)
Definition FailHost : Host unit := {|
  ParseDuration := λ _, Some 1000%Z;
  plugin_Run := λ _ g, (Some "run failed", g);
  CleanupForRestart := λ _ g, g;
  CreateWithError := λ _ g, (inr "init failed", g);
  Sleep := λ g, g
|}.

(** The host of the runner tests ([StoppingInput], [StoppingOutput]):
    [Run] returns at once, [CleanupForRestart] counts, [Init] fails once
    the count has passed one. *)
Definition StoppingHost : Host nat := {|
  ParseDuration := λ _, Some 1000%Z;
  plugin_Run := λ _ g, (None, g);
  CleanupForRestart := λ _ g, mkGlobals (Stopping g) (S (ext g));
  CreateWithError := λ _ g,
    if (1 <? ext g)%nat then (inr "Stopped enough, done", g)
    else (inl (mkPlugin (ext g) true false true true), g);
  Sleep := λ g, g
|}.

Definition retry1 : PluginGlobals :=
  mkPluginGlobals (mkRetryOptions "1us" "1us" "1us" 1).

Definition an_input (restarting : bool) : Plugin := mkPlugin 0 true false false restarting.
Definition an_output (restarting : bool) : Plugin := mkPlugin 0 false false true restarting.

Definition st0 (nm : string) (p : Plugin) : St unit :=
  mkSt (mkGlobals false tt) (mkBase nm p retry1 0) (mkRetryHelper 0 0).

Definition pc0 : PipelineConfig :=
  mkPipelineConfig {[ "stopping" := mkPluginWrapper "stopping" ]} ∅
                   {[ "stoppingOutput" := mkPluginWrapper "stoppingOutput" ]}.

(** A filter whose matcher is [Type == 'alert']. *)
Definition alert_matcher : MatchRunner :=
  mkMatchRunner (λ m, String.eqb (GetType m) "alert").

Definition fo0 : foRunner :=
  mkFoRunner (mkBase "out" (mkPlugin 0 false true true true) retry1 0)
             (Some alert_matcher) 0 None.

Definition rt0 : Runtime :=
  mkRuntime fo0 {[ 0%nat := mkChan [5%nat] false ]} [GDone].

(** A decoder that forwards even packs and rejects odd ones. *)
Definition ParityDecoder : Decoder unit := {|
  Decode := λ d p, if Nat.even p then Done (Some [p], None, d)
                   else Done (None, Some "odd pack", d);
  SetDecoderRunner := None;
  Shutdown := None
|}.

(** A stand-in for the protobuf decoder: the payload "ok" decodes to a
    message without headers, anything else is malformed and leaves the
    destination reset. *)
Definition ToyProtobuf : Protobuf := {|
  Unmarshal := λ b, if String.eqb b "ok"
                    then (true, SetPayload "decoded" zero)
                    else (false, zero)
|}.

Definition input_message : Message :=
  SetType "T" (SetHostname "h" (SetPayload "line" zero)).

Definition decoder0 : SandboxDecoder :=
  mkSandboxDecoder true 0 0 0 0 true None None None.

Definition world0 : World :=
  mkWorld decoder0 ONil (λ _, input_message) [1%nat; 2%nat] false.

(** Encoders whose JSON marshaling fails. *)
Definition FailingEncoders : Encoders := {|
  json_Marshal := λ _, inr "unsupported value";
  ProtobufEncodeMessage := λ _ out, (out, None)
|}.

Definition json_output : file.FileOutput := file.mkFileOutput "/tmp/out" "json" true 1000.

(** A decoder that has met a fatal error before. *)
Definition world_failed : World :=
  mkWorld (mkSandboxDecoder true 1 0 1 0 true (Some "FATAL: boom") None None)
          ONil (λ _, input_message) [1%nat; 2%nat] true.

(** A file system in which every directory can be made and written to,
    a file opens under every path but the empty one, and a write
    appends all the bytes; the state is what has been written. *)
Definition ToyFS : file.FileSystem (list byte) := {|
  file.ParseInt := λ s _ _,
    if String.eqb s "644" then inl 420%Z
    else if String.eqb s "700" then inl 448%Z
    else inr "invalid syntax";
  file.filepath_Dir := λ _, "/var/log";
  file.MkdirAll := λ _ _ f, (None, f);
  file.CheckWritePermission := λ _ f, (None, f);
  file.OpenFile := λ p _ f,
    if String.eqb p EmptyString then (inr "no such file or directory", f)
    else (inl 3%nat, f);
  file.file_Write := λ _ b f, (Z.of_nat (length b), None, f ++ b);
  file.file_Sync := λ _ f, f;
  file.file_Close := λ _ f, f
|}.

Definition text_output : file.FileOutput :=
  file.mkFileOutput "/var/log/out" "text" false 1000.

Definition fresh_output : file.FileOutputState :=
  file.mkFileOutputState (file.mkFileOutput EmptyString EmptyString false 0) 0 0 None.

(** The plugin after a successful [Init]. *)
Definition open_output : file.FileOutputState :=
  file.mkFileOutputState text_output 420 448 (Some 3%nat).

Definition line_batch : list byte := String.list_byte_of_string "line" ++ [NEWLINE].

(** A mail transport that never fails. *)
Definition OkTransport : smtp.Transport unit := {|
  smtp.sendFunction := λ t _ _, (None, t)
|}.

(* ===================================================================== *)
(** ** Properties *)
(* ===================================================================== *)

(** *** The test of the input runner

    [InputRunnerSpec], "Runner restarts a plugin on the first time only",
    with [MaxRetries: 1]: the plugin is cleaned up twice, re-created once,
    and the second re-creation fails and exhausts the retries. *)
Example InputRunnerSpec_restarts_once :
  ∃ s',
    @iRunner_Starter nat StoppingHost 5 pc0
      (mkSt (mkGlobals false 0%nat) (mkBase "stopping" (an_input true) retry1 0)
            (mkRetryHelper 0 0))
    = (Some Returned, s',
       [EvRun (an_input true); EvLogMessage "stopped";
        EvCleanupForRestart (an_input true);
        EvWait; EvCreateWithError (Some (mkPluginWrapper "stopping"));
        EvLogMessage "exited, now restarting.";
        EvRun (mkPlugin 1 true false true true); EvLogMessage "stopped";
        EvCleanupForRestart (mkPlugin 1 true false true true);
        EvWait; EvCreateWithError (Some (mkPluginWrapper "stopping"));
        EvLogError "Stopped enough, done";
        EvLogError "Max retries exceeded"; EvShutDown; EvWgDone])
    ∧ ext (globals s') = 2%nat
    ∧ pipeline.Stopping (globals s') = true.
Proof. eexists. split; [vm_compute; reflexivity|]. by split. Qed.

(** *** foRunner.Inject *)

(** C1.  A filter that injects a pack its own matcher accepts gets
    [false]: the pack is recycled and an error is logged, and nothing is
    sent to the router.  For a pack the matcher rejects, [Inject] returns
    [true] and starts the goroutine that sends the pack to the router. *)
Theorem foRunner_Inject_self_match (fo : foRunner) (mr : MatchRunner)
        (msgs : MessageStore) (p : PipelinePack) :
  matcher fo = Some mr →
  (Match mr (msgs p) = true →
   foRunner_Inject fo msgs p
   = (Done false,
      [EvRecycle p; EvLogError "attempted to Inject a message to itself"]))
  ∧ (Match mr (msgs p) = false →
     foRunner_Inject fo msgs p = (Done true, [EvGoRouterSend p])).
Proof.
  intros Hm. unfold foRunner_Inject, foRunner_MatchRunner. rewrite Hm.
  split; intros ->; reflexivity.
Qed.

Lemma foRunner_Inject_self_match_witness :
  foRunner_Inject fo0 (λ _, SetType "alert" zero) 3%nat
  = (Done false,
     [EvRecycle 3%nat; EvLogError "attempted to Inject a message to itself"])
  ∧ foRunner_Inject fo0 (λ _, SetType "info" zero) 4%nat
    = (Done true, [EvGoRouterSend 4%nat]).
Proof.
  split.
  - apply (proj1 (foRunner_Inject_self_match fo0 alert_matcher
                    (λ _, SetType "alert" zero) 3%nat eq_refl)).
    reflexivity.
  - apply (proj2 (foRunner_Inject_self_match fo0 alert_matcher
                    (λ _, SetType "info" zero) 4%nat eq_refl)).
    reflexivity.
Defined.

(** *** dRunner.Start *)

Section DecoderRunnerFacts.
Context {D : Type} `{!Decoder D}.

Lemma drain_app (pre post : list PipelinePack) : ∀ (d d1 : D) tr1,
  drain d pre = (Done d1, tr1) →
  drain d (pre ++ post) = ((drain d1 post).1, tr1 ++ (drain d1 post).2).
Proof.
  induction pre as [|p pre IH]; intros d d1 tr1; cbn [drain app].
  - intros [= -> <-]. by destruct (drain d1 post).
  - destruct (Decode d p) as [[[packs err] d']| |]; [|done|done].
    destruct (drain d' pre) as [r tr] eqn:Hd.
    intros [= -> <-]. rewrite (IH d' d1 tr Hd).
    by rewrite app_assoc.
Qed.

End DecoderRunnerFacts.

(** C5.  In the drain loop, for the pack [pack] taken after the packs
    [pre]: when [Decode] returns a slice that is not nil, every pack of it
    is sent to the router, in order, and nothing is recycled or logged;
    when it returns nil with an error, the error is logged and [pack] is
    recycled once; when it returns nil without an error, [pack] is
    recycled once and nothing is logged.  The loop then goes on with the
    packs [post]. *)
Theorem drain_decode_outcomes {D : Type} `{!Decoder D}
        (d d1 d2 : D) (pre post : list PipelinePack) (pack : PipelinePack)
        (tr1 : list Event) (packs : option (list PipelinePack)) (err : option Error) :
  drain d pre = (Done d1, tr1) →
  Decode d1 pack = Done (packs, err, d2) →
  ∃ body,
    drain d (pre ++ pack :: post)
    = ((drain d2 post).1, tr1 ++ body ++ (drain d2 post).2)
    ∧ (∀ ps, packs = Some ps → body = map EvRouterSend ps)
    ∧ (∀ e, packs = None → err = Some e → body = [EvLogError e; EvRecycle pack])
    ∧ (packs = None → err = None → body = [EvRecycle pack]).
Proof.
  intros Hpre Hdec. exists (drain_pack pack packs err). split.
  - rewrite (drain_app pre (pack :: post) d d1 tr1 Hpre).
    cbn [drain]. rewrite Hdec. by destruct (drain d2 post).
  - split_and!; [by intros ps -> | by intros e -> -> | by intros -> ->].
Qed.

Lemma drain_decode_outcomes_witness :
  ∃ body,
    @drain unit ParityDecoder tt ([2%nat] ++ 3%nat :: [4%nat])
    = ((@drain unit ParityDecoder tt [4%nat]).1,
       [EvRouterSend 2%nat] ++ body ++ (@drain unit ParityDecoder tt [4%nat]).2)
    ∧ body = [EvLogError "odd pack"; EvRecycle 3%nat].
Proof.
  destruct (@drain_decode_outcomes unit ParityDecoder tt tt tt [2%nat] [4%nat] 3%nat
              [EvRouterSend 2%nat] None (Some "odd pack") eq_refl eq_refl)
    as (body & Heq & _ & Hb & _).
  exists body. split; [exact Heq|]. by apply Hb.
Defined.

(** *** RetainPack and InChan *)

Section RetainFacts.
Variables (c : ChanId) (p : PipelinePack) (n : nat).

Lemma lookup_last_goroutine g :
  (replicate n GDone ++ [g]) !! n = Some g.
Proof. apply list_lookup_middle. by rewrite length_replicate. Qed.

Lemma lookup_other_goroutine g i :
  i ≠ n → (replicate n GDone ++ [g]) !! i = Some GDone
          ∨ (replicate n GDone ++ [g]) !! i = None.
Proof.
  intros Hi. destruct (decide (i < n)%nat) as [Hlt|Hge].
  - left. rewrite lookup_app_l by (by rewrite length_replicate).
    by apply lookup_replicate_2.
  - right. apply lookup_ge_None. rewrite length_app, length_replicate. cbn. lia.
Qed.

Lemma insert_last_goroutine g g' :
  <[n := g']> (replicate n GDone ++ [g]) = replicate n GDone ++ [g'].
Proof.
  rewrite insert_app_r_alt by (by rewrite length_replicate).
  by rewrite length_replicate, Nat.sub_diag.
Qed.

Lemma find_sender_finished k gs :
  find_sender c k (replicate n GDone ++ gs) = find_sender c (k + n) gs.
Proof.
  clear p. revert k. induction n as [|m IH]; intros k; cbn.
  - by rewrite Nat.add_0_r.
  - rewrite IH. f_equal. lia.
Qed.

Lemma step_other i g cl rt :
  at_pc c n g cl rt → i ≠ n → exec_step (Step i) rt = (rt, []).
Proof.
  intros [Hg _] Hi. unfold exec_step. rewrite Hg.
  by destruct (lookup_other_goroutine g i Hi) as [-> | ->].
Qed.

Lemma step_eval rt :
  at_pc c n (GRetainEval c) false rt →
  ∃ rt1, exec_step (Step n) rt = (rt1, [])
         ∧ at_pc c n (GRetainSend c (retainPack (runner rt))) false rt1
         ∧ runner rt1 = runner rt.
Proof.
  intros [Hg Hc]. unfold exec_step. rewrite Hg, lookup_last_goroutine.
  eexists. split; [reflexivity|]. split; [|done].
  split; [apply insert_last_goroutine|done].
Qed.

Lemma step_send v rt :
  at_pc c n (GRetainSend c v) false rt → exec_step (Step n) rt = (rt, []).
Proof.
  intros [Hg Hc]. unfold exec_step. by rewrite Hg, lookup_last_goroutine.
Qed.

Lemma recv_send v rt :
  at_pc c n (GRetainSend c v) false rt →
  ∃ rt1, exec_step (Recv c) rt = (rt1, [Got v])
         ∧ at_pc c n (GRetainClear c) false rt1
         ∧ runner rt1 = runner rt.
Proof.
  intros [Hg Hc]. unfold exec_step. rewrite Hc, Hg. cbn [buf].
  rewrite find_sender_finished. cbn. rewrite Nat.eqb_refl.
  eexists. split; [reflexivity|]. split; [|done].
  split; [apply insert_last_goroutine|done].
Qed.

Lemma recv_waits g rt :
  at_pc c n g false rt → (∀ v, g ≠ GRetainSend c v) →
  exec_step (Recv c) rt = (rt, []).
Proof.
  intros [Hg Hc] Hns. unfold exec_step. rewrite Hc, Hg. cbn [buf closed].
  rewrite find_sender_finished. cbn.
  destruct g; try done.
  destruct (Nat.eqb_spec c c0) as [<-|]; [|done]. by destruct (Hns v).
Qed.

Lemma step_clear rt :
  at_pc c n (GRetainClear c) false rt →
  ∃ rt1, exec_step (Step n) rt = (rt1, [])
         ∧ at_pc c n (GRetainClose c) false rt1
         ∧ retainPack (runner rt1) = None.
Proof.
  intros [Hg Hc]. unfold exec_step. rewrite Hg, lookup_last_goroutine.
  eexists. split; [reflexivity|]. split; [|done].
  split; [apply insert_last_goroutine|done].
Qed.

Lemma step_close rt :
  at_pc c n (GRetainClose c) false rt →
  ∃ rt1, exec_step (Step n) rt = (rt1, [])
         ∧ at_pc c n GDone true rt1
         ∧ runner rt1 = runner rt.
Proof.
  intros [Hg Hc]. unfold exec_step. rewrite Hg, lookup_last_goroutine.
  eexists. split; [reflexivity|]. split; [|done].
  split; [apply insert_last_goroutine|].
  cbn. rewrite lookup_alter_eq, Hc. reflexivity.
Qed.

Lemma step_done rt i :
  at_pc c n GDone true rt → exec_step (Step i) rt = (rt, []).
Proof.
  intros [Hg Hc]. unfold exec_step. rewrite Hg.
  destruct (decide (i = n)) as [->|Hi].
  - by rewrite lookup_last_goroutine.
  - by destruct (lookup_other_goroutine GDone i Hi) as [-> | ->].
Qed.

Lemma recv_done rt :
  at_pc c n GDone true rt → exec_step (Recv c) rt = (rt, [GotClosed]).
Proof.
  intros [Hg Hc]. unfold exec_step. rewrite Hc, Hg. cbn [buf closed].
  by rewrite find_sender_finished.
Qed.

Lemma exec_cons a sched rt :
  exec (a :: sched) rt =
  let '(rt1, o1) := exec_step a rt in
  let '(rt2, o2) := exec sched rt1 in (rt2, o1 ++ o2).
Proof. reflexivity. Qed.

Lemma exec_silent a sched rt rt1 :
  exec_step a rt = (rt1, []) → exec (a :: sched) rt = exec sched rt1.
Proof. intros H. rewrite exec_cons, H. by destruct (exec sched rt1). Qed.

Lemma exec_heard a o sched rt rt1 rt2 obs :
  exec_step a rt = (rt1, [o]) → exec sched rt1 = (rt2, obs) →
  exec (a :: sched) rt = (rt2, o :: obs).
Proof. intros H1 H2. by rewrite exec_cons, H1, H2. Qed.

(** After the close: every receive reports the closed channel. *)
Lemma exec_done sched : ∀ rt,
  at_pc c n GDone true rt → retainPack (runner rt) = None → reads_only c sched →
  ∃ k rt', exec sched rt = (rt', replicate k GotClosed)
           ∧ retainPack (runner rt') = None.
Proof.
  induction sched as [|a sched IH]; intros rt Hat Hr Hs.
  - by exists 0%nat, rt.
  - apply Forall_cons_1 in Hs as [Ha Hs].
    destruct (IH rt Hat Hr Hs) as (k & rt' & Heq & Hr').
    destruct a as [i|c'].
    + rewrite (exec_silent _ _ _ _ (step_done _ i Hat)). by exists k, rt'.
    + subst c'. rewrite (exec_heard _ _ _ _ _ _ _ (recv_done _ Hat) Heq).
      by exists (S k), rt'.
Qed.

Lemma exec_close sched : ∀ rt,
  at_pc c n (GRetainClose c) false rt → retainPack (runner rt) = None →
  reads_only c sched →
  ∃ k rt', exec sched rt = (rt', replicate k GotClosed)
           ∧ retainPack (runner rt') = None.
Proof.
  induction sched as [|a sched IH]; intros rt Hat Hr Hs.
  - by exists 0%nat, rt.
  - apply Forall_cons_1 in Hs as [Ha Hs].
    destruct a as [i|c'].
    + destruct (decide (i = n)) as [->|Hi].
      * destruct (step_close _ Hat) as (rt1 & H1 & Hat1 & Hrun).
        rewrite (exec_silent _ _ _ _ H1).
        apply exec_done; [done| |done]. by rewrite Hrun.
      * rewrite (exec_silent _ _ _ _ (step_other _ _ _ _ Hat Hi)). by apply IH.
    + subst c'. rewrite (exec_silent _ sched _ _ (recv_waits _ _ Hat ltac:(done))).
      by apply IH.
Qed.

Lemma exec_clear sched : ∀ rt,
  at_pc c n (GRetainClear c) false rt → reads_only c sched →
  ∃ k rt', exec sched rt = (rt', replicate k GotClosed)
           ∧ (k ≠ 0%nat → retainPack (runner rt') = None).
Proof.
  induction sched as [|a sched IH]; intros rt Hat Hs.
  - by exists 0%nat, rt.
  - apply Forall_cons_1 in Hs as [Ha Hs].
    destruct a as [i|c'].
    + destruct (decide (i = n)) as [->|Hi].
      * destruct (step_clear _ Hat) as (rt1 & H1 & Hat1 & Hr1).
        rewrite (exec_silent _ _ _ _ H1).
        destruct (exec_close sched rt1 Hat1 Hr1 Hs) as (k & rt' & -> & Hr').
        by exists k, rt'.
      * rewrite (exec_silent _ _ _ _ (step_other _ _ _ _ Hat Hi)). by apply IH.
    + subst c'. rewrite (exec_silent _ sched _ _ (recv_waits _ _ Hat ltac:(done))).
      by apply IH.
Qed.

Lemma exec_send sched : ∀ rt,
  at_pc c n (GRetainSend c (Some p)) false rt → reads_only c sched →
  ∃ obs rt', exec sched rt = (rt', obs)
    ∧ (obs = [] ∨ ∃ k, obs = Got (Some p) :: replicate k GotClosed
                       ∧ (k ≠ 0%nat → retainPack (runner rt') = None)).
Proof.
  induction sched as [|a sched IH]; intros rt Hat Hs.
  - exists [], rt. split; [done|]. by left.
  - apply Forall_cons_1 in Hs as [Ha Hs].
    destruct a as [i|c'].
    + destruct (decide (i = n)) as [->|Hi].
      * rewrite (exec_silent _ _ _ _ (step_send _ _ Hat)). by apply IH.
      * rewrite (exec_silent _ _ _ _ (step_other _ _ _ _ Hat Hi)). by apply IH.
    + subst c'. destruct (recv_send _ _ Hat) as (rt1 & H1 & Hat1 & _).
      destruct (exec_clear sched rt1 Hat1 Hs) as (k & rt' & Heq & Hr').
      rewrite (exec_heard _ _ _ _ _ _ _ H1 Heq).
      exists (Got (Some p) :: replicate k GotClosed), rt'.
      split; [done|]. right. by exists k.
Qed.

Lemma exec_eval sched : ∀ rt,
  at_pc c n (GRetainEval c) false rt → retainPack (runner rt) = Some p →
  reads_only c sched →
  ∃ obs rt', exec sched rt = (rt', obs)
    ∧ (obs = [] ∨ ∃ k, obs = Got (Some p) :: replicate k GotClosed
                       ∧ (k ≠ 0%nat → retainPack (runner rt') = None)).
Proof.
  induction sched as [|a sched IH]; intros rt Hat Hr Hs.
  - exists [], rt. split; [done|]. by left.
  - apply Forall_cons_1 in Hs as [Ha Hs].
    destruct a as [i|c'].
    + destruct (decide (i = n)) as [->|Hi].
      * destruct (step_eval _ Hat) as (rt1 & H1 & Hat1 & Hrun).
        rewrite (exec_silent _ _ _ _ H1).
        rewrite Hr in Hat1. by apply exec_send.
      * rewrite (exec_silent _ _ _ _ (step_other _ _ _ _ Hat Hi)). by apply IH.
    + subst c'. rewrite (exec_silent _ sched _ _ (recv_waits _ _ Hat ltac:(done))).
      by apply IH.
Qed.

(** The schedule that lets the plugin read twice. *)
Lemma exec_read_twice rt :
  at_pc c n (GRetainEval c) false rt → retainPack (runner rt) = Some p →
  ∃ rt', exec [Step n; Recv c; Step n; Step n; Recv c] rt
         = (rt', [Got (Some p); GotClosed])
         ∧ retainPack (runner rt') = None.
Proof.
  intros Hat Hr.
  destruct (step_eval _ Hat) as (rt1 & H1 & Hat1 & _). rewrite Hr in Hat1.
  destruct (recv_send _ _ Hat1) as (rt2 & H2 & Hat2 & _).
  destruct (step_clear _ Hat2) as (rt3 & H3 & Hat3 & Hr3).
  destruct (step_close _ Hat3) as (rt4 & H4 & Hat4 & Hrun4).
  pose proof (recv_done _ Hat4) as H5.
  exists rt4. split; [|by rewrite Hrun4].
  rewrite (exec_silent _ _ _ _ H1).
  apply (exec_heard _ _ _ _ _ _ _ H2).
  rewrite (exec_silent _ _ _ _ H3), (exec_silent _ _ _ _ H4).
  by apply (exec_heard _ _ _ _ _ _ _ H5).
Qed.

End RetainFacts.

(** The quiet case of [RetainPack] and [InChan].  On a runner whose
    earlier [InChan] goroutines have all
    finished: after [RetainPack(p)], [InChan()] returns a channel it has
    just allocated.  Under every schedule of the goroutine it starts and
    of receives by the plugin, the plugin receives nothing, or [p] first
    and then only the report that the channel is closed; and once the
    plugin has seen the channel closed, the retained slot is nil.  There
    is a schedule under which the plugin reads [p], then reads the
    closure, and the slot is nil.  With nothing retained, [InChan()]
    returns the runner's own [inChan] and changes nothing. *)
Theorem RetainPack_then_InChan (rt : Runtime) (p : PipelinePack) :
  Forall (λ g, g = GDone) (gos rt) →
  (∃ c rt1,
     foRunner_InChan (foRunner_RetainPack (Some p) rt) = (c, rt1)
     ∧ (c ∉ dom (chans rt))
     ∧ (∀ sched, reads_only c sched →
          ∃ obs rt', exec sched rt1 = (rt', obs)
            ∧ (obs = [] ∨ ∃ k, obs = Got (Some p) :: replicate k GotClosed
                               ∧ (k ≠ 0%nat → retainPack (runner rt') = None)))
     ∧ (let n := length (gos rt) in
        ∃ rt', exec [Step n; Recv c; Step n; Step n; Recv c] rt1
               = (rt', [Got (Some p); GotClosed])
               ∧ retainPack (runner rt') = None))
  ∧ (∀ rt0, retainPack (runner rt0) = None →
            foRunner_InChan rt0 = (inChan (runner rt0), rt0)).
Proof.
  intros Hg. split.
  - unfold foRunner_InChan, foRunner_RetainPack.
    cbn [runner retainPack set_retainPack chans gos].
    set (c := fresh (dom (chans rt))). set (n := length (gos rt)).
    eexists c, _. split; [reflexivity|].
    assert (gos rt = replicate n GDone) as Hrep.
    { symmetry. apply replicate_as_Forall. split; [done|].
      eapply Forall_impl; [|exact Hg]. by intros g ->. }
    assert (at_pc c n (GRetainEval c) false
              (mkRuntime (set_retainPack (Some p) (runner rt))
                         (<[c:=mkChan [] false]> (chans rt))
                         (gos rt ++ [GRetainEval c]))) as Hat.
    { split; cbn; [by rewrite <- Hrep|]. apply lookup_insert_eq. }
    split_and!.
    + apply is_fresh.
    + intros sched Hs. by eapply exec_eval.
    + by eapply exec_read_twice.
  - intros rt0 H0. unfold foRunner_InChan. by rewrite H0.
Qed.

Lemma RetainPack_then_InChan_witness :
  ∃ c rt1,
    foRunner_InChan (foRunner_RetainPack (Some 7%nat) rt0) = (c, rt1)
    ∧ ∃ rt', exec [Step 1; Recv c; Step 1; Step 1; Recv c] rt1
             = (rt', [Got (Some 7%nat); GotClosed])
             ∧ retainPack (runner rt') = None.
Proof.
  destruct (proj1 (RetainPack_then_InChan rt0 7%nat
                     (Forall_cons _ _ _ eq_refl (Forall_nil _))))
    as (c & rt1 & Heq & _ & _ & H).
  exists c, rt1. by split.
Defined.

(** *** The supervisors *)

Lemma count_app f (tr1 tr2 : list Event) :
  count f (tr1 ++ tr2) = (count f tr1 + count f tr2)%nat.
Proof. unfold count. by rewrite List.filter_app, length_app. Qed.

Lemma count_attempts pw errs : count isCreate (attempts pw errs) = length errs.
Proof. induction errs as [|e errs IH]; [done|]. cbn. by rewrite <- IH. Qed.

Section SupervisorFacts.
Context {E : Type} `{!Host E}.

Lemma createLoop_S fuel pw (s : St E) :
  createLoop (S fuel) pw s =
  if Stopping (globals s) then (Some CLoopExit, s, [])
  else if (retries (rh s) <=? times (rh s))%Z
  then (Some CReturn, mkSt (ShutDown (globals s)) (base s) (rh s),
        [EvLogError "Max retries exceeded"; EvShutDown])
  else
    let h := mkRetryHelper (retries (rh s)) (times (rh s) + 1) in
    match CreateWithError pw (Sleep (globals s)) with
    | (inr err, g) =>
      let '(r, s', tr) := createLoop fuel pw (mkSt g (base s) h) in
      (r, s', EvWait :: EvCreateWithError pw :: EvLogError err :: tr)
    | (inl p, g) =>
      (Some CBreak, mkSt g (SetPlugin p (base s)) (mkRetryHelper (retries (rh s)) 0),
       [EvWait; EvCreateWithError pw])
    end.
Proof.
  cbn [createLoop].
  unfold bind, getStopping, rh_Wait, call_CreateWithError, LogError,
    globals_ShutDown, emit, ret, setPlugin, rh_Reset.
  destruct (Stopping (globals s)); [reflexivity|].
  destruct (retries (rh s) <=? times (rh s))%Z; [reflexivity|].
  cbn.
  destruct (CreateWithError pw (Sleep (globals s))) as [[p|err] g]; cbn; [reflexivity|].
  destruct (createLoop fuel pw _) as [[r s'] tr]. reflexivity.
Qed.

(** Shape of every run of the re-creation loop. *)
Lemma createLoop_shape fuel : ∀ pw (s : St E),
  (0 ≤ times (rh s) ≤ retries (rh s))%Z →
  ∃ errs tail r s',
    createLoop fuel pw s = (r, s', attempts pw errs ++ tail)
    ∧ retries (rh s') = retries (rh s)
    ∧ match r with
      | Some CBreak =>
        tail = [EvWait; EvCreateWithError pw]
        ∧ (Z.of_nat (length errs) + 1 ≤ retries (rh s) - times (rh s))%Z
        ∧ times (rh s') = 0%Z
      | Some CReturn =>
        tail = [EvLogError "Max retries exceeded"; EvShutDown]
        ∧ Z.of_nat (length errs) = (retries (rh s) - times (rh s))%Z
        ∧ Stopping (globals s') = true
      | Some CLoopExit =>
        tail = []
        ∧ (Z.of_nat (length errs) ≤ retries (rh s) - times (rh s))%Z
        ∧ Stopping (globals s') = true
      | None =>
        tail = [] ∧ length errs = fuel
        ∧ (Z.of_nat (length errs) ≤ retries (rh s) - times (rh s))%Z
      end.
Proof.
  induction fuel as [|fuel IH]; intros pw s Hb.
  - exists [], [], None, s. cbn. repeat split; lia.
  - rewrite createLoop_S.
    destruct (Stopping (globals s)) eqn:Hs.
    { exists [], [], (Some CLoopExit), s. cbn. repeat split; try done; lia. }
    destruct (retries (rh s) <=? times (rh s))%Z eqn:Hle.
    { apply Z.leb_le in Hle.
      exists [], [EvLogError "Max retries exceeded"; EvShutDown], (Some CReturn),
        (mkSt (ShutDown (globals s)) (base s) (rh s)).
      cbn. repeat split; try done; lia. }
    apply Z.leb_gt in Hle. cbn zeta.
    destruct (CreateWithError pw (Sleep (globals s))) as [[p|err] g].
    { exists [], [EvWait; EvCreateWithError pw], (Some CBreak),
        (mkSt g (SetPlugin p (base s)) (mkRetryHelper (retries (rh s)) 0)).
      cbn. repeat split; try done; lia. }
    destruct (IH pw (mkSt g (base s) (mkRetryHelper (retries (rh s)) (times (rh s) + 1))))
      as (errs & tail & r & s' & Heq & Hr & Hcase).
    { cbn. lia. }
    rewrite Heq. exists (err :: errs), tail, r, s'.
    cbn in Hr. split; [reflexivity|]. split; [exact Hr|].
    cbn in Hcase. cbn [length].
    destruct r as [[]|]; destruct Hcase as (? & ? & ?); repeat split; try done; lia.
Qed.





Ltac unfold_m :=
  unfold bind, ret, emit, getStopping, getPlugin, setPlugin, setRh, LogError,
    LogMessage, globals_ShutDown, call_Run.

Lemma iRunner_loop_stopping fuel pc (s : St E) :
  Stopping (globals s) = true →
  iRunner_loop (S fuel) pc s = (Some Returned, s, []).
Proof. intros Hs. cbn [iRunner_loop]. unfold_m. by rewrite Hs. Qed.

Lemma foRunner_loop_stopping fuel hm pc (s : St E) :
  Stopping (globals s) = true →
  foRunner_loop (S fuel) hm pc s = (Some Returned, s, []).
Proof. intros Hs. cbn [foRunner_loop]. unfold_m. by rewrite Hs. Qed.

(** One round of the input supervisor, up to the call of [restart]. *)
Lemma iRunner_loop_S fuel pc (s : St E) err g1 :
  Stopping (globals s) = false →
  isInput (plugin (base s)) = true →
  plugin_Run (plugin (base s)) (globals s) = (err, g1) →
  Stopping g1 = false →
  iRunner_loop (S fuel) pc s =
  let s1 := mkSt g1 (base s) (rh s) in
  let '(r, s2, tr) := restart fuel (inputWrappers pc !! name (base s)) s1 in
  match r with
  | None => (None, s2, EvRun (plugin (base s)) :: run_log err :: tr)
  | Some false => (Some Returned, s2, EvRun (plugin (base s)) :: run_log err :: tr)
  | Some true =>
    let '(r', s3, tr') := iRunner_loop fuel pc s2 in
    (r', s3, EvRun (plugin (base s)) :: run_log err :: tr ++ tr')
  end.
Proof.
  intros Hs Hin Hrun Hs1. cbn [iRunner_loop]. unfold_m.
  rewrite Hs. cbn -[restart]. rewrite Hin. cbn -[restart]. rewrite Hrun.
  destruct err; cbn -[restart]; rewrite Hs1; cbn -[restart];
    destruct (restart fuel _ _) as [[[[]|] s2] tr]; cbn;
    rewrite ?app_nil_r; try reflexivity;
    destruct (iRunner_loop fuel pc s2) as [[r' s3] tr']; reflexivity.
Qed.

Lemma iRunner_loop_S_stopped fuel pc (s : St E) err g1 :
  Stopping (globals s) = false →
  isInput (plugin (base s)) = true →
  plugin_Run (plugin (base s)) (globals s) = (err, g1) →
  Stopping g1 = true →
  iRunner_loop (S fuel) pc s =
  (Some Returned, mkSt g1 (base s) (rh s), [EvRun (plugin (base s)); run_log err]).
Proof.
  intros Hs Hin Hrun Hs1. cbn [iRunner_loop]. unfold_m.
  rewrite Hs. cbn -[restart]. rewrite Hin. cbn -[restart]. rewrite Hrun.
  destruct err; cbn; rewrite Hs1; reflexivity.
Qed.

Lemma foRunner_loop_S fuel hm pc (s : St E) err g1 :
  Stopping (globals s) = false →
  isFilter (plugin (base s)) || isOutput (plugin (base s)) = true →
  plugin_Run (plugin (base s)) (globals s) = (err, g1) →
  Stopping g1 = false →
  foRunner_loop (S fuel) hm pc s =
  let s1 := mkSt g1 (base s) (rh s) in
  let pre := matcher_start hm ++ [EvRun (plugin (base s)); run_log err] in
  match wrapper_of pc (plugin (base s)) (name (base s)) with
  | None => (Some Returned, s1, pre)
  | Some pw =>
    let '(r, s2, tr) := restart fuel (Some pw) s1 in
    match r with
    | None => (None, s2, pre ++ tr)
    | Some false => (Some Returned, s2, pre ++ tr)
    | Some true =>
      let '(r', s3, tr') := foRunner_loop fuel hm pc s2 in
      (r', s3, pre ++ tr ++ tr')
    end
  end.
Proof.
  intros Hs Hfo Hrun Hs1. cbn [foRunner_loop]. unfold_m. unfold wrapper_of.
  rewrite Hs.
  assert (negb (isFilter (plugin (base s))) && negb (isOutput (plugin (base s))) = false)
    as Hn by (destruct (isFilter _), (isOutput _); done).
  destruct hm; cbn -[restart]; rewrite Hn; cbn -[restart]; rewrite Hrun;
    destruct err; cbn -[restart]; rewrite Hs1; cbn -[restart];
    destruct (isFilter (plugin (base s))); cbn -[restart];
    match goal with |- context [?m !! ?k] => destruct (m !! k) as [pw|] end;
    cbn -[restart]; try reflexivity;
    destruct (restart fuel _ _) as [[[[]|] s2] tr]; cbn;
    rewrite ?app_nil_r; try reflexivity;
    destruct (foRunner_loop fuel _ pc s2) as [[r' s3] tr']; reflexivity.
Qed.

Lemma foRunner_loop_S_stopped fuel hm pc (s : St E) err g1 :
  Stopping (globals s) = false →
  isFilter (plugin (base s)) || isOutput (plugin (base s)) = true →
  plugin_Run (plugin (base s)) (globals s) = (err, g1) →
  Stopping g1 = true →
  foRunner_loop (S fuel) hm pc s =
  (Some Returned, mkSt g1 (base s) (rh s),
   matcher_start hm ++ [EvRun (plugin (base s)); run_log err]).
Proof.
  intros Hs Hfo Hrun Hs1. cbn [foRunner_loop]. unfold_m.
  rewrite Hs.
  assert (negb (isFilter (plugin (base s))) && negb (isOutput (plugin (base s))) = false)
    as Hn by (destruct (isFilter _), (isOutput _); done).
  destruct hm; cbn; rewrite Hn; cbn; rewrite Hrun;
    destruct err; cbn; rewrite Hs1; reflexivity.
Qed.

Lemma restart_not_restarting fuel pw (s : St E) :
  isRestarting (plugin (base s)) = false →
  restart fuel pw s =
  (Some false, mkSt (ShutDown (globals s)) (base s) (rh s),
   [EvLogMessage "has stopped, shutting down."; EvShutDown]).
Proof.
  intros Hre. unfold restart. unfold_m. rewrite Hre. reflexivity.
Qed.

Lemma iRunner_Starter_eq fuel pc (s : St E) h :
  NewRetryHelper (Retries (pluginGlobals (base s))) = inl h →
  iRunner_Starter fuel pc s =
  let '(r, s', tr) := iRunner_loop fuel pc (mkSt (globals s) (base s) h) in
  (r, s', tr ++ [EvWgDone]).
Proof.
  intros Hh. unfold iRunner_Starter. unfold_m. rewrite Hh. cbn.
  destruct (iRunner_loop fuel pc _) as [[r s'] tr]. cbn.
  rewrite ?app_nil_r. reflexivity.
Qed.

Lemma foRunner_Starter_eq fuel hm pc (s : St E) h :
  NewRetryHelper (Retries (pluginGlobals (base s))) = inl h →
  foRunner_Starter fuel hm pc s =
  let '(r, s', tr) := foRunner_loop fuel hm pc (mkSt (globals s) (base s) h) in
  (r, s', tr ++ [EvWgDone]).
Proof.
  intros Hh. unfold foRunner_Starter. unfold_m. rewrite Hh. cbn.
  destruct (foRunner_loop fuel hm pc _) as [[r s'] tr]. cbn.
  rewrite ?app_nil_r. reflexivity.
Qed.


(** Whatever the wrapper and the rest of the process do, one run of the
    re-creation loop that starts with a fresh or reset retry helper
    calls the wrapper at most [retries] times. *)
Lemma createLoop_attempts_bounded fuel pw (s : St E) :
  times (rh s) = 0%Z → (0 ≤ retries (rh s))%Z →
  (Z.of_nat (count isCreate (createLoop fuel pw s).2) ≤ retries (rh s))%Z.
Proof.
  intros Ht Hr.
  destruct (createLoop_shape fuel pw s) as (errs & tail & r & s' & -> & _ & Hcase);
    [lia|].
  cbn [snd]. rewrite count_app, count_attempts. rewrite Ht in Hcase.
  destruct r as [[]|]; destruct Hcase as (-> & Hlen & Hlen'); unfold count; cbn; lia.
Qed.

End SupervisorFacts.


(** C4.  A plugin that is not [Restarting], whose first [Run] returns an
    error: [Starter] returns with [Stopping] set, after one [Run], without
    [CleanupForRestart] and without any call of the wrapper; it calls
    [ShutDown] unless the pipeline was stopping already when [Run]
    returned.  This holds for the input runner, and for the filter/output
    runner when the plugin's name has a wrapper. *)
Theorem Starter_not_restartable_shuts_down {E : Type} `{!Host E}
        (fuel : nat) (hm : bool) (pc : PipelineConfig) (s : St E)
        (h : RetryHelper) (e : Error) (g1 : GlobalConfigStruct E) :
  let p := plugin (base s) in
  NewRetryHelper (Retries (pluginGlobals (base s))) = inl h →
  Stopping (globals s) = false →
  isRestarting p = false →
  plugin_Run p (globals s) = (Some e, g1) →
  (isInput p = true →
   ∃ s' tr,
     iRunner_Starter (S fuel) pc s = (Some Returned, s', tr)
     ∧ tr = [EvRun p; EvLogError e] ++ closing g1 ++ [EvWgDone]
     ∧ Stopping (globals s') = true
     ∧ count isRun tr = 1 ∧ count isCreate tr = 0 ∧ count isCleanup tr = 0)
  ∧ (isFilter p || isOutput p = true →
     is_Some (wrapper_of pc p (name (base s))) →
     ∃ s' tr,
       foRunner_Starter (S fuel) hm pc s = (Some Returned, s', tr)
       ∧ tr = matcher_start hm ++ [EvRun p; EvLogError e] ++ closing g1 ++ [EvWgDone]
       ∧ Stopping (globals s') = true
       ∧ count isRun tr = 1 ∧ count isCreate tr = 0 ∧ count isCleanup tr = 0).
Proof.
  intros p Hh Hs Hre Hrun. split.
  - intros Hin. rewrite (iRunner_Starter_eq _ _ _ _ Hh).
    destruct (Stopping g1) eqn:Hs1.
    + rewrite (iRunner_loop_S_stopped fuel pc _ (Some e) g1); try done.
      eexists _, _. split; [reflexivity|]. unfold closing. rewrite Hs1.
      cbn. by split_and!.
    + rewrite (iRunner_loop_S fuel pc _ (Some e) g1); try done. cbn zeta.
      rewrite restart_not_restarting by done.
      eexists _, _. split; [reflexivity|]. unfold closing. rewrite Hs1.
      cbn. by split_and!.
  - intros Hfo [pw Hpw]. rewrite (foRunner_Starter_eq _ _ _ _ _ Hh).
    destruct (Stopping g1) eqn:Hs1.
    + rewrite (foRunner_loop_S_stopped fuel hm pc _ (Some e) g1); try done.
      eexists _, _. split; [reflexivity|]. unfold closing. rewrite Hs1.
      destruct hm; cbn; by split_and!.
    + rewrite (foRunner_loop_S fuel hm pc _ (Some e) g1); try done. cbn zeta.
      cbn [base]. fold p. rewrite Hpw.
      rewrite restart_not_restarting by done.
      eexists _, _. split; [reflexivity|]. unfold closing. rewrite Hs1.
      destruct hm; cbn; by split_and!.
Qed.

(** C9.  A filter/output runner whose name has no wrapper in the map of
    its kind: when [Run] returns, with or without an error and whether or
    not the plugin is [Restarting], [Starter] returns after that one
    [Run]: no [CleanupForRestart], no call of a wrapper, no [ShutDown];
    the globals are as [Run] left them. *)
Theorem foRunner_Starter_no_wrapper {E : Type} `{!Host E}
        (fuel : nat) (hm : bool) (pc : PipelineConfig) (s : St E)
        (h : RetryHelper) (err : option Error) (g1 : GlobalConfigStruct E) :
  let p := plugin (base s) in
  NewRetryHelper (Retries (pluginGlobals (base s))) = inl h →
  Stopping (globals s) = false →
  isFilter p || isOutput p = true →
  wrapper_of pc p (name (base s)) = None →
  plugin_Run p (globals s) = (err, g1) →
  ∃ s' tr,
    foRunner_Starter (S fuel) hm pc s = (Some Returned, s', tr)
    ∧ tr = matcher_start hm ++ [EvRun p; run_log err; EvWgDone]
    ∧ globals s' = g1
    ∧ base s' = base s
    ∧ count isRun tr = 1
    ∧ count isCleanup tr = 0
    ∧ count isCreate tr = 0
    ∧ count isShutDown tr = 0.
Proof.
  intros p Hh Hs Hfo Hpw Hrun.
  rewrite (foRunner_Starter_eq _ _ _ _ _ Hh).
  destruct (Stopping g1) eqn:Hs1.
  - rewrite (foRunner_loop_S_stopped fuel hm pc _ err g1); try done.
    eexists _, _. split; [reflexivity|].
    destruct hm, err; cbn; by split_and!.
  - rewrite (foRunner_loop_S fuel hm pc _ err g1); try done. cbn zeta.
    cbn [base]. fold p. rewrite Hpw.
    eexists _, _. split; [reflexivity|].
    destruct hm, err; cbn; by split_and!.
Qed.

Lemma Starter_not_restartable_shuts_down_witness :
  ∃ s' tr,
    @iRunner_Starter unit FailHost 1 pc0 (st0 "stopping" (an_input false))
    = (Some Returned, s', tr)
    ∧ tr = [EvRun (an_input false); EvLogError "run failed";
            EvLogMessage "has stopped, shutting down."; EvShutDown; EvWgDone]
    ∧ Stopping (globals s') = true
    ∧ count isRun tr = 1 ∧ count isCreate tr = 0 ∧ count isCleanup tr = 0.
Proof.
  apply (proj1 (@Starter_not_restartable_shuts_down unit FailHost 0 false pc0
                  (st0 "stopping" (an_input false))
                  (mkRetryHelper 1 0) "run failed" (mkGlobals false tt)
                  eq_refl eq_refl eq_refl eq_refl)).
  reflexivity.
Defined.

Lemma foRunner_Starter_no_wrapper_witness :
  ∃ s' tr,
    @foRunner_Starter unit FailHost 1 true pc0 (st0 "unregistered" (an_output true))
    = (Some Returned, s', tr)
    ∧ tr = [EvMatcherStart; EvRun (an_output true); EvLogError "run failed"; EvWgDone]
    ∧ globals s' = mkGlobals false tt
    ∧ base s' = base (st0 "unregistered" (an_output true))
    ∧ count isRun tr = 1 ∧ count isCleanup tr = 0
    ∧ count isCreate tr = 0 ∧ count isShutDown tr = 0.
Proof.
  apply (@foRunner_Starter_no_wrapper unit FailHost 0 true pc0
           (st0 "unregistered" (an_output true))
           (mkRetryHelper 1 0) (Some "run failed") (mkGlobals false tt)
           eq_refl eq_refl eq_refl).
  - reflexivity.
  - reflexivity.
Defined.


(** *** The sandbox decoder *)

Lemma fill_headers_filled (orig m : Message) :
  filled_from orig m (fill_headers orig m).
Proof.
  destruct m as [[u|] [t|] [ty|] [lo|] [se|] pl ev [pi|] [ho|] fs];
    repeat split; reflexivity.
Qed.

Lemma filled_from_same_getters (o1 o2 m out : Message) :
  GetUuid o1 = GetUuid o2 → GetTimestamp o1 = GetTimestamp o2 →
  GetType o1 = GetType o2 → GetHostname o1 = GetHostname o2 →
  GetLogger o1 = GetLogger o2 → GetSeverity o1 = GetSeverity o2 →
  GetPid o1 = GetPid o2 →
  filled_from o1 m out → filled_from o2 m out.
Proof.
  unfold filled_from. intros -> -> -> -> -> -> ->. done.
Qed.

(** The copy [copyMessageHeaders] makes has the header values of its
    source. *)
Lemma copyMessageHeaders_getters (src : Message) :
  ∃ o, copyMessageHeaders (Some zero) (Some src) = Some o
       ∧ GetUuid o = GetUuid src ∧ GetTimestamp o = GetTimestamp src
       ∧ GetType o = GetType src ∧ GetHostname o = GetHostname src
       ∧ GetLogger o = GetLogger src ∧ GetSeverity o = GetSeverity src
       ∧ GetPid o = GetPid src.
Proof.
  destruct src as [[[|b u]|] [t|] [ty|] [lo|] [se|] pl ev [pi|] [ho|] fs];
    eexists; (split; [reflexivity|]); repeat split; reflexivity.
Qed.

Lemma same_headers_refl m : same_headers m m.
Proof. by repeat split. Qed.

Lemma filled_from_same (o1 o2 m out : Message) :
  same_headers o1 o2 → filled_from o1 m out → filled_from o2 m out.
Proof.
  intros (? & ? & ? & ? & ? & ? & ?). by apply filled_from_same_getters.
Qed.

Section AdapterFacts.
Context `{!Protobuf}.

Lemma inject_finish_msgs p w :
  msgs (inject_finish p w) p
  = match deref w (original w) with
    | Some orig => fill_headers orig (msgs w p)
    | None => msgs w p
    end.
Proof.
  unfold inject_finish. destruct (deref w (original w)); cbn; [|done].
  apply fn_lookup_insert.
Qed.

Lemma inject_finish_pack p w : pack (dec (inject_finish p w)) = None.
Proof. unfold inject_finish. by destruct (deref w (original w)). Qed.

(** The first injection of a call, binary path, decodable payload. *)
Lemma inject_first_binary (w : World) (input : PipelinePack) b n m2 :
  pack (dec w) = Some input →
  Unmarshal b = (true, m2) →
  ∃ w', inject_callback (mkCall b "" n) w = Done (0%Z, w')
        ∧ filled_from (msgs w input) m2 (msgs w' input)
        ∧ packs (dec w') = append_pack (packs (dec w)) input
        ∧ pack (dec w') = None.
Proof.
  intros Hp Hu. unfold inject_callback. rewrite Hp.
  cbn -[copyMessageHeaders inject_finish].
  destruct (copyMessageHeaders_getters (msgs w input))
    as (o & Ho & H1 & H2 & H3 & H4 & H5 & H6 & H7).
  rewrite Ho, Hu. eexists. split; [reflexivity|].
  rewrite inject_finish_msgs, inject_finish_pack. cbn.
  rewrite fn_lookup_insert. split; [|by split].
  eapply filled_from_same_getters; [..|apply fill_headers_filled]; done.
Qed.

(** C6 (what the code does where the claim fails).  When the script's
    first injection is a binary payload that fails to decode, the callback
    returns 1 and keeps the input pack as [s.pack]; the next injection
    then drops the headers it had saved and saves them again from the
    message the failed decode has reset.  So the headers the second
    payload leaves unset are filled from what the failed decode left
    ([m1]), not from the original input message: the outgoing [Type]
    differs from the original one as soon as [m1]'s does. *)
Theorem inject_after_failed_decode (w : World) (input : PipelinePack)
        (b1 b2 n1 n2 : string) (m1 m2 : Message) :
  pack (dec w) = Some input →
  Unmarshal b1 = (false, m1) →
  Unmarshal b2 = (true, m2) →
  ∃ w1 w2,
    inject_callback (mkCall b1 "" n1) w = Done (1%Z, w1)
    ∧ inject_callback (mkCall b2 "" n2) w1 = Done (0%Z, w2)
    ∧ packs (dec w2) = append_pack (packs (dec w)) input
    ∧ filled_from m1 m2 (msgs w2 input)
    ∧ (Type_ m2 = None → GetType m1 ≠ GetType (msgs w input) →
       GetType (msgs w2 input) ≠ GetType (msgs w input)).
Proof.
  intros Hp Hu1 Hu2.
  assert (∃ w1, inject_callback (mkCall b1 "" n1) w = Done (1%Z, w1)
                ∧ pack (dec w1) = Some input ∧ msgs w1 input = m1
                ∧ packs (dec w1) = packs (dec w)) as (w1 & H1 & Hp1 & Hm1 & Hps1).
  { unfold inject_callback. rewrite Hp. cbn -[copyMessageHeaders inject_finish].
    destruct (copyMessageHeaders_getters (msgs w input)) as (o & Ho & _).
    rewrite Ho, Hu1. eexists. split; [reflexivity|]. cbn.
    split_and!; try done. apply fn_lookup_insert. }
  destruct (inject_first_binary w1 input b2 n2 m2 Hp1 Hu2)
    as (w2 & H2 & Hf & Hps2 & _).
  exists w1, w2. rewrite Hm1 in Hf. split_and!; try done.
  - by rewrite Hps2, Hps1.
  - intros Hty Hne. destruct Hf as (_ & _ & -> & _). by rewrite Hty.
Qed.

Lemma ProcessMessage_app cs c w :
  ProcessMessage (cs ++ [c]) w
  = match ProcessMessage cs w with
    | Done w' =>
      match inject_callback c w' with
      | Done (_, w'') => Done w''
      | Panic => Panic
      | Blocked => Blocked
      end
    | Panic => Panic
    | Blocked => Blocked
    end.
Proof.
  revert w. induction cs as [|c0 cs IH]; intros w; cbn.
  - by destruct (inject_callback c w) as [[r w']| |].
  - destruct (inject_callback c0 w) as [[r w']| |]; [apply IH|done|done].
Qed.

(** A payload injection cannot fail, and it leaves [s.pack] nil. *)
Lemma inject_payload_pack c w r w' :
  payload_type c ≠ EmptyString →
  inject_callback c w = Done (r, w') → r = 0%Z ∧ pack (dec w') = None.
Proof.
  intros Hty. unfold inject_callback.
  apply String.eqb_neq in Hty. rewrite Hty.
  destruct (pack (dec w)) as [p|].
  - intros [= <- <-]. split; [done|]. apply inject_finish_pack.
  - destruct (NewPack w) as [[p w1]|]; [|done].
    cbn -[inject_finish].
    destruct (original w1), (packs (dec w1)) as [[|? ?]|];
      intros [= <- <-]; (split; [done|]); apply inject_finish_pack.
Qed.

(** C7 (what the code does where the claim fails).  When the script's
    last call to the inject callback is a payload injection and the script
    then returns a negative value, [Decode] does not return: the callback
    has set [s.pack] to nil and [Decode] reads [s.pack.Message] to build
    its error.  With that single injection the outcome is a panic, before
    anything is recycled. *)
Theorem Decode_negative_after_inject (pack_ : PipelinePack) (run : ScriptRun)
        (w : World) (cs : list InjectCall) (c : InjectCall) :
  sb (dec w) = true →
  (retval run < 0)%Z →
  calls run = cs ++ [c] →
  payload_type c ≠ EmptyString →
  (∀ r, (SandboxDecoder_Decode pack_ run w).1 ≠ Done r)
  ∧ (cs = [] → SandboxDecoder_Decode pack_ run w = (Panic, [])).
Proof.
  intros Hsb Hneg Hcalls Hty.
  assert ((0 <? retval run)%Z = false) as Hpos by lia.
  assert ((retval run <? 0)%Z = true) as Hlt by lia.
  unfold SandboxDecoder_Decode. rewrite Hsb, Hcalls. cbn [negb].
  fold (entered pack_ w). rewrite ProcessMessage_app.
  split.
  - intros r.
    destruct (ProcessMessage cs (entered pack_ w)) as [w1| |]; [|done|done].
    destruct (inject_callback c w1) as [[r0 w2]| |] eqn:Hc; [|done|done].
    destruct (inject_payload_pack _ _ _ _ Hty Hc) as [_ Hp].
    rewrite Hpos, Hlt. cbn. by rewrite Hp.
  - intros ->. cbn [ProcessMessage].
    destruct (inject_callback c (entered pack_ w)) as [[r0 w2]| |] eqn:Hc.
    + destruct (inject_payload_pack _ _ _ _ Hty Hc) as [_ Hp].
      rewrite Hpos, Hlt. cbn. by rewrite Hp.
    + exfalso. revert Hc. unfold inject_callback. cbn.
      apply String.eqb_neq in Hty. by rewrite Hty.
    + exfalso. revert Hc. unfold inject_callback. cbn.
      apply String.eqb_neq in Hty. by rewrite Hty.
Qed.

(** What [Decode] does when the script leaves [s.pack] set. *)
Lemma Decode_negative_recycles pack_ run w w1 p :
  sb (dec w) = true →
  (retval run < 0)%Z →
  ProcessMessage (calls run) (entered pack_ w) = Done w1 →
  pack (dec w1) = Some p →
  ∃ w',
    SandboxDecoder_Decode pack_ run w
    = (Done (None, Some (String.append "Failed parsing: " (GetPayload (msgs w1 p))), w'),
       match packs (dec w1) with
       | Some (_ :: tl) => map EvRecycle tl
       | _ => []
       end)
    ∧ packs (dec w') = None.
Proof.
  intros Hsb Hneg Hpm Hp.
  assert ((0 <? retval run)%Z = false) as Hpos by lia.
  assert ((retval run <? 0)%Z = true) as Hlt by lia.
  unfold SandboxDecoder_Decode. rewrite Hsb. cbn [negb].
  fold (entered pack_ w). rewrite Hpm, Hpos, Hlt. cbn. rewrite Hp. cbn.
  eexists. split; reflexivity.
Qed.

Lemma Decode_positive pack_ run w w1 :
  sb (dec w) = true →
  (0 < retval run)%Z →
  ProcessMessage (calls run) (entered pack_ w) = Done w1 →
  ∃ w',
    SandboxDecoder_Decode pack_ run w
    = (Done (packs (dec w1), Some (String.append "FATAL: " (LastError run)), w'),
       [EvLogError (String.append "FATAL: " (LastError run)); EvShutDown])
    ∧ globalsStopping w' = true.
Proof.
  intros Hsb Hgt Hpm.
  assert ((0 <? retval run)%Z = true) as Hpos by lia.
  assert ((retval run <? 0)%Z = false) as Hlt by lia.
  unfold SandboxDecoder_Decode. rewrite Hsb. cbn [negb].
  fold (entered pack_ w). rewrite Hpm, Hpos, Hlt. cbn.
  eexists. split; reflexivity.
Qed.

Lemma Decode_zero pack_ run w w1 :
  sb (dec w) = true →
  retval run = 0%Z →
  ProcessMessage (calls run) (entered pack_ w) = Done w1 →
  ∃ w',
    SandboxDecoder_Decode pack_ run w
    = (Done (packs (dec w1), err (dec w1), w'), [])
    ∧ packs (dec w') = None.
Proof.
  intros Hsb Hz Hpm.
  unfold SandboxDecoder_Decode. rewrite Hsb. cbn [negb].
  fold (entered pack_ w). rewrite Hpm, Hz. cbn.
  eexists. split; reflexivity.
Qed.

(** The first injection of a call. *)
Lemma inject_first (w : World) (input : PipelinePack) (c : InjectCall) :
  pack (dec w) = Some input →
  packs (dec w) = None →
  decodable c →
  ∃ w', inject_callback c w = Done (0%Z, w')
        ∧ between (msgs w input) input w'
        ∧ packs (dec w') = Some [input]
        ∧ inputRecycleChan w' = inputRecycleChan w
        ∧ (∀ q, q ≠ input → msgs w' q = msgs w q)
        ∧ (payload_type c = EmptyString →
           filled_from (msgs w input) (injected c) (msgs w' input)).
Proof.
  intros Hp Hps Hd. unfold inject_callback, injected, decodable in *.
  rewrite Hp. cbn -[copyMessageHeaders inject_finish].
  destruct (String.eqb_spec (payload_type c) EmptyString) as [Hty|Hty].
  - specialize (Hd Hty).
    destruct (copyMessageHeaders_getters (msgs w input))
      as (o & Ho & H1 & H2 & H3 & H4 & H5 & H6 & H7).
    rewrite Ho. destruct (Unmarshal (payload c)) as [ok m2]. cbn in Hd. subst ok.
    eexists. split; [reflexivity|].
    assert (same_headers o (msgs w input)) as Hsame. { repeat split; assumption. }
    unfold between. rewrite inject_finish_msgs, inject_finish_pack.
    unfold inject_finish. cbn. rewrite Hps, fn_lookup_insert. cbn.
    split_and!; try done.
    + by eexists.
    + intros q Hq. by rewrite !fn_lookup_insert_ne by congruence.
    + intros _. eapply filled_from_same; [exact Hsame|apply fill_headers_filled].
  - eexists. split; [reflexivity|].
    unfold between, inject_finish. cbn. rewrite Hps, fn_lookup_insert. cbn.
    split_and!; try done.
    + by eexists.
    + intros q Hq. by rewrite !fn_lookup_insert_ne by congruence.
Qed.

(** A later injection of the same call. *)
Lemma inject_later (m0 : Message) (w : World) (input : PipelinePack)
      (c : InjectCall) (p : PipelinePack) (rest : list PipelinePack) :
  between m0 input w →
  inputRecycleChan w = p :: rest →
  p ≠ input →
  decodable c →
  ∃ w', inject_callback c w = Done (0%Z, w')
        ∧ between m0 input w'
        ∧ (∃ ps, packs (dec w) = Some ps ∧ packs (dec w') = Some (ps ++ [p]))
        ∧ inputRecycleChan w' = rest
        ∧ (∀ q, q ≠ p → msgs w' q = msgs w q)
        ∧ filled_from m0 (injected c) (msgs w' p).
Proof.
  intros (Hp & (ps & Hps) & Ho) Hpool Hne Hd.
  unfold inject_callback, injected, decodable, NewPack in *.
  rewrite Hp, Hpool. cbn -[copyMessageHeaders inject_finish]. rewrite Hps.
  assert (∀ (f : MessageStore) m m', (<[p:=m]> (<[p:=m']> f)) input = f input) as Hin.
  { intros f m m'. by rewrite !fn_lookup_insert_ne. }
  assert (∃ ok m2, Unmarshal (payload c) = (ok, m2)
                   ∧ (payload_type c = EmptyString → ok = true))
    as (ok & m2 & Hu & Hok).
  { destruct (Unmarshal (payload c)) as [ok m2]. by exists ok, m2. }
  rewrite Hu. cbn [snd].
  destruct (String.eqb_spec (payload_type c) EmptyString) as [Hty|Hty];
    [rewrite (Hok Hty)|];
    (destruct (original w) as [|o|p0]; [| |destruct Ho as [-> Ho]]);
    cbn -[inject_finish];
    (eexists; split; [reflexivity|]);
    unfold between; rewrite inject_finish_msgs, inject_finish_pack;
    unfold inject_finish; cbn; rewrite ?fn_lookup_insert, ?Hin, Hps; cbn;
    split_and!; try done;
    first
      [ by eexists
      | by (intros q Hq; rewrite !fn_lookup_insert_ne by congruence)
      | by (rewrite ?fn_lookup_insert_ne by congruence;
            first [exact Ho | split; [done|exact Ho]])
      | by (eapply filled_from_same; [|apply fill_headers_filled];
            rewrite ?fn_lookup_insert_ne by congruence; exact Ho) ].
Qed.

(** The injections that follow the first one. *)
Lemma later_calls (m0 : Message) (input : PipelinePack) (cs : list InjectCall) :
  ∀ (w : World) (pool : list PipelinePack),
    between m0 input w →
    inputRecycleChan w = pool →
    NoDup pool → input ∉ pool →
    Forall decodable cs →
    (length cs ≤ length pool)%nat →
    ∃ w', ProcessMessage cs w = Done w'
          ∧ between m0 input w'
          ∧ inputRecycleChan w' = drop (length cs) pool
          ∧ (∃ ps, packs (dec w) = Some ps
                   ∧ packs (dec w') = Some (ps ++ take (length cs) pool))
          ∧ (∀ q, q ∉ take (length cs) pool → msgs w' q = msgs w q)
          ∧ (∀ i c p, cs !! i = Some c → pool !! i = Some p →
                      filled_from m0 (injected c) (msgs w' p)).
Proof.
  induction cs as [|c cs IH]; intros w pool Hb Hpool Hnd Hin Hdec Hlen.
  - exists w. pose proof Hb as (Hp & (ps & Hps) & Ho). split_and!; try done.
    exists (input :: ps). cbn [length]. by rewrite take_0, app_nil_r.
  - destruct pool as [|p rest]; [cbn in Hlen; lia|].
    pose proof (NoDup_cons_1_1 _ _ Hnd) as Hp_rest.
    apply NoDup_cons_1_2 in Hnd.
    apply not_elem_of_cons in Hin as [Hne Hin].
    apply Forall_cons_1 in Hdec as [Hc Hdec].
    destruct (inject_later m0 w input c p rest Hb Hpool ltac:(congruence) Hc)
      as (w1 & H1 & Hb1 & (ps & Hps & Hps1) & Hpool1 & Hm1 & Hf1).
    destruct (IH w1 rest Hb1 Hpool1 Hnd Hin Hdec ltac:(cbn in Hlen; lia))
      as (w' & H' & Hb' & Hpool' & (ps' & Hps' & Hps'') & Hm' & Hf').
    exists w'. cbn [ProcessMessage]. rewrite H1.
    split_and!; try done.
    + exists ps. split; [done|]. rewrite Hps'' . rewrite Hps1 in Hps'.
      injection Hps' as <-. cbn. by rewrite <- app_assoc.
    + intros q Hq. cbn in Hq. apply not_elem_of_cons in Hq as [Hqp Hq].
      rewrite (Hm' q Hq). by apply Hm1.
    + intros [|i] c' p' Hc' Hp'; cbn in Hc', Hp'.
      * injection Hc' as <-. injection Hp' as <-.
        rewrite Hm'; [done|]. intros Hin'. apply Hp_rest.
        by eapply subseteq_take.
      * by eapply Hf'.
Qed.

(** On a run in which no injection fails to decode, and with a pool of
    distinct free packs that does not hold the input pack: every
    injection after the first, and the first one when its payload is
    binary, yields a pack whose standard headers are those the script
    set and, for the others, those of the original input message. *)
Theorem injections_fill_from_original (w : World) (input : PipelinePack)
        (cs : list InjectCall) :
  packs (dec w) = None →
  Forall decodable cs →
  NoDup (inputRecycleChan w) →
  input ∉ inputRecycleChan w →
  (length cs ≤ S (length (inputRecycleChan w)))%nat →
  ∃ w', ProcessMessage cs (entered input w) = Done w'
        ∧ (cs ≠ [] →
           pack (dec w') = None
           ∧ packs (dec w')
             = Some (input :: take (length cs - 1) (inputRecycleChan w)))
        ∧ (∀ i c p,
             cs !! i = Some c →
             (input :: inputRecycleChan w) !! i = Some p →
             i ≠ 0%nat ∨ payload_type c = EmptyString →
             filled_from (msgs w input) (injected c) (msgs w' p)).
Proof.
  intros Hps Hdec Hnd Hin Hlen.
  destruct cs as [|c cs].
  { exists (entered input w). by split_and!. }
  apply Forall_cons_1 in Hdec as [Hc Hdec].
  destruct (inject_first (entered input w) input c eq_refl Hps Hc)
    as (w1 & H1 & Hb1 & Hps1 & Hpool1 & Hm1 & Hf1).
  change (msgs (entered input w)) with (msgs w) in *.
  change (inputRecycleChan (entered input w)) with (inputRecycleChan w) in *.
  destruct (later_calls (msgs w input) input cs w1 (inputRecycleChan w)
              Hb1 Hpool1 Hnd Hin Hdec ltac:(cbn in Hlen; lia))
    as (w' & H' & Hb' & Hpool' & (ps' & Hps' & Hps'') & Hm' & Hf').
  exists w'. cbn [ProcessMessage]. rewrite H1. split_and!; try done.
  - intros _. split; [apply Hb'|]. rewrite Hps''. rewrite Hps1 in Hps'.
    injection Hps' as <-. cbn. by rewrite Nat.sub_0_r.
  - intros [|i] c' p' Hc' Hp' Hi; cbn in Hc', Hp'.
    + injection Hc' as <-. injection Hp' as <-.
      destruct Hi as [?|Hty]; [done|].
      rewrite Hm'; [by apply Hf1|].
      intros Hin'. apply Hin. by eapply subseteq_take.
    + by eapply Hf'.
Qed.

End AdapterFacts.

Lemma Decode_negative_after_inject_witness :
  @SandboxDecoder_Decode ToyProtobuf 0%nat
    (mkRun [mkCall "summary" "txt" "s"] (-1) "none" 0 1) world0 = (Panic, []).
Proof.
  apply (proj2 (@Decode_negative_after_inject ToyProtobuf 0%nat
                  (mkRun [mkCall "summary" "txt" "s"] (-1) "none" 0 1) world0
                  [] (mkCall "summary" "txt" "s")
                  eq_refl eq_refl eq_refl ltac:(discriminate))).
  reflexivity.
Defined.

Lemma inject_after_failed_decode_witness :
  ∃ w1 w2,
    @inject_callback ToyProtobuf (mkCall "garbage" EmptyString "a") (entered 0%nat world0)
    = Done (1%Z, w1)
    ∧ @inject_callback ToyProtobuf (mkCall "ok" EmptyString "b") w1 = Done (0%Z, w2)
    ∧ packs (dec w2) = Some [0%nat]
    ∧ GetType (msgs w2 0%nat) = EmptyString
    ∧ GetType input_message = "T".
Proof.
  destruct (@inject_after_failed_decode ToyProtobuf (entered 0%nat world0) 0%nat
              "garbage" "ok" "a" "b" zero (SetPayload "decoded" zero)
              eq_refl eq_refl eq_refl)
    as (w1 & w2 & H1 & H2 & Hps & Hf & _).
  exists w1, w2. split_and!; try done.
  by destruct Hf as (_ & _ & -> & _).
Defined.

(** *** The outputs *)

Lemma pack_events_app tr1 tr2 :
  pack_events (tr1 ++ tr2) = pack_events tr1 ++ pack_events tr2.
Proof. apply List.filter_app. Qed.

Section OutputFacts.
Context `{!Encoders}.
Import file.

Lemma handleMessage_panic o now m outBytes :
  handleMessage o now m outBytes = Panic →
  format o = "text" ∧ Payload m = None.
Proof.
  unfold handleMessage.
  destruct (String.eqb (format o) "json") eqn:Hj.
  { by destruct (json_Marshal m). }
  destruct (String.eqb_spec (format o) "text") as [Ht|Ht].
  { by destruct (Payload m). }
  destruct (String.eqb (format o) "protobufstream"); [|done].
  by destruct (ProtobufEncodeMessage m _) as [out [e|]].
Qed.

Lemma handleMessage_not_blocked o now m outBytes :
  handleMessage o now m outBytes ≠ Blocked.
Proof.
  unfold handleMessage.
  destruct (String.eqb (format o) "json").
  { by destruct (json_Marshal m). }
  destruct (String.eqb (format o) "text").
  { by destruct (Payload m). }
  destruct (String.eqb (format o) "protobufstream"); [|done].
  by destruct (ProtobufEncodeMessage m _) as [out [e|]].
Qed.

(** The body for one pack: one recycle when [handleMessage] returns,
    with or without an error; none when it panics. *)
Lemma receive_pack_events o (msgs : MessageStore) p now outBatch outBytes :
  match receive_pack o msgs p now outBatch outBytes with
  | (Done _, evs) => pack_events evs = [ORecycle p]
  | (Panic, evs) => evs = [] ∧ format o = "text" ∧ Payload (msgs p) = None
  | (Blocked, _) => False
  end.
Proof.
  unfold receive_pack.
  destruct (handleMessage o now (msgs p) outBytes) as [[[e|] out]| |] eqn:Hh;
    try done.
  - split; [done|]. by eapply handleMessage_panic.
  - by eapply handleMessage_not_blocked.
Qed.

Lemma receiver_discipline o (msgs : MessageStore) sel : ∀ outBatch,
  match receiver o msgs sel outBatch with
  | (Panic, tr) =>
    ∃ done_ p rest,
      taken sel = done_ ++ p :: rest
      ∧ pack_events tr = take_recycle done_ ++ [OTake p]
      ∧ format o = "text" ∧ Payload (msgs p) = None
  | (_, tr) => pack_events tr = take_recycle (taken sel)
  end.
Proof.
  induction sel as [|[p now| |] sel IH]; intros outBatch; cbn [receiver taken].
  - done.
  - pose proof (receive_pack_events o msgs p now outBatch []) as Hp.
    destruct (receive_pack o msgs p now outBatch []) as [[outBatch'| |] evs];
      [|destruct Hp as (-> & Hf & Hpl)|done].
    + specialize (IH outBatch').
      destruct (receiver o msgs sel outBatch') as [[[]| |] tr].
      * change (OTake p :: evs ++ tr) with ([OTake p] ++ evs ++ tr).
        rewrite !pack_events_app, Hp, IH. reflexivity.
      * destruct IH as (done_ & q & rest & Ht & Hev & Hf & Hpl).
        exists (p :: done_), q, rest. rewrite Ht.
        change (OTake p :: evs ++ tr) with ([OTake p] ++ evs ++ tr).
        rewrite !pack_events_app, Hp, Hev. by split_and!.
      * change (OTake p :: evs ++ tr) with ([OTake p] ++ evs ++ tr).
        rewrite !pack_events_app, Hp, IH. reflexivity.
    + exists [], p, (taken sel). by split_and!.
  - rewrite pack_events_app. by destruct (0 <? length outBatch)%nat.
  - destruct (0 <? length outBatch)%nat.
    + specialize (IH []).
      destruct (receiver o msgs sel []) as [[[]| |] tr]; try done.
    + apply IH.
Qed.

End OutputFacts.

Section SmtpFacts.
Import smtp.
Context {T : Type} `{!Transport T} `{!Encoders}.

Lemma Run_pack_events conf subject msg p (t : T) :
  pack_events (Run_pack conf subject msg p t).2 = [ORecycle p].
Proof.
  unfold Run_pack.
  destruct (PayloadOnly conf).
  - destruct (sendFunction t conf _) as [[e|] t']; reflexivity.
  - destruct (json_Marshal msg) as [contents|e].
    + destruct (sendFunction t conf _) as [[e|] t']; reflexivity.
    + reflexivity.
Qed.

Lemma Run_loop_discipline conf subject (msgs : MessageStore) queue : ∀ (t : T) err,
  pack_events (Run_loop conf subject msgs queue t err).2 = take_recycle queue.
Proof.
  induction queue as [|p queue IH]; intros t err; [done|].
  cbn [Run_loop].
  pose proof (Run_pack_events conf subject (msgs p) p t) as Hp.
  destruct (Run_pack conf subject (msgs p) p t) as [[err1 t1] ev].
  specialize (IH t1 err1).
  destruct (Run_loop conf subject msgs queue t1 err1) as [[r t2] tr].
  cbn [snd] in *. change (OTake p :: ev ++ tr) with ([OTake p] ++ ev ++ tr).
  rewrite !pack_events_app, Hp, IH. reflexivity.
Qed.

End SmtpFacts.

(** The recycle discipline of the two output loops, over all their
    runs.  In [SmtpOutput.Run], the takes and recycles of the trace are,
    for each pack of the queue in turn, the take followed by one recycle of
    that pack - whether the mail was sent, the transport failed or the
    message could not be marshaled.  In [FileOutput.receiver] the same
    holds for the packs taken before [inChan] is closed, whether
    [handleMessage] succeeds or returns an error.  The one other way out
    of the receiver is a panic of [handleMessage] (text format, message
    without payload): the goroutine dies with that pack taken and not
    recycled, every earlier pack recycled once. *)
Theorem output_loops_recycle_once :
  (∀ (T : Type) (tr_ : smtp.Transport T) (enc : Encoders)
     (conf : smtp.SmtpOutputConfig) (subject : string) (msgs : MessageStore)
     (queue : list PipelinePack) (t : T),
      pack_events (smtp.SmtpOutput_Run conf subject msgs queue t).2
      = take_recycle queue)
  ∧ (∀ (enc : Encoders) (o : file.FileOutput) (msgs : MessageStore)
       (sel : list file.Select) (outBatch : list byte),
        match file.receiver o msgs sel outBatch with
        | (Panic, tr) =>
          ∃ done_ p rest,
            file.taken sel = done_ ++ p :: rest
            ∧ pack_events tr = take_recycle done_ ++ [OTake p]
            ∧ file.format o = "text" ∧ Payload (msgs p) = None
        | (_, tr) => pack_events tr = take_recycle (file.taken sel)
        end).
Proof.
  split.
  - intros. apply Run_loop_discipline.
  - intros. apply receiver_discipline.
Qed.

(** C10.  With the json format [handleMessage] returns a nil error for
    every message.  When [json.Marshal] fails, the output bytes hold only
    what was there before plus the timestamp prefix (if configured); when
    it succeeds they hold the JSON and a newline as well.  The receiver
    therefore never logs: it appends the bytes to the batch and recycles
    the pack. *)
Theorem handleMessage_json_returns_nil (enc : Encoders) (o : file.FileOutput)
        (now : string) (m : Message) (outBytes : list byte) :
  file.format o = "json" →
  let prefix := if file.prefix_ts o then String.list_byte_of_string now else [] in
  ∃ out,
    file.handleMessage o now m outBytes = Done (None, out)
    ∧ (∀ e, json_Marshal m = inr e → out = outBytes ++ prefix)
    ∧ (∀ js, json_Marshal m = inl js → out = (outBytes ++ prefix) ++ js ++ [NEWLINE])
    ∧ (∀ (msgs : MessageStore) p outBatch,
         msgs p = m →
         file.receive_pack o msgs p now outBatch outBytes
         = (Done (outBatch ++ out), [ORecycle p])).
Proof.
  intros Hf prefix.
  assert (file.handleMessage o now m outBytes
          = Done (None, match json_Marshal m with
                        | inl js => (outBytes ++ prefix) ++ js ++ [NEWLINE]
                        | inr _ => outBytes ++ prefix
                        end)) as Hh.
  { unfold file.handleMessage. rewrite Hf. cbn.
    assert ((if file.prefix_ts o && true
             then outBytes ++ String.list_byte_of_string now else outBytes)
            = outBytes ++ prefix) as ->.
    { subst prefix. destruct (file.prefix_ts o); cbn; [done|by rewrite app_nil_r]. }
    by destruct (json_Marshal m). }
  eexists. split; [exact Hh|]. split_and!.
  - intros e He. by rewrite He.
  - intros js Hj. by rewrite Hj.
  - intros msgs p outBatch <-. unfold file.receive_pack. by rewrite Hh.
Qed.

Lemma handleMessage_json_returns_nil_witness :
  ∃ out,
    @file.handleMessage FailingEncoders json_output "[ts] " input_message []
    = Done (None, out)
    ∧ out = String.list_byte_of_string "[ts] ".
Proof.
  destruct (handleMessage_json_returns_nil FailingEncoders json_output "[ts] "
              input_message [] eq_refl) as (out & Hh & He & _).
  exists out. split; [exact Hh|]. by apply (He "unsupported value").
Defined.

(** *** The supervisors: invariants of every run *)

Section SupervisorInvariants.
Context {E : Type} `{!Host E}.

Lemma restart_unfold fuel pw (s : St E) :
  restart fuel pw s =
  let p := plugin (base s) in
  if isRestarting p then
    let s1 := mkSt (CleanupForRestart p (globals s)) (base s) (rh s) in
    let '(c, s2, tr) := createLoop fuel pw s1 in
    match c with
    | None => (None, s2, EvCleanupForRestart p :: tr)
    | Some CReturn => (Some false, s2, EvCleanupForRestart p :: tr)
    | Some _ =>
      (Some true, s2, EvCleanupForRestart p :: tr ++ [EvLogMessage "exited, now restarting."])
    end
  else
    (Some false, mkSt (ShutDown (globals s)) (base s) (rh s),
     [EvLogMessage "has stopped, shutting down."; EvShutDown]).
Proof.
  unfold restart, bind, getPlugin, call_CleanupForRestart, LogMessage,
    globals_ShutDown, emit, ret. cbn zeta.
  destruct (isRestarting (plugin (base s))); [|reflexivity].
  destruct (createLoop fuel pw _) as [[[[]|] s2] tr]; cbn;
    rewrite ?app_nil_r; reflexivity.
Qed.

Lemma iRunner_loop_unfold fuel pc (s : St E) :
  iRunner_loop (S fuel) pc s =
  let p := plugin (base s) in
  if Stopping (globals s) then (Some Returned, s, [])
  else if negb (isInput p) then (Some Panicked, s, [])
  else
    let '(err, g1) := plugin_Run p (globals s) in
    let s1 := mkSt g1 (base s) (rh s) in
    if Stopping g1 then (Some Returned, s1, [EvRun p; run_log err])
    else
      let '(r, s2, tr) := restart fuel (inputWrappers pc !! name (base s)) s1 in
      match r with
      | None => (None, s2, EvRun p :: run_log err :: tr)
      | Some false => (Some Returned, s2, EvRun p :: run_log err :: tr)
      | Some true =>
        let '(r', s3, tr') := iRunner_loop fuel pc s2 in
        (r', s3, EvRun p :: run_log err :: tr ++ tr')
      end.
Proof.
  cbn zeta.
  destruct (Stopping (globals s)) eqn:Hs.
  { by apply iRunner_loop_stopping. }
  destruct (isInput (plugin (base s))) eqn:Hin; cbn [negb].
  2:{ cbn [iRunner_loop]. unfold bind, ret, getStopping, getPlugin.
      by rewrite Hs, Hin. }
  destruct (plugin_Run (plugin (base s)) (globals s)) as [err g1] eqn:Hrun.
  destruct (Stopping g1) eqn:Hs1.
  - by apply iRunner_loop_S_stopped.
  - by rewrite (iRunner_loop_S fuel pc s err g1).
Qed.

Lemma foRunner_loop_unfold fuel hm pc (s : St E) :
  foRunner_loop (S fuel) hm pc s =
  let p := plugin (base s) in
  if Stopping (globals s) then (Some Returned, s, [])
  else if negb (isFilter p) && negb (isOutput p) then
    (Some Returned, s,
     matcher_start hm ++ [EvLogError "Unable to assert this is an Output or Filter"])
  else
    let '(err, g1) := plugin_Run p (globals s) in
    let s1 := mkSt g1 (base s) (rh s) in
    let pre := matcher_start hm ++ [EvRun p; run_log err] in
    if Stopping g1 then (Some Returned, s1, pre)
    else
      match wrapper_of pc p (name (base s)) with
      | None => (Some Returned, s1, pre)
      | Some pw =>
        let '(r, s2, tr) := restart fuel (Some pw) s1 in
        match r with
        | None => (None, s2, pre ++ tr)
        | Some false => (Some Returned, s2, pre ++ tr)
        | Some true =>
          let '(r', s3, tr') := foRunner_loop fuel hm pc s2 in
          (r', s3, pre ++ tr ++ tr')
        end
      end.
Proof.
  cbn zeta.
  destruct (Stopping (globals s)) eqn:Hs.
  { by apply foRunner_loop_stopping. }
  destruct (negb (isFilter (plugin (base s))) && negb (isOutput (plugin (base s))))
    eqn:Hn.
  { cbn [foRunner_loop]. unfold bind, ret, getStopping, getPlugin, LogError, emit.
    rewrite Hs. destruct hm; cbn; by rewrite Hn. }
  assert (isFilter (plugin (base s)) || isOutput (plugin (base s)) = true) as Hfo.
  { destruct (isFilter _), (isOutput _); done. }
  destruct (plugin_Run (plugin (base s)) (globals s)) as [err g1] eqn:Hrun.
  destruct (Stopping g1) eqn:Hs1.
  - by apply foRunner_loop_S_stopped.
  - by rewrite (foRunner_loop_S fuel hm pc s err g1).
Qed.

(** However the re-creation loop hands control back without a new
    plugin, the pipeline is stopping. *)
Lemma createLoop_exit_stopping fuel : ∀ pw (s s' : St E) c tr,
  createLoop fuel pw s = (Some c, s', tr) → c ≠ CBreak →
  Stopping (globals s') = true.
Proof.
  induction fuel as [|fuel IH]; intros pw s s' c tr; [done|].
  rewrite createLoop_S.
  destruct (Stopping (globals s)) eqn:Hs; [by intros [= <- <- _]|].
  destruct (retries (rh s) <=? times (rh s))%Z; [by intros [= <- <- _]|]. cbn zeta.
  destruct (CreateWithError pw (Sleep (globals s))) as [[p|err] g].
  - by intros [= <- _ _].
  - specialize (IH pw (mkSt g (base s) (mkRetryHelper (retries (rh s)) (times (rh s) + 1)))).
    destruct (createLoop fuel pw _) as [[r s1] tr1].
    intros [= -> -> _]. by eapply IH.
Qed.

Lemma createLoop_events fuel : ∀ pw (s : St E),
  Forall createLoop_may (createLoop fuel pw s).2.
Proof.
  induction fuel as [|fuel IH]; intros pw s; [by constructor|].
  rewrite createLoop_S.
  destruct (Stopping (globals s)); [by constructor|].
  destruct (retries (rh s) <=? times (rh s))%Z; [by repeat constructor|]. cbn zeta.
  destruct (CreateWithError pw (Sleep (globals s))) as [[p|err] g];
    [by repeat constructor|].
  specialize (IH pw (mkSt g (base s) (mkRetryHelper (retries (rh s)) (times (rh s) + 1)))).
  destruct (createLoop fuel pw _) as [[r s1] tr1]. by repeat constructor.
Qed.

(** The loop changes the runner's plugin only; its name and globals stay. *)
Lemma createLoop_name fuel : ∀ pw (s : St E),
  name (base (createLoop fuel pw s).1.2) = name (base s)
  ∧ pluginGlobals (base (createLoop fuel pw s).1.2) = pluginGlobals (base s).
Proof.
  induction fuel as [|fuel IH]; intros pw s; [done|].
  rewrite createLoop_S.
  destruct (Stopping (globals s)); [done|].
  destruct (retries (rh s) <=? times (rh s))%Z; [done|]. cbn zeta.
  destruct (CreateWithError pw (Sleep (globals s))) as [[p|err] g]; [done|].
  specialize (IH pw (mkSt g (base s) (mkRetryHelper (retries (rh s)) (times (rh s) + 1)))).
  destruct (createLoop fuel pw _) as [[r s1] tr1]. exact IH.
Qed.

Lemma restart_false_stopping fuel pw (s s' : St E) tr :
  restart fuel pw s = (Some false, s', tr) → Stopping (globals s') = true.
Proof.
  rewrite restart_unfold. cbn zeta.
  destruct (isRestarting (plugin (base s))); [|by intros [= <- _]].
  destruct (createLoop fuel pw _) as [[[c|] s2] tr2] eqn:Hc; [|done].
  destruct c; intros [= <- _]; by eapply createLoop_exit_stopping.
Qed.

Lemma restart_events fuel pw (s : St E) (may : Event → Prop) :
  (∀ e, createLoop_may e → may e) →
  may (EvCleanupForRestart (plugin (base s))) ∨ isRestarting (plugin (base s)) = false →
  Forall may (restart fuel pw s).2.
Proof.
  intros Hsub Hcl. rewrite restart_unfold. cbn zeta.
  destruct (isRestarting (plugin (base s))) eqn:Hre.
  - destruct Hcl as [Hcl|?]; [|done].
    pose proof (createLoop_events fuel pw
      (mkSt (CleanupForRestart (plugin (base s)) (globals s)) (base s) (rh s))) as Hev.
    destruct (createLoop fuel pw _) as [[[[]|] s2] tr2]; cbn [snd] in *;
      constructor; try done; try (eapply Forall_impl; [|exact Hev]; done).
    all: apply Forall_app; split; [eapply Forall_impl; [|exact Hev]; done|].
    all: constructor; [apply Hsub; exact I|constructor].
  - repeat constructor; apply Hsub; exact I.
Qed.


Lemma iRunner_loop_returned fuel pc : ∀ (s s' : St E) tr,
  iRunner_loop fuel pc s = (Some Returned, s', tr) → Stopping (globals s') = true.
Proof.
  induction fuel as [|fuel IH]; intros s s' tr; [done|].
  rewrite iRunner_loop_unfold. cbn zeta.
  destruct (Stopping (globals s)) eqn:Hs; [by intros [= <- _]|].
  destruct (negb (isInput (plugin (base s)))); [done|].
  destruct (plugin_Run (plugin (base s)) (globals s)) as [err g1].
  destruct (Stopping g1) eqn:Hs1; [by intros [= <- _]|].
  destruct (restart fuel _ _) as [[[[]|] s2] tr2] eqn:Hr; [| |done].
  - specialize (IH s2). destruct (iRunner_loop fuel pc s2) as [[r' s3] tr'].
    intros [= -> -> _]. by eapply IH.
  - intros [= <- _]. by eapply restart_false_stopping.
Qed.

Lemma restart_name fuel pw (s : St E) :
  name (base (restart fuel pw s).1.2) = name (base s).
Proof.
  rewrite restart_unfold. cbn zeta.
  destruct (isRestarting (plugin (base s))); [|done].
  pose proof (createLoop_name fuel pw
    (mkSt (CleanupForRestart (plugin (base s)) (globals s)) (base s) (rh s))) as [Hn _].
  by destruct (createLoop fuel pw _) as [[[[]|] s2] tr2].
Qed.

Lemma foRunner_loop_returned fuel hm pc : ∀ (s s' : St E) tr,
  foRunner_loop fuel hm pc s = (Some Returned, s', tr) →
  Stopping (globals s') = true
  ∨ isFilter (plugin (base s')) || isOutput (plugin (base s')) = false
  ∨ wrapper_of pc (plugin (base s')) (name (base s')) = None.
Proof.
  induction fuel as [|fuel IH]; intros s s' tr; [done|].
  rewrite foRunner_loop_unfold. cbn zeta.
  destruct (Stopping (globals s)) eqn:Hs; [intros [= <- _]; by left|].
  destruct (negb (isFilter (plugin (base s))) && negb (isOutput (plugin (base s))))
    eqn:Hn.
  { intros [= <- _]. right; left.
    by destruct (isFilter (plugin (base s))), (isOutput (plugin (base s))). }
  destruct (plugin_Run (plugin (base s)) (globals s)) as [err g1].
  destruct (Stopping g1) eqn:Hs1; [intros [= <- _]; by left|].
  destruct (wrapper_of pc (plugin (base s)) (name (base s))) as [pw|] eqn:Hw.
  2:{ intros [= <- _]. by right; right. }
  destruct (restart fuel _ _) as [[[[]|] s2] tr2] eqn:Hr; [| |done].
  - specialize (IH s2). destruct (foRunner_loop fuel hm pc s2) as [[r' s3] tr'].
    intros [= -> -> _]. by eapply IH.
  - intros [= <- _]. left. by eapply restart_false_stopping.
Qed.

Lemma iRunner_loop_events fuel pc : ∀ (s : St E),
  Forall iRunner_may (iRunner_loop fuel pc s).2.
Proof.
  induction fuel as [|fuel IH]; intros s; [by constructor|].
  rewrite iRunner_loop_unfold. cbn zeta.
  destruct (Stopping (globals s)) eqn:Hs; [by constructor|].
  destruct (isInput (plugin (base s))) eqn:Hin; cbn [negb]; [|by constructor].
  destruct (plugin_Run (plugin (base s)) (globals s)) as [err g1].
  assert (iRunner_may (run_log err)) as Hlog by by destruct err.
  destruct (Stopping g1) eqn:Hs1; [by repeat constructor|].
  pose proof (restart_events fuel (inputWrappers pc !! name (base s))
    (mkSt g1 (base s) (rh s)) iRunner_may) as Hev.
  destruct (restart fuel _ _) as [[r s2] tr2]. cbn [snd] in Hev.
  assert (Forall iRunner_may tr2) as Htr2.
  { apply Hev; [by intros []|]. cbn.
    destruct (isRestarting (plugin (base s))); [by left|by right]. }
  destruct r as [[]|]; [|by repeat constructor..].
  specialize (IH s2). destruct (iRunner_loop fuel pc s2) as [[r' s3] tr'].
  cbn [snd] in *. repeat constructor; try done. by apply Forall_app.
Qed.

Lemma foRunner_loop_events fuel hm pc : ∀ (s : St E),
  Forall foRunner_may (foRunner_loop fuel hm pc s).2.
Proof.
  induction fuel as [|fuel IH]; intros s; [by constructor|].
  rewrite foRunner_loop_unfold. cbn zeta.
  assert (Forall foRunner_may (matcher_start hm)) as Hm.
  { destruct hm; by repeat constructor. }
  destruct (Stopping (globals s)) eqn:Hs; [by constructor|].
  destruct (negb (isFilter (plugin (base s))) && negb (isOutput (plugin (base s))))
    eqn:Hn.
  { cbn [snd]. apply Forall_app; split; [done|by repeat constructor]. }
  assert (isFilter (plugin (base s)) || isOutput (plugin (base s)) = true) as Hfo.
  { by destruct (isFilter (plugin (base s))), (isOutput (plugin (base s))). }
  destruct (plugin_Run (plugin (base s)) (globals s)) as [err g1].
  assert (foRunner_may (run_log err)) as Hlog by by destruct err.
  assert (Forall foRunner_may
            (matcher_start hm ++ [EvRun (plugin (base s)); run_log err])) as Hpre.
  { apply Forall_app; split; [done|by repeat constructor]. }
  destruct (Stopping g1) eqn:Hs1; [done|].
  destruct (wrapper_of pc (plugin (base s)) (name (base s))) as [pw|]; [|done].
  pose proof (restart_events fuel (Some pw)
    (mkSt g1 (base s) (rh s)) foRunner_may) as Hev.
  destruct (restart fuel _ _) as [[r s2] tr2]. cbn [snd] in Hev.
  assert (Forall foRunner_may tr2) as Htr2.
  { apply Hev; [by intros []|]. cbn.
    destruct (isRestarting (plugin (base s))); [by left|by right]. }
  destruct r as [[]|]; cbn [snd]; [|by apply Forall_app..].
  specialize (IH s2). destruct (foRunner_loop fuel hm pc s2) as [[r' s3] tr'].
  cbn [snd] in *. apply Forall_app; split; [done|]. by apply Forall_app.
Qed.

End SupervisorInvariants.

Section SupervisorProperties.
Context {E : Type} `{!Host E}.

(** X1.  [iRunner.Starter] returns only once the pipeline is stopping:
    whatever the plugin, the wrapper and the other goroutines do, when
    the goroutine returns [globals.Stopping] is set - by someone else,
    or by the [ShutDown] the Starter called itself. *)
Theorem iRunner_Starter_returns_stopping fuel pc (s : St E) :
  (iRunner_Starter fuel pc s).1.1 = Some Returned →
  Stopping (globals (iRunner_Starter fuel pc s).1.2) = true.
Proof.
  destruct (NewRetryHelper (Retries (pluginGlobals (base s)))) as [h|err] eqn:Hh.
  - rewrite (iRunner_Starter_eq fuel pc s h Hh).
    destruct (iRunner_loop fuel pc _) as [[r s'] tr] eqn:Hl. cbn.
    intros ->. by eapply iRunner_loop_returned.
  - intros _. unfold iRunner_Starter, bind, LogError, globals_ShutDown, emit, ret.
    by rewrite Hh.
Qed.

(** X2.  [foRunner.Starter] returns for one of three reasons only: the
    pipeline is stopping, the plugin is neither a [Filter] nor an
    [Output], or no wrapper is registered under the runner's name. *)
Theorem foRunner_Starter_returns_why fuel hm pc (s : St E) :
  (foRunner_Starter fuel hm pc s).1.1 = Some Returned →
  let s' := (foRunner_Starter fuel hm pc s).1.2 in
  Stopping (globals s') = true
  ∨ isFilter (plugin (base s')) || isOutput (plugin (base s')) = false
  ∨ wrapper_of pc (plugin (base s')) (name (base s')) = None.
Proof.
  destruct (NewRetryHelper (Retries (pluginGlobals (base s)))) as [h|err] eqn:Hh.
  - rewrite (foRunner_Starter_eq fuel hm pc s h Hh).
    destruct (foRunner_loop fuel hm pc _) as [[r s'] tr] eqn:Hl. cbn.
    intros ->. by eapply foRunner_loop_returned.
  - intros _. unfold foRunner_Starter, bind, LogError, globals_ShutDown, emit, ret.
    rewrite Hh. by left.
Qed.

(** X3.  The trace of [iRunner.Starter], on every path and for every
    host: [wg.Done()] exactly once, as the last thing it does; before
    it, [Run] only on a plugin that is an [Input], [CleanupForRestart]
    only on a plugin that is [Restarting], and no pack recycled or sent
    and no matcher started. *)
Theorem iRunner_Starter_discipline fuel pc (s : St E) :
  ∃ tr0, (iRunner_Starter fuel pc s).2 = tr0 ++ [EvWgDone]
         ∧ Forall iRunner_may tr0.
Proof.
  destruct (NewRetryHelper (Retries (pluginGlobals (base s)))) as [h|err] eqn:Hh.
  - rewrite (iRunner_Starter_eq fuel pc s h Hh).
    pose proof (iRunner_loop_events fuel pc (mkSt (globals s) (base s) h)) as Hev.
    destruct (iRunner_loop fuel pc _) as [[r s'] tr]. by exists tr.
  - exists [EvLogError err; EvShutDown]. split; [|by repeat constructor].
    unfold iRunner_Starter, bind, LogError, globals_ShutDown, emit, ret.
    by rewrite Hh.
Qed.

(** X4.  The same for [foRunner.Starter]: [wg.Done()] once and last;
    [Run] only on a [Filter] or an [Output], [CleanupForRestart] only on
    a [Restarting] plugin, no pack recycled or sent. *)
Theorem foRunner_Starter_discipline fuel hm pc (s : St E) :
  ∃ tr0, (foRunner_Starter fuel hm pc s).2 = tr0 ++ [EvWgDone]
         ∧ Forall foRunner_may tr0.
Proof.
  destruct (NewRetryHelper (Retries (pluginGlobals (base s)))) as [h|err] eqn:Hh.
  - rewrite (foRunner_Starter_eq fuel hm pc s h Hh).
    pose proof (foRunner_loop_events fuel hm pc (mkSt (globals s) (base s) h)) as Hev.
    destruct (foRunner_loop fuel hm pc _) as [[r s'] tr]. by exists tr.
  - exists [EvLogError err; EvShutDown]. split; [|by repeat constructor].
    unfold foRunner_Starter, bind, LogError, globals_ShutDown, emit, ret.
    by rewrite Hh.
Qed.

(** X5.  A runner whose plugin has the wrong role.  [foRunner.Starter]
    with a plugin that is neither [Filter] nor [Output] starts the
    matcher, logs, and returns without calling [ShutDown]: the globals
    are untouched.  [iRunner.Starter] with a plugin that is not an
    [Input] panics in [ir.Input()] before any [Run]. *)
Theorem Starter_wrong_role fuel hm pc (s : St E) h :
  NewRetryHelper (Retries (pluginGlobals (base s))) = inl h →
  Stopping (globals s) = false →
  (isFilter (plugin (base s)) = false → isOutput (plugin (base s)) = false →
   foRunner_Starter (S fuel) hm pc s
   = (Some Returned, mkSt (globals s) (base s) h,
      matcher_start hm
      ++ [EvLogError "Unable to assert this is an Output or Filter"; EvWgDone]))
  ∧ (isInput (plugin (base s)) = false →
     iRunner_Starter (S fuel) pc s
     = (Some Panicked, mkSt (globals s) (base s) h, [EvWgDone])).
Proof.
  intros Hh Hs. split.
  - intros Hf Ho. rewrite (foRunner_Starter_eq _ hm pc s h Hh).
    rewrite foRunner_loop_unfold. cbn. rewrite Hs, Hf, Ho. cbn.
    by rewrite <- app_assoc.
  - intros Hi. rewrite (iRunner_Starter_eq _ pc s h Hh).
    rewrite iRunner_loop_unfold. cbn. by rewrite Hs, Hi.
Qed.


End SupervisorProperties.

Lemma iRunner_Starter_returns_stopping_witness :
  Stopping (globals (@iRunner_Starter nat StoppingHost 5 pc0
    (mkSt (mkGlobals false 0%nat) (mkBase "stopping" (an_input true) retry1 0)
          (mkRetryHelper 0 0))).1.2) = true.
Proof.
  apply (@iRunner_Starter_returns_stopping nat StoppingHost 5 pc0).
  vm_compute. reflexivity.
Defined.

Lemma foRunner_Starter_returns_why_witness :
  let s' := (@foRunner_Starter unit FailHost 5 true pc0
               (st0 "stoppingOutput" (an_output true))).1.2 in
  Stopping (globals s') = true
  ∨ isFilter (plugin (base s')) || isOutput (plugin (base s')) = false
  ∨ wrapper_of pc0 (plugin (base s')) (name (base s')) = None.
Proof.
  apply (@foRunner_Starter_returns_why unit FailHost 5 true pc0).
  vm_compute. reflexivity.
Defined.

Lemma Starter_wrong_role_witness :
  @foRunner_Starter unit FailHost 1 true pc0 (st0 "x" (an_input false))
  = (Some Returned,
     mkSt (mkGlobals false tt) (mkBase "x" (an_input false) retry1 0)
          (mkRetryHelper 1 0),
     [EvMatcherStart; EvLogError "Unable to assert this is an Output or Filter";
      EvWgDone])
  ∧ @iRunner_Starter unit FailHost 1 pc0 (st0 "x" (an_output false))
    = (Some Panicked,
       mkSt (mkGlobals false tt) (mkBase "x" (an_output false) retry1 0)
            (mkRetryHelper 1 0),
       [EvWgDone]).
Proof.
  split.
  - apply (proj1 (@Starter_wrong_role unit FailHost 0 true pc0
                    (st0 "x" (an_input false)) (mkRetryHelper 1 0)
                    eq_refl eq_refl)); reflexivity.
  - apply (proj2 (@Starter_wrong_role unit FailHost 0 true pc0
                    (st0 "x" (an_output false)) (mkRetryHelper 1 0)
                    eq_refl eq_refl)); reflexivity.
Defined.


(** *** dRunner.Start and the retained pack: what else can happen *)

Section DecoderRunnerProperties.
Context {D : Type} `{!Decoder D}.



Lemma drain_events : ∀ queue (d : D), Forall dRunner_may (drain d queue).2.
Proof.
  induction queue as [|pack rest IH]; intros d; cbn [drain]; [by constructor|].
  destruct (Decode d pack) as [[[packs err] d']| |]; [|by constructor..].
  specialize (IH d'). destruct (drain d' rest) as [r evs]. cbn [snd] in *.
  apply Forall_app; split; [|done].
  destruct packs as [ps|]; cbn.
  - induction ps as [|p ps IHps]; by constructor.
  - destruct err; by repeat constructor.
Qed.


(** X8.  The goroutine of [dRunner.Start] reaches its [wg.Done()]
    exactly when no [Decode] panicked or blocked: then the decoder's
    [Shutdown] hook has run, and the trace ends with the log line
    "stopped" and one [wg.Done()].  Otherwise the goroutine is gone and
    the wait group is never released.  In both cases all it did before
    was send, recycle and log. *)
Theorem dRunner_Start_wg_Done (d : D) queue :
  match dRunner_Start d queue with
  | (Done d', tr) =>
    ∃ d2 tr0,
      drain (if SetDecoderRunner is Some f then f d else d) queue = (Done d2, tr0)
      ∧ d' = (if Shutdown is Some f then f d2 else d2)
      ∧ tr = tr0 ++ [EvLogMessage "stopped"; EvWgDone]
      ∧ Forall dRunner_may tr0
  | (_, tr) => Forall dRunner_may tr
  end.
Proof.
  unfold dRunner_Start.
  pose proof (drain_events queue (if SetDecoderRunner is Some f then f d else d)) as Hev.
  destruct (drain _ queue) as [[d2| |] tr0]; cbn [snd] in *; [|done..].
  by exists d2, tr0.
Qed.

End DecoderRunnerProperties.

(** X9.  A retained pack can be lost.  The plugin retains [p], calls
    [InChan()] and receives [p] from the channel; the goroutine of
    [InChan] now stands before [foRunner.retainPack = nil].  If the
    plugin retains another pack [q] at this point, the goroutine's next
    step clears the slot: [q] is gone, and the next [InChan()] returns
    the ordinary input channel. *)
Theorem RetainPack_lost_to_pending_clear (rt : Runtime) (p q : PipelinePack) :
  Forall (λ g, g = GDone) (gos rt) →
  let n := length (gos rt) in
  ∃ c rt1 rt2 rt3,
    foRunner_InChan (foRunner_RetainPack (Some p) rt) = (c, rt1)
    ∧ exec [Step n; Recv c] rt1 = (rt2, [Got (Some p)])
    ∧ exec [Step n; Step n] (foRunner_RetainPack (Some q) rt2) = (rt3, [])
    ∧ retainPack (runner rt3) = None
    ∧ foRunner_InChan rt3 = (inChan (runner rt3), rt3).
Proof.
  intros Hg n.
  unfold foRunner_InChan at 1. unfold foRunner_RetainPack at 1.
  cbn [runner retainPack set_retainPack chans gos].
  set (c := fresh (dom (chans rt))).
  assert (gos rt = replicate n GDone) as Hrep.
  { symmetry. apply replicate_as_Forall. split; [done|].
    eapply Forall_impl; [|exact Hg]. by intros g ->. }
  set (rt1 := mkRuntime (set_retainPack (Some p) (runner rt))
                        (<[c:=mkChan [] false]> (chans rt))
                        (gos rt ++ [GRetainEval c])).
  assert (at_pc c n (GRetainEval c) false rt1) as Hat.
  { split; cbn; [by rewrite <- Hrep|]. apply lookup_insert_eq. }
  destruct (step_eval c n _ Hat) as (r1 & H1 & Hat1 & _).
  change (retainPack (runner rt1)) with (Some p) in Hat1.
  destruct (recv_send c n _ _ Hat1) as (r2 & H2 & Hat2 & _).
  assert (at_pc c n (GRetainClear c) false (foRunner_RetainPack (Some q) r2)) as Hat2'.
  { exact Hat2. }
  destruct (step_clear c n _ Hat2') as (r3 & H3 & Hat3 & Hr3).
  destruct (step_close c n _ Hat3) as (r4 & H4 & Hat4 & Hrun4).
  exists c, rt1, r2, r4. split_and!.
  - reflexivity.
  - rewrite (exec_silent _ _ _ _ H1). by apply (exec_heard _ _ _ _ _ _ _ H2).
  - by rewrite (exec_silent _ _ _ _ H3), (exec_silent _ _ _ _ H4).
  - by rewrite Hrun4.
  - unfold foRunner_InChan. by rewrite Hrun4, Hr3.
Qed.

Lemma RetainPack_lost_to_pending_clear_witness :
  ∃ c rt1 rt2 rt3,
    foRunner_InChan (foRunner_RetainPack (Some 7%nat) rt0) = (c, rt1)
    ∧ exec [Step 1; Recv c] rt1 = (rt2, [Got (Some 7%nat)])
    ∧ exec [Step 1; Step 1] (foRunner_RetainPack (Some 8%nat) rt2) = (rt3, [])
    ∧ retainPack (runner rt3) = None
    ∧ foRunner_InChan rt3 = (inChan (runner rt3), rt3).
Proof.
  exact (RetainPack_lost_to_pending_clear rt0 7%nat 8%nat
           (Forall_cons _ _ _ eq_refl (Forall_nil _))).
Defined.

(** *** The sandbox decoder: Decode as a whole *)

Section DecoderProperties.
Context `{!Protobuf}.

Lemma inject_finish_bookkeeping p w :
  bookkeeping (dec (inject_finish p w)) = bookkeeping (dec w)
  ∧ globalsStopping (inject_finish p w) = globalsStopping w
  ∧ inputRecycleChan (inject_finish p w) = inputRecycleChan w.
Proof. unfold inject_finish. by destruct (deref w (original w)). Qed.

(** The callback leaves the counters, the error and the globals alone. *)
Lemma inject_callback_bookkeeping c w r w' :
  inject_callback c w = Done (r, w') →
  bookkeeping (dec w') = bookkeeping (dec w)
  ∧ globalsStopping w' = globalsStopping w.
Proof.
  unfold inject_callback.
  assert (∀ (st : Outcome (PipelinePack * World)),
    (∀ p w1, st = Done (p, w1) →
       bookkeeping (dec w1) = bookkeeping (dec w)
       ∧ globalsStopping w1 = globalsStopping w) →
    match st with
    | Done (p, w1) =>
      if String.eqb (payload_type c) EmptyString then
        let w2 := match original w1 with
                  | ONil =>
                    set_original
                      (match copyMessageHeaders (Some zero) (Some (msgs w1 p)) with
                       | Some m => ONew m
                       | None => ONil
                       end) w1
                  | _ => w1
                  end in
        let '(ok, m) := Unmarshal (payload c) in
        let w3 := set_Message p m w2 in
        if ok then Done (0%Z, inject_finish p w3) else Done (1%Z, w3)
      else
        let ptype := NewField "payload_type" (payload_type c) "file-extension" in
        let pname := NewField "payload_name" (payload_name c) EmptyString in
        let m := AddField pname (AddField ptype (SetPayload (payload c) (msgs w1 p))) in
        Done (0%Z, inject_finish p (set_Message p m w1))
    | Panic => Panic
    | Blocked => Blocked
    end = Done (r, w') →
    bookkeeping (dec w') = bookkeeping (dec w)
    ∧ globalsStopping w' = globalsStopping w) as Hbody.
  { intros [[p w1]| |] Hst; [|done..].
    destruct (Hst p w1 eq_refl) as [Hb Hg].
    destruct (String.eqb (payload_type c) EmptyString).
    - cbn zeta. destruct (Unmarshal (payload c)) as [[] m]; intros [= <- <-].
      + match goal with
        | |- context [inject_finish ?q ?x] =>
          destruct (inject_finish_bookkeeping q x) as (-> & -> & _)
        end.
        by destruct (original w1).
      + by destruct (original w1).
    - cbn zeta. intros [= <- <-].
      match goal with
      | |- context [inject_finish ?q ?x] =>
        by destruct (inject_finish_bookkeeping q x) as (-> & -> & _)
      end. }
  apply Hbody. intros p w1.
  destruct (pack (dec w)) as [p0|]; [by intros [= <- <-]|].
  unfold NewPack. destruct (inputRecycleChan w) as [|q rest]; [done|].
  cbn. by destruct (original w), (packs (dec w)) as [[|? ?]|]; intros [= <- <-].
Qed.

Lemma ProcessMessage_bookkeeping cs : ∀ w w',
  ProcessMessage cs w = Done w' →
  bookkeeping (dec w') = bookkeeping (dec w)
  ∧ globalsStopping w' = globalsStopping w.
Proof.
  induction cs as [|c cs IH]; intros w w'; cbn [ProcessMessage].
  - by intros [= <-].
  - destruct (inject_callback c w) as [[r w1]| |] eqn:Hc; [|done..].
    intros Hpm. destruct (IH _ _ Hpm) as [-> ->].
    by eapply inject_callback_bookkeeping.
Qed.


(** Where the callback starts: [s.pack], fetched from the pool when it
    was nil. *)
Lemma inject_start_pack c w r w' :
  inject_callback c w = Done (r, w') →
  ∃ p w1,
    pack (dec w1) = Some p
    ∧ (if String.eqb (payload_type c) EmptyString then
         let w2 := match original w1 with
                   | ONil =>
                     set_original
                       (match copyMessageHeaders (Some zero) (Some (msgs w1 p)) with
                        | Some m => ONew m
                        | None => ONil
                        end) w1
                   | _ => w1
                   end in
         let '(ok, m) := Unmarshal (payload c) in
         let w3 := set_Message p m w2 in
         if ok then Done (0%Z, inject_finish p w3) else Done (1%Z, w3)
       else
         let ptype := NewField "payload_type" (payload_type c) "file-extension" in
         let pname := NewField "payload_name" (payload_name c) EmptyString in
         let m := AddField pname (AddField ptype (SetPayload (payload c) (msgs w1 p))) in
         Done (0%Z, inject_finish p (set_Message p m w1)))
      = Done (r, w').
Proof.
  unfold inject_callback.
  destruct (pack (dec w)) as [p0|] eqn:Hp.
  - intros Hx. by exists p0, (set_original ONil w).
  - unfold NewPack. destruct (inputRecycleChan w) as [|q rest]; [done|].
    cbn -[inject_finish copyMessageHeaders].
    destruct (original w), (packs (dec w)) as [[|? ?]|];
      intros Hx; eexists q, _; (split; [|exact Hx]); reflexivity.
Qed.

(** Whether the callback leaves [s.pack] set: only when a binary payload
    failed to decode. *)
Lemma inject_callback_pack c w r w' :
  inject_callback c w = Done (r, w') →
  (decodable c → r = 0%Z ∧ pack (dec w') = None)
  ∧ (¬ decodable c → r = 1%Z ∧ ∃ p, pack (dec w') = Some p).
Proof.
  intros (p & w1 & Hp & Hx)%inject_start_pack. revert Hx. unfold decodable.
  destruct (String.eqb_spec (payload_type c) EmptyString) as [Hty|Hty].
  - cbn zeta. destruct (Unmarshal (payload c)) as [[] m]; intros [= <- <-]; cbn [fst].
    + split; [|by intros []]. intros _. split; [done|]. apply inject_finish_pack.
    + split; [intros Hd; by specialize (Hd Hty)|]. intros _. split; [done|].
      exists p. by destruct (original w1).
  - cbn zeta. intros [= <- <-]. split; [|by intros []].
    intros _. split; [done|]. apply inject_finish_pack.
Qed.

(** After a run of the script, [s.pack] is nil exactly when the script's
    last call to the callback succeeded. *)
Lemma ProcessMessage_pack cs c w w' :
  ProcessMessage (cs ++ [c]) w = Done w' →
  (decodable c → pack (dec w') = None)
  ∧ (¬ decodable c → ∃ p, pack (dec w') = Some p).
Proof.
  rewrite ProcessMessage_app.
  destruct (ProcessMessage cs w) as [w1| |]; [|done..].
  destruct (inject_callback c w1) as [[r w2]| |] eqn:Hc; [|done..].
  intros [= <-]. destruct (inject_callback_pack _ _ _ _ Hc) as [H1 H2].
  split; [intros Hd; by apply H1|intros Hd; by apply H2].
Qed.

Lemma decodable_dec c : decodable c ∨ ¬ decodable c.
Proof.
  unfold decodable.
  destruct (String.eqb_spec (payload_type c) EmptyString) as [Hty|Hty];
    [|by left].
  destruct (Unmarshal (payload c)).1; [by left|right]. by intros Hx; specialize (Hx Hty).
Qed.

(** X10.  When the script returns a negative value, [Decode] panics
    exactly when the script's last call to [inject_message] succeeded:
    that call has set [s.pack] to nil and [Decode] reads
    [s.pack.Message].  It returns when the script injected nothing, or
    when its last injection was a binary payload that failed to decode. *)
Theorem Decode_negative_panics_iff (input : PipelinePack) (run : ScriptRun)
        (w w1 : World) :
  sb (dec w) = true →
  (retval run < 0)%Z →
  ProcessMessage (calls run) (entered input w) = Done w1 →
  (SandboxDecoder_Decode input run w).1 = Panic
  ↔ ∃ cs c, calls run = cs ++ [c] ∧ decodable c.
Proof.
  intros Hsb Hneg Hpm.
  assert ((0 <? retval run)%Z = false) as Hpos by lia.
  assert ((retval run <? 0)%Z = true) as Hlt by lia.
  assert ((SandboxDecoder_Decode input run w).1 = Panic ↔ pack (dec w1) = None) as ->.
  { unfold SandboxDecoder_Decode. rewrite Hsb. cbn [negb].
    fold (entered input w). rewrite Hpm, Hpos, Hlt. cbn.
    by destruct (pack (dec w1)). }
  destruct (calls run) as [|c0 cs0] using rev_ind.
  - cbn in Hpm. injection Hpm as <-. cbn. split; [done|].
    intros (cs & c & Heq & _). by destruct cs.
  - destruct (ProcessMessage_pack _ _ _ _ Hpm) as [H1 H2]. split.
    + intros Hnone. exists cs0, c0. split; [done|].
      destruct (decodable_dec c0) as [Hd|Hd]; [done|].
      destruct (H2 Hd) as [p Hp]. congruence.
    + intros (cs & c & Heq & Hd). apply app_inj_tail in Heq as [_ <-]. by apply H1.
Qed.

(** X11.  The counters of [Decode].  Whenever [Decode] returns on a live
    sandbox, it has counted the message; it has counted a failure exactly
    when the script returned a negative value; it has added one sample
    and the measured duration exactly when the sampling flag was set on
    entry; the next sampling flag is the draw [rand.Intn(...) == 0]; and
    the batch [s.packs] is nil again.  The script's injections change
    none of this. *)
Theorem Decode_accounting (input : PipelinePack) (run : ScriptRun) (w w' : World)
        ps e evs :
  sb (dec w) = true →
  SandboxDecoder_Decode input run w = (Done (ps, e, w'), evs) →
  processMessageCount (dec w') = wrap64 (processMessageCount (dec w) + 1)
  ∧ processMessageFailures (dec w')
    = (if (retval run <? 0)%Z then wrap64 (processMessageFailures (dec w) + 1)
       else processMessageFailures (dec w))
  ∧ processMessageSamples (dec w')
    = (if sample (dec w) then wrap64 (processMessageSamples (dec w) + 1)
       else processMessageSamples (dec w))
  ∧ processMessageDuration (dec w')
    = (if sample (dec w) then wrap64 (processMessageDuration (dec w) + duration run)
       else processMessageDuration (dec w))
  ∧ sample (dec w') = Z.eqb 0 (rand_Intn run)
  ∧ sb (dec w') = true
  ∧ packs (dec w') = None.
Proof.
  intros Hsb. unfold SandboxDecoder_Decode. rewrite Hsb. cbn [negb].
  fold (entered input w).
  destruct (ProcessMessage (calls run) (entered input w)) as [w1| |] eqn:Hpm;
    [|done..].
  destruct (ProcessMessage_bookkeeping _ _ _ Hpm) as [Hb _].
  unfold bookkeeping in Hb. cbn in Hb.
  injection Hb as Hb1 Hb2 Hb3 Hb4 Hb5 Hb6 Hb7.
  destruct (0 <? retval run)%Z eqn:Hpos, (retval run <? 0)%Z eqn:Hlt; try lia; cbn.
  - intros [= <- <- <- <-]. cbn. rewrite Hb1, Hb2, Hb3, Hb4, Hb5, Hb6. by rewrite Hsb.
  - destruct (pack (dec w1)); [|done]. cbn.
    intros [= <- <- <- <-]. cbn. rewrite Hb1, Hb2, Hb3, Hb4, Hb5, Hb6. by rewrite Hsb.
  - intros [= <- <- <- <-]. cbn. rewrite Hb1, Hb2, Hb3, Hb4, Hb5, Hb6. by rewrite Hsb.
Qed.

(** X12.  The error of the decoder is sticky.  [Decode] returns the
    error stored in [s.err]; a successful run (the script returns 0)
    does not clear it, so after one fatal or parse error every later
    [Decode] returns a non-nil error, also along with the packs of a
    run that succeeded, and also after [Shutdown]. *)
Theorem Decode_error_sticky (input : PipelinePack) (run : ScriptRun) (w w' : World)
        ps e evs :
  SandboxDecoder_Decode input run w = (Done (ps, e, w'), evs) →
  e = err (dec w')
  ∧ (is_Some (err (dec w)) → is_Some e)
  ∧ (retval run = 0%Z → e = err (dec w) ∧ evs = []).
Proof.
  unfold SandboxDecoder_Decode.
  destruct (sb (dec w)); cbn [negb]; [|by intros [= <- <- <- <-]].
  fold (entered input w).
  destruct (ProcessMessage (calls run) (entered input w)) as [w1| |] eqn:Hpm;
    [|done..].
  destruct (ProcessMessage_bookkeeping _ _ _ Hpm) as [Hb _].
  unfold bookkeeping in Hb. cbn in Hb.
  injection Hb as Hb1 Hb2 Hb3 Hb4 Hb5 Hb6 Hb7.
  destruct (0 <? retval run)%Z eqn:Hpos, (retval run <? 0)%Z eqn:Hlt; try lia; cbn.
  - intros [= <- <- <- <-]. cbn. split_and!; [done|by eexists|lia].
  - destruct (pack (dec w1)); [|done]. cbn.
    intros [= <- <- <- <-]. cbn. split_and!; [done|by eexists|lia].
  - intros [= <- <- <- <-]. cbn. rewrite Hb7. by split_and!.
Qed.


(** X13.  A run that goes well.  On a live decoder with an empty batch,
    a script that makes [k > 0] injections, none of which fails to
    decode, and returns 0: [Decode] returns the input pack followed by
    the first [k - 1] packs of the pool, in the order of the injections,
    with the error the decoder already had; it logs and recycles
    nothing; the pool has lost exactly those [k - 1] packs; [s.pack] and
    [s.packs] are nil again; and every injected message but a first
    non-binary one has the headers the script set and, for the others,
    those of the input message. *)
Theorem Decode_clean_run (input : PipelinePack) (run : ScriptRun) (w : World) :
  sb (dec w) = true →
  packs (dec w) = None →
  retval run = 0%Z →
  calls run ≠ [] →
  Forall decodable (calls run) →
  NoDup (inputRecycleChan w) →
  input ∉ inputRecycleChan w →
  (length (calls run) ≤ S (length (inputRecycleChan w)))%nat →
  let k := length (calls run) in
  ∃ w',
    SandboxDecoder_Decode input run w
    = (Done (Some (input :: take (k - 1) (inputRecycleChan w)), err (dec w), w'), [])
    ∧ pack (dec w') = None
    ∧ packs (dec w') = None
    ∧ inputRecycleChan w' = drop (k - 1) (inputRecycleChan w)
    ∧ (∀ i c p,
         calls run !! i = Some c →
         (input :: inputRecycleChan w) !! i = Some p →
         i ≠ 0%nat ∨ payload_type c = EmptyString →
         filled_from (msgs w input) (injected c) (msgs w' p)).
Proof.
  intros Hsb Hps Hz Hne Hdec Hnd Hin Hlen k. subst k.
  destruct (calls run) as [|c cs] eqn:Hcalls; [done|].
  apply Forall_cons_1 in Hdec as [Hc Hdec].
  destruct (inject_first (entered input w) input c eq_refl Hps Hc)
    as (w1 & H1 & Hb1 & Hps1 & Hpool1 & Hm1 & Hf1).
  change (msgs (entered input w)) with (msgs w) in *.
  change (inputRecycleChan (entered input w)) with (inputRecycleChan w) in *.
  destruct (later_calls (msgs w input) input cs w1 (inputRecycleChan w)
              Hb1 Hpool1 Hnd Hin Hdec ltac:(cbn in Hlen; lia))
    as (w' & H' & Hb' & Hpool' & (ps' & Hps' & Hps'') & Hm' & Hf').
  rewrite Hps1 in Hps'. injection Hps' as <-.
  assert (ProcessMessage (calls run) (entered input w) = Done w') as Hpm.
  { rewrite Hcalls. cbn [ProcessMessage]. by rewrite H1. }
  destruct (ProcessMessage_bookkeeping _ _ _ Hpm) as [Hb _].
  unfold bookkeeping in Hb. cbn in Hb.
  injection Hb as _ _ _ _ _ _ Hb7.
  destruct (Decode_zero input run w w' Hsb Hz Hpm) as (w2 & Hd & Hps2).
  exists w2. cbn [length]. rewrite Nat.sub_succ, Nat.sub_0_r.
  assert (w2 = with_dec (set_packs None)
    (with_dec (λ s,
       mkSandboxDecoder (sb s) (processMessageCount s) (processMessageFailures s)
         (if sample s then wrap64 (processMessageSamples s + 1)
          else processMessageSamples s)
         (if sample s then wrap64 (processMessageDuration s + duration run)
          else processMessageDuration s)
         (Z.eqb 0 (rand_Intn run)) (err s) (pack s) (packs s)) w')) as Hw2.
  { revert Hd. unfold SandboxDecoder_Decode. rewrite Hsb. cbn [negb].
    fold (entered input w). rewrite Hpm, Hz. cbn. by intros [= <-]. }
  split_and!.
  - rewrite Hd, Hps'', Hb7. reflexivity.
  - rewrite Hw2. cbn. apply Hb'.
  - done.
  - rewrite Hw2. cbn. exact Hpool'.
  - rewrite Hw2. cbn [msgs with_dec].
    intros [|i] c' p' Hc' Hp' Hi; cbn in Hc', Hp'.
    + injection Hc' as <-. injection Hp' as <-.
      destruct Hi as [?|Hty]; [done|].
      rewrite Hm'; [by apply Hf1|].
      intros Hin'. apply Hin. by eapply subseteq_take.
    + by eapply Hf'.
Qed.

(** A later injection whose binary payload fails to decode: the callback
    has fetched a pack, returns 1 and leaves the pack in [s.pack]. *)
Lemma inject_later_fails (m0 : Message) (w : World) (input : PipelinePack)
      (c : InjectCall) (p : PipelinePack) (rest : list PipelinePack) :
  between m0 input w →
  inputRecycleChan w = p :: rest →
  payload_type c = EmptyString →
  (Unmarshal (payload c)).1 = false →
  ∃ w', inject_callback c w = Done (1%Z, w')
        ∧ pack (dec w') = Some p
        ∧ packs (dec w') = packs (dec w)
        ∧ inputRecycleChan w' = rest
        ∧ msgs w' p = (Unmarshal (payload c)).2.
Proof.
  intros (Hp & (ps & Hps) & Ho) Hpool Hty Hu.
  unfold inject_callback, NewPack. rewrite Hp, Hpool, Hty.
  cbn -[copyMessageHeaders inject_finish]. rewrite Hps.
  destruct (Unmarshal (payload c)) as [ok m]. cbn in Hu. subst ok.
  destruct (original w) as [|o|p0]; cbn -[copyMessageHeaders];
    eexists; (split; [reflexivity|]); cbn -[copyMessageHeaders];
    split_and!; try done; apply fn_lookup_insert.
Qed.

(** X14.  A pack is lost when the script's last injection fails.  The
    script makes at least one good injection, then one whose binary
    payload fails to decode, and returns a negative value.  [Decode]
    returns nil with the error "Failed parsing: " and the payload the
    failed decode left, and recycles the packs of the good injections
    after the first.  The pack [p] the callback fetched for the failed
    injection is still in [s.pack]: it was not recycled, it is not
    returned, and it is no longer in the pool. *)
Theorem Decode_failed_injection_leaks (input : PipelinePack) (run : ScriptRun)
        (w : World) (cs : list InjectCall) (c : InjectCall) :
  sb (dec w) = true →
  packs (dec w) = None →
  (retval run < 0)%Z →
  calls run = cs ++ [c] →
  cs ≠ [] →
  Forall decodable cs →
  payload_type c = EmptyString →
  (Unmarshal (payload c)).1 = false →
  NoDup (inputRecycleChan w) →
  input ∉ inputRecycleChan w →
  (length cs ≤ length (inputRecycleChan w))%nat →
  let k := length cs in
  ∃ p w',
    inputRecycleChan w !! (k - 1)%nat = Some p
    ∧ SandboxDecoder_Decode input run w
      = (Done (None,
               Some (String.append "Failed parsing: "
                       (GetPayload (Unmarshal (payload c)).2)),
               w'),
         map EvRecycle (take (k - 1) (inputRecycleChan w)))
    ∧ pack (dec w') = Some p
    ∧ inputRecycleChan w' = drop k (inputRecycleChan w)
    ∧ (p ∉ inputRecycleChan w')
    ∧ (p ∉ take (k - 1) (inputRecycleChan w))
    ∧ p ≠ input.
Proof.
  intros Hsb Hps Hneg Hcalls Hne Hdec Hty Hu Hnd Hin Hlen k. subst k.
  destruct cs as [|c0 cs]; [done|].
  apply Forall_cons_1 in Hdec as [Hc Hdec].
  destruct (inject_first (entered input w) input c0 eq_refl Hps Hc)
    as (w1 & H1 & Hb1 & Hps1 & Hpool1 & Hm1 & Hf1).
  change (msgs (entered input w)) with (msgs w) in *.
  change (inputRecycleChan (entered input w)) with (inputRecycleChan w) in *.
  cbn [length] in *. rewrite Nat.sub_succ, Nat.sub_0_r.
  set (pool := inputRecycleChan w) in *.
  destruct (later_calls (msgs w input) input cs w1 pool
              Hb1 Hpool1 Hnd Hin Hdec ltac:(lia))
    as (w2 & H2 & Hb2 & Hpool2 & (ps' & Hps' & Hps'') & Hm2 & Hf2).
  rewrite Hps1 in Hps'. injection Hps' as <-.
  destruct (lookup_lt_is_Some_2 pool (length cs) ltac:(lia)) as [p Hp].
  rewrite (drop_S _ _ _ Hp) in Hpool2.
  destruct (inject_later_fails _ _ _ c p _ Hb2 Hpool2 Hty Hu)
    as (w3 & H3 & Hp3 & Hps3 & Hpool3 & Hm3).
  assert (ProcessMessage (calls run) (entered input w) = Done w3) as Hpm.
  { rewrite Hcalls. change ((c0 :: cs) ++ [c]) with (c0 :: (cs ++ [c])).
    cbn [ProcessMessage]. rewrite H1, ProcessMessage_app, H2. by rewrite H3. }
  destruct (Decode_negative_recycles input run w w3 p Hsb Hneg Hpm Hp3)
    as (w' & Hd & Hps4).
  assert (w' = with_dec (set_packs None)
    (with_dec (λ s,
       mkSandboxDecoder (sb s) (processMessageCount s)
         (wrap64 (processMessageFailures s + 1))
         (processMessageSamples s) (processMessageDuration s)
         (sample s)
         (Some (String.append "Failed parsing: " (GetPayload (msgs w3 p))))
         (pack s) None)
    (with_dec (λ s,
       mkSandboxDecoder (sb s) (processMessageCount s) (processMessageFailures s)
         (if sample s then wrap64 (processMessageSamples s + 1)
          else processMessageSamples s)
         (if sample s then wrap64 (processMessageDuration s + duration run)
          else processMessageDuration s)
         (Z.eqb 0 (rand_Intn run)) (err s) (pack s) (packs s)) w3))) as Hw'.
  { revert Hd. unfold SandboxDecoder_Decode. rewrite Hsb. cbn [negb].
    fold (entered input w). rewrite Hpm.
    assert ((0 <? retval run)%Z = false) as -> by lia.
    assert ((retval run <? 0)%Z = true) as -> by lia.
    cbn. rewrite Hp3. cbn. by intros [= <-]. }
  pose proof (take_drop_middle _ _ _ Hp) as Hmid.
  rewrite <- Hmid in Hnd. apply list.NoDup_app in Hnd as (_ & Hnd1 & Hnd2).
  exists p, w'. split_and!.
  - done.
  - rewrite Hd, Hm3, Hps3, Hps''. reflexivity.
  - rewrite Hw'. cbn. exact Hp3.
  - rewrite Hw'. cbn. exact Hpool3.
  - rewrite Hw'. cbn. rewrite Hpool3. by apply NoDup_cons_1_1 in Hnd2.
  - intros Hin'. apply (Hnd1 _ Hin'). by left.
  - intros ->. apply Hin. by eapply list_elem_of_lookup_2.
Qed.

End DecoderProperties.

(** X15.  [copyMessageHeaders] overwrites the seven standard headers of
    [dst] with those of [src] - a header that is nil in [src] becomes
    nil in [dst], and so does a [Uuid] of capacity zero - and leaves the
    payload, the envelope version and the fields of [dst] alone.  With a
    nil source or destination it does nothing. *)
Theorem copyMessageHeaders_spec (d s : Message) :
  (∃ d', copyMessageHeaders (Some d) (Some s) = Some d'
         ∧ Uuid d' = (if Uuid s is Some (_ :: _) then Uuid s else None)
         ∧ Timestamp d' = Timestamp s ∧ Type_ d' = Type_ s
         ∧ Logger d' = Logger s ∧ Severity d' = Severity s
         ∧ Pid d' = Pid s ∧ Hostname d' = Hostname s
         ∧ Payload d' = Payload d ∧ EnvVersion d' = EnvVersion d
         ∧ Fields d' = Fields d
         ∧ same_headers d' s)
  ∧ copyMessageHeaders (Some d) None = Some d
  ∧ copyMessageHeaders None (Some s) = None.
Proof.
  split; [|done]. unfold same_headers.
  destruct s as [[[|b u]|] [t|] [ty|] [lo|] [se|] pl ev [pi|] [ho|] fs];
    eexists; (split; [reflexivity|]); cbn; repeat apply conj; reflexivity.
Qed.

Lemma Decode_negative_panics_iff_witness :
  (@SandboxDecoder_Decode ToyProtobuf 0%nat
     (mkRun [mkCall "summary" "txt" "s"] (-1) "none" 0 1) world0).1 = Panic.
Proof.
  eapply (proj2 (@Decode_negative_panics_iff ToyProtobuf 0%nat
                   (mkRun [mkCall "summary" "txt" "s"] (-1) "none" 0 1) world0 _
                   eq_refl eq_refl ltac:(vm_compute; reflexivity))).
  exists [], (mkCall "summary" "txt" "s"). split; [reflexivity|]. intros Hty. discriminate Hty.
Defined.

Lemma Decode_accounting_witness :
  ∃ ps e w' evs,
    @SandboxDecoder_Decode ToyProtobuf 0%nat (mkRun [] (-1) "none" 5 0) world0
    = (Done (ps, e, w'), evs)
    ∧ processMessageCount (dec w') = 1%Z
    ∧ processMessageFailures (dec w') = 1%Z
    ∧ processMessageDuration (dec w') = 5%Z.
Proof.
  destruct (@SandboxDecoder_Decode ToyProtobuf 0%nat (mkRun [] (-1) "none" 5 0) world0)
    as [[[[ps e] w']| |] evs] eqn:Hd; [|vm_compute in Hd; discriminate Hd..].
  exists ps, e, w', evs. split; [reflexivity|].
  destruct (@Decode_accounting ToyProtobuf 0%nat (mkRun [] (-1) "none" 5 0)
              world0 w' ps e evs eq_refl Hd) as (H1 & H2 & _ & H4 & _).
  split_and!; [exact H1|exact H2|exact H4].
Defined.

Lemma Decode_error_sticky_witness :
  ∃ ps e w' evs,
    @SandboxDecoder_Decode ToyProtobuf 0%nat
      (mkRun [mkCall "summary" "txt" "s"] 0 "none" 0 1) world_failed
    = (Done (ps, e, w'), evs)
    ∧ e = Some "FATAL: boom" ∧ evs = [].
Proof.
  destruct (@SandboxDecoder_Decode ToyProtobuf 0%nat
              (mkRun [mkCall "summary" "txt" "s"] 0 "none" 0 1) world_failed)
    as [[[[ps e] w']| |] evs] eqn:Hd; [|vm_compute in Hd; discriminate Hd..].
  exists ps, e, w', evs. split; [reflexivity|].
  exact (proj2 (proj2 (@Decode_error_sticky ToyProtobuf 0%nat
                         (mkRun [mkCall "summary" "txt" "s"] 0 "none" 0 1)
                         world_failed w' ps e evs Hd)) eq_refl).
Defined.

Lemma Decode_clean_run_witness :
  ∃ w',
    @SandboxDecoder_Decode ToyProtobuf 0%nat
      (mkRun [mkCall "ok" EmptyString "a"; mkCall "summary" "txt" "s"] 0 "none" 0 1)
      world0
    = (Done (Some [0%nat; 1%nat], None, w'), [])
    ∧ inputRecycleChan w' = [2%nat]
    ∧ GetType (msgs w' 0%nat) = "T"
    ∧ GetType (msgs w' 1%nat) = "T".
Proof.
  destruct (@Decode_clean_run ToyProtobuf 0%nat
              (mkRun [mkCall "ok" EmptyString "a"; mkCall "summary" "txt" "s"]
                     0 "none" 0 1)
              world0 eq_refl eq_refl eq_refl ltac:(discriminate))
    as (w' & Hd & _ & _ & Hpool & Hf).
  - repeat constructor; intros Hty; first [reflexivity | discriminate Hty].
  - cbn. apply (bool_decide_unpack (NoDup [1%nat; 2%nat])). vm_compute. exact I.
  - cbn. apply (bool_decide_unpack (0%nat ∉ [1%nat; 2%nat])). vm_compute. exact I.
  - cbn. lia.
  - exists w'. split_and!; [exact Hd|exact Hpool| |].
    + destruct (Hf 0%nat (mkCall "ok" EmptyString "a") 0%nat eq_refl eq_refl
                  (or_intror eq_refl)) as (_ & _ & Hty & _).
      exact Hty.
    + destruct (Hf 1%nat (mkCall "summary" "txt" "s") 1%nat eq_refl eq_refl
                  (or_introl (Nat.neq_succ_0 0))) as (_ & _ & Hty & _).
      exact Hty.
Defined.

Lemma Decode_failed_injection_leaks_witness :
  ∃ w',
    @SandboxDecoder_Decode ToyProtobuf 0%nat
      (mkRun [mkCall "summary" "txt" "s"; mkCall "garbage" EmptyString "g"]
             (-1) "none" 0 1)
      world0
    = (Done (None, Some "Failed parsing: ", w'), [])
    ∧ pack (dec w') = Some 1%nat
    ∧ inputRecycleChan w' = [2%nat].
Proof.
  destruct (@Decode_failed_injection_leaks ToyProtobuf 0%nat
              (mkRun [mkCall "summary" "txt" "s"; mkCall "garbage" EmptyString "g"]
                     (-1) "none" 0 1)
              world0 [mkCall "summary" "txt" "s"] (mkCall "garbage" EmptyString "g")
              eq_refl eq_refl eq_refl eq_refl ltac:(discriminate))
    as (p & w' & Hp & Hd & Hpack & Hpool & _).
  - repeat constructor; intros Hty; discriminate Hty.
  - reflexivity.
  - reflexivity.
  - cbn. apply (bool_decide_unpack (NoDup [1%nat; 2%nat])). vm_compute. exact I.
  - cbn. apply (bool_decide_unpack (0%nat ∉ [1%nat; 2%nat])). vm_compute. exact I.
  - cbn. lia.
  - injection Hp as <-. exists w'. split_and!; [exact Hd|exact Hpack|exact Hpool].
Defined.

(** *** FileOutput: receiver and committer *)

Section ReceiverProperties.
Context `{!Encoders}.
Import file.

Lemma batches_of_app tr1 tr2 :
  batches_of (tr1 ++ tr2) = batches_of tr1 ++ batches_of tr2.
Proof. apply flat_map_app. Qed.

Lemma receive_pack_batches o (msgs : MessageStore) p now outBatch :
  match receive_pack o msgs p now outBatch [] with
  | (Done outBatch', evs) =>
    batches_of evs = [] ∧ Forall receiver_may evs
    ∧ outBatch' = outBatch ++ match handleMessage o now (msgs p) [] with
                              | Done (None, out) => out
                              | _ => []
                              end
  | (_, evs) => evs = []
  end.
Proof.
  unfold receive_pack.
  destruct (handleMessage o now (msgs p) []) as [[[e|] out]| |]; try done.
  - split_and!; [done|by repeat constructor|by rewrite app_nil_r].
  - split_and!; [done|by repeat constructor|done].
Qed.

Lemma produced_cons o (msgs : MessageStore) p now sel :
  produced o msgs (InPack p now :: sel)
  = match handleMessage o now (msgs p) [] with
    | Done (None, out) => out
    | _ => []
    end ++ produced o msgs sel.
Proof.
  cbn [produced]. by destruct (handleMessage o now (msgs p) []) as [[[e|] out]| |].
Qed.

(** What the receiver has put on [batchChan] when it is done. *)
Lemma receiver_batches o (msgs : MessageStore) sel : ∀ outBatch tr,
  receiver o msgs sel outBatch = (Done tt, tr) →
  concat (batches_of tr) = outBatch ++ produced o msgs sel.
Proof.
  induction sel as [|[p now| |] sel IH]; intros outBatch tr; cbn [receiver].
  - done.
  - rewrite produced_cons.
    pose proof (receive_pack_batches o msgs p now outBatch) as Hp.
    destruct (receive_pack o msgs p now outBatch []) as [[outBatch'| |] evs];
      [|done..].
    destruct Hp as (Hb & _ & ->).
    specialize (IH (outBatch ++ match handleMessage o now (msgs p) [] with
                                | Done (None, out) => out
                                | _ => []
                                end)).
    destruct (receiver o msgs sel _) as [r tr'].
    intros [= -> <-].
    change (OTake p :: evs ++ tr') with ([OTake p] ++ evs ++ tr').
    rewrite !batches_of_app, Hb. cbn [batches_of flat_map app].
    rewrite (IH tr' eq_refl). by rewrite <- app_assoc.
  - intros [= <-]. cbn [produced]. rewrite app_nil_r, batches_of_app.
    destruct outBatch as [|b bs]; cbn; [done|]. by rewrite app_nil_r.
  - cbn [produced]. destruct outBatch as [|b bs]; cbn [length Nat.ltb Nat.leb].
    + apply IH.
    + specialize (IH []). destruct (receiver o msgs sel []) as [r tr'].
      intros [= -> <-].
      change (batches_of (OBatch (b :: bs) :: tr'))
        with ((b :: bs) :: batches_of tr').
      rewrite concat_cons. by rewrite (IH tr' eq_refl).
Qed.

(** X16.  The receiver never puts an empty batch on [batchChan], and it
    closes the channel exactly once: when it is done, its trace ends
    with the close and [wg.Done()], and before that it only took and
    recycled packs, logged and sent batches.  When [handleMessage]
    panics or the schedule ends, the channel is left open and the wait
    group is not released. *)
Theorem receiver_closes_once o (msgs : MessageStore) sel : ∀ outBatch,
  match receiver o msgs sel outBatch with
  | (Done _, tr) =>
    ∃ tr0, tr = tr0 ++ [OCloseBatch; OWgDone] ∧ Forall receiver_may tr0
  | (_, tr) => Forall receiver_may tr
  end.
Proof.
  induction sel as [|[p now| |] sel IH]; intros outBatch; cbn [receiver].
  - by constructor.
  - pose proof (receive_pack_batches o msgs p now outBatch) as Hp.
    destruct (receive_pack o msgs p now outBatch []) as [[outBatch'| |] evs];
      [|subst evs; by repeat constructor..].
    destruct Hp as (_ & Hev & _). specialize (IH outBatch').
    destruct (receiver o msgs sel outBatch') as [[[]| |] tr'].
    + destruct IH as (tr0 & -> & Htr0). exists (OTake p :: evs ++ tr0).
      split; [cbn; by rewrite app_assoc|].
      constructor; [done|]. by apply Forall_app.
    + constructor; [done|]. by apply Forall_app.
    + constructor; [done|]. by apply Forall_app.
  - destruct outBatch as [|b bs]; cbn.
    + by exists [].
    + exists [OBatch (b :: bs)]. split; [done|]. by repeat constructor.
  - destruct outBatch as [|b bs]; cbn [length Nat.ltb Nat.leb].
    + apply IH.
    + specialize (IH []). destruct (receiver o msgs sel []) as [[[]| |] tr'].
      * destruct IH as (tr0 & -> & Htr0). exists (OBatch (b :: bs) :: tr0).
        split; [done|]. by constructor.
      * by constructor.
      * by constructor.
Qed.

End ReceiverProperties.

Section CommitterProperties.
Context {F : Type} `{!file.FileSystem F} `{!Encoders}.
Import file.

Lemma commit_writes_app tr1 tr2 :
  commit_writes (tr1 ++ tr2) = commit_writes tr1 ++ commit_writes tr2.
Proof. apply flat_map_app. Qed.

Lemma commit_backs_app tr1 tr2 :
  commit_backs (tr1 ++ tr2) = commit_backs tr1 ++ commit_backs tr2.
Proof. apply flat_map_app. Qed.

(** What the committer does with one batch after the write. *)
Lemma committer_batch_events (o : FileOutputState) (b : list byte) (f : F) n err :
  let r :=
    match err with
    | Some err =>
      ([CLogError (String.append "Can't write to "
                     (String.append (path (out o)) (String.append ": " err)))], f)
    | None =>
      if negb (n =? Z.of_nat (length b))%Z
      then ([CLogError (String.append "Truncated output for " (path (out o)))], f)
      else ([CSync], file_Sync (file_ o) f)
    end in
  commit_writes r.1 = [] ∧ commit_backs r.1 = [] ∧ Forall committer_may r.1.
Proof.
  destruct err; cbn; [by repeat constructor|].
  destruct (negb _); cbn; by repeat constructor.
Qed.

Lemma committer_loop_writes sel : ∀ (o : FileOutputState) (f : F) x tr,
  committer_loop o sel f = (Done x, tr) → commit_writes tr = delivered sel.
Proof.
  induction sel as [|[b| |] sel IH]; intros o f x tr; cbn [committer_loop delivered].
  - done.
  - destruct (file_Write (file_ o) b f) as [[n err] f1].
    pose proof (committer_batch_events o b f1 n err) as Hev. cbn zeta in Hev.
    destruct (match err with Some _ => _ | None => _ end) as [evs f2].
    destruct Hev as (Hw & _ & _). cbn [fst] in Hw.
    specialize (IH o f2). destruct (committer_loop o sel f2) as [r tr'].
    intros [= -> <-].
    change (CWrite b :: evs ++ CBack [] :: tr')
      with ([CWrite b] ++ evs ++ [CBack []] ++ tr').
    rewrite !commit_writes_app, Hw. cbn. f_equal. by eapply IH.
  - by intros [= _ <-].
  - destruct (openFile o (file_Close (file_ o) f)) as [[[e|] o1] f1]; [done|].
    specialize (IH o1 f1). destruct (committer_loop o1 sel f1) as [r tr'].
    intros [= -> <-]. cbn. by eapply IH.
Qed.

(** X17.  From the message to the file.  When the receiver is done, and
    the committer has received the batches the receiver sent, in order,
    and is done too - whatever reload signals came in between and
    whether or not the writes succeeded - the buffers passed to
    [file.Write], taken together, are the bytes of the messages
    [handleMessage] serialized without an error, each once and in the
    order of arrival. *)
Theorem FileOutput_bytes_written (o : FileOutput) (msgs : MessageStore)
        (sel : list Select) (tr_r : list OutEvent)
        (st : FileOutputState) (csel : list CommitSelect) (f : F) x tr_c :
  receiver o msgs sel [] = (Done tt, tr_r) →
  committer st csel f = (Done x, tr_c) →
  delivered csel = batches_of tr_r →
  concat (commit_writes tr_c) = produced o msgs sel.
Proof.
  intros Hr Hc Hd. apply receiver_batches in Hr. cbn in Hr. rewrite <- Hr, <- Hd.
  unfold committer in Hc.
  destruct (committer_loop st csel f) as [r tr] eqn:Hl.
  injection Hc as -> <-. cbn. f_equal. by eapply committer_loop_writes.
Qed.

Lemma committer_loop_discipline sel : ∀ (o : FileOutputState) (f : F),
  let '(r, tr) := committer_loop o sel f in
  commit_backs tr = replicate (length (commit_writes tr)) []
  ∧ match r with
    | Done _ => ∃ tr0, tr = tr0 ++ [CClose; CWgDone] ∧ Forall committer_may tr0
    | Panic => ∃ tr0, tr = tr0 ++ [CClose] ∧ Forall committer_may tr0
    | Blocked => Forall committer_may tr
    end.
Proof.
  induction sel as [|[b| |] sel IH]; intros o f; cbn [committer_loop].
  - split; [done|by constructor].
  - destruct (file_Write (file_ o) b f) as [[n err] f1].
    pose proof (committer_batch_events o b f1 n err) as Hev. cbn zeta in Hev.
    destruct (match err with Some _ => _ | None => _ end) as [evs f2].
    destruct Hev as (Hw & Hb & Hm). cbn [fst] in Hw, Hb, Hm.
    specialize (IH o f2). destruct (committer_loop o sel f2) as [r tr'].
    destruct IH as [IHb IHr].
    change (CWrite b :: evs ++ CBack [] :: tr')
      with ([CWrite b] ++ evs ++ [CBack []] ++ tr').
    rewrite !commit_writes_app, !commit_backs_app, Hw, Hb, IHb. split; [done|].
    destruct r as [x| |].
    + destruct IHr as (tr0 & -> & Htr0).
      exists ([CWrite b] ++ evs ++ [CBack []] ++ tr0).
      split; [by rewrite <- !app_assoc|].
      rewrite !Forall_app. split_and!; try done; by repeat constructor.
    + destruct IHr as (tr0 & -> & Htr0).
      exists ([CWrite b] ++ evs ++ [CBack []] ++ tr0).
      split; [by rewrite <- !app_assoc|].
      rewrite !Forall_app. split_and!; try done; by repeat constructor.
    + rewrite !Forall_app. split_and!; try done; by repeat constructor.
  - split; [done|]. by exists [].
  - destruct (openFile o (file_Close (file_ o) f)) as [[[e|] o1] f1].
    + split; [done|]. by exists [].
    + specialize (IH o1 f1). destruct (committer_loop o1 sel f1) as [r tr'].
      destruct IH as [IHb IHr]. split; [exact IHb|].
      destruct r as [x| |].
      * destruct IHr as (tr0 & -> & Htr0). exists (CClose :: tr0).
        split; [done|]. by constructor.
      * destruct IHr as (tr0 & -> & Htr0). exists (CClose :: tr0).
        split; [done|]. by constructor.
      * by constructor.
Qed.

(** X18.  The committer hands back one empty buffer at the start and one
    after every write, whether the write succeeded or not, and nothing
    else: the hand-backs are one more than the writes, all empty.  It
    releases the wait group only when [batchChan] was closed, right
    after closing the file.  When a reload signal comes and the file
    cannot be reopened it panics with the file closed; the wait group is
    then never released. *)
Theorem committer_discipline (o : FileOutputState) (sel : list CommitSelect) (f : F) :
  let '(r, tr) := committer o sel f in
  commit_backs tr = replicate (S (length (commit_writes tr))) []
  ∧ match r with
    | Done _ => ∃ tr0, tr = tr0 ++ [CClose; CWgDone] ∧ Forall committer_may tr0
    | Panic => ∃ tr0, tr = tr0 ++ [CClose] ∧ Forall committer_may tr0
    | Blocked => Forall committer_may tr
    end.
Proof.
  unfold committer. pose proof (committer_loop_discipline sel o f) as Hl.
  destruct (committer_loop o sel f) as [r tr]. destruct Hl as [Hb Hr].
  split.
  { change (commit_backs (CBack [] :: tr)) with ([] :: commit_backs tr).
    change (commit_writes (CBack [] :: tr)) with (commit_writes tr).
    by rewrite Hb. }
  destruct r as [x| |].
  - destruct Hr as (tr0 & -> & Htr0). exists (CBack [] :: tr0). split; [done|].
    by constructor.
  - destruct Hr as (tr0 & -> & Htr0). exists (CBack [] :: tr0). split; [done|].
    by constructor.
  - by constructor.
Qed.

End CommitterProperties.

Lemma FileOutput_bytes_written_witness :
  concat (commit_writes
            (@file.committer _ ToyFS open_output
               [file.GotBatch line_batch; file.Hup; file.GotBatch line_batch;
                file.BatchClosed] []).2)
  = @produced FailingEncoders text_output (λ _, SetPayload "line" zero)
      [file.InPack 1%nat "t"; file.Tick; file.InPack 2%nat "t"; file.InClosed].
Proof.
  eapply (@FileOutput_bytes_written _ ToyFS FailingEncoders text_output
            (λ _, SetPayload "line" zero)
            [file.InPack 1%nat "t"; file.Tick; file.InPack 2%nat "t"; file.InClosed]
            _ open_output
            [file.GotBatch line_batch; file.Hup; file.GotBatch line_batch;
             file.BatchClosed] []).
  - vm_compute. reflexivity.
  - vm_compute. reflexivity.
  - vm_compute. reflexivity.
Defined.

(** *** Init of the outputs, SmtpOutput.Run, and the filter script *)

Section FileInitProperties.
Context {F : Type} `{!file.FileSystem F}.
Import file.

Lemma FILEFORMATS_lookup s v :
  FILEFORMATS !! s = Some v → s = "json" ∨ s = "text" ∨ s = "protobufstream".
Proof.
  unfold FILEFORMATS. rewrite !lookup_insert_Some, lookup_empty.
  intros [[<- _]|[_ [[<- _]|[_ [[<- _]|[_ [=]]]]]]]; auto.
Qed.

Lemma openFile_ok (o o1 : FileOutputState) (f f1 : F) :
  openFile o f = (None, o1, f1) →
  out o1 = out o ∧ perm o1 = perm o ∧ folderPerm o1 = folderPerm o
  ∧ ∃ h, file_ o1 = Some h ∧ ∃ f0, OpenFile (path (out o)) (perm o) f0 = (inl h, f1).
Proof.
  unfold openFile.
  destruct (MkdirAll _ _ f) as [[e|] f2]; [done|].
  destruct (CheckWritePermission _ f2) as [[e|] f3]; [done|].
  destruct (OpenFile _ _ f3) as [[h|e] f4] eqn:Ho; [|done].
  intros [= <- <-]. split_and!; try done. exists h. split; [done|]. by exists f3.
Qed.

(** X19.  What a successful [FileOutput.Init] guarantees: the format is
    one of the three the output can serialize, path, format, timestamp
    flag and flush interval are those of the configuration, both
    permission strings parsed as octal numbers and are stored as file
    modes, and the file is open, opened under the configured path with
    the configured mode.  [handleMessage] then never reports an invalid
    serialization format: the only error left is a failed protobuf
    encoding. *)
Theorem Init_success (conf : FileOutputConfig) (o o' : FileOutputState) (f f' : F) :
  Init conf o f = (None, o', f') →
  (format (out o') = "json" ∨ format (out o') = "text"
   ∨ format (out o') = "protobufstream")
  ∧ out o' = mkFileOutput (Path conf) (Format conf) (Prefix_ts conf) (FlushInterval conf)
  ∧ (∃ p, ParseInt (Perm conf) 8 32 = inl p ∧ perm o' = FileMode p)
  ∧ (∃ p, ParseInt (FolderPerm conf) 8 32 = inl p ∧ folderPerm o' = FileMode p)
  ∧ (∃ h f0, file_ o' = Some h ∧ OpenFile (Path conf) (perm o') f0 = (inl h, f'))
  ∧ (∀ (enc : Encoders) now m outBytes e out_,
       handleMessage (out o') now m outBytes = Done (Some e, out_) →
       format (out o') = "protobufstream"
       ∧ ∃ e', e = String.append "Can't encode to ProtoBuf: " e').
Proof.
  unfold Init.
  destruct (FILEFORMATS !! Format conf) as [v|] eqn:Hfmt; [|done].
  apply FILEFORMATS_lookup in Hfmt.
  destruct (ParseInt (FolderPerm conf) 8 32) as [fp|e1] eqn:Hfp; [|done].
  destruct (ParseInt (Perm conf) 8 32) as [pp|e2] eqn:Hpp; [|done].
  cbn zeta.
  destruct (openFile _ f) as [[[e3|] o1] f1] eqn:Hopen; [done|].
  apply openFile_ok in Hopen as (Hout & Hperm & Hfperm & h & Hfile & f0 & Hof).
  cbn in Hout, Hperm, Hfperm, Hof.
  intros [= <- <-]. cbn. rewrite Hout, Hperm, Hfperm. cbn.
  split_and!; try done.
  - by exists pp.
  - by exists fp.
  - by exists h, f0.
  - intros enc now m outBytes e out_. unfold handleMessage. cbn.
    destruct Hfmt as [->| [->| ->]]; cbn.
    + by destruct (json_Marshal m).
    + by destruct (Payload m).
    + destruct (ProtobufEncodeMessage m _) as [ob [e'|]]; [|done].
      intros [= <- _]. split; [done|]. by exists e'.
Qed.

(** X20.  What a failing [FileOutput.Init] leaves behind.  It never
    stores the flush interval.  With an unsupported format it changes
    nothing at all; and as long as it fails before [openFile] - on the
    format or on one of the two permission strings - no call to the file
    system has been made and the plugin's file is the one it had. *)
Theorem Init_failure (conf : FileOutputConfig) (o o' : FileOutputState) (f f' : F) e :
  Init conf o f = (Some e, o', f') →
  flushInterval (out o') = flushInterval (out o)
  ∧ (FILEFORMATS !! Format conf = None → o' = o ∧ f' = f)
  ∧ ((∃ err, ParseInt (FolderPerm conf) 8 32 = inr err)
     ∨ (∃ err, ParseInt (Perm conf) 8 32 = inr err) →
     f' = f ∧ file_ o' = file_ o).
Proof.
  unfold Init.
  destruct (FILEFORMATS !! Format conf) as [v|] eqn:Hfmt.
  2:{ intros [= _ <- <-]. split_and!; try done. }
  destruct (ParseInt (FolderPerm conf) 8 32) as [fp|e1] eqn:Hfp.
  2:{ intros [= _ <- <-]. by split_and!. }
  destruct (ParseInt (Perm conf) 8 32) as [pp|e2] eqn:Hpp.
  2:{ intros [= _ <- <-]. by split_and!. }
  cbn zeta.
  destruct (openFile _ f) as [[[e3|] o1] f1] eqn:Hopen; [|done].
  intros [= _ <- <-]. split_and!.
  - revert Hopen. unfold openFile.
    destruct (MkdirAll _ _ f) as [[e'|] f2]; [by intros [= _ <- _]|].
    destruct (CheckWritePermission _ f2) as [[e'|] f3]; [by intros [= _ <- _]|].
    destruct (OpenFile _ _ f3) as [[h|e'] f4]; [done|]. by intros [= _ <- _].
  - done.
  - by intros [[err [=]]|[err [=]]].
Qed.

End FileInitProperties.

Section SmtpInitProperties.
Context `{!smtp.Net}.
Import smtp.

(** X21.  Which configurations [SmtpOutput.Init] accepts: exactly those
    with a [send_to] list that is not nil, a host that splits into host
    and port, and an auth type among "Plain", "CRAMMD5" and "none".  It
    stores the configuration before it checks anything; on success the
    send function is set and the authentication is nil exactly for
    "none".  The defaults of [ConfigStruct] alone are rejected: they
    have no recipient. *)
Theorem Init_accepts (config : InitConfig) (s : SmtpOutput) :
  conf_ (Init config s).2 = Some config
  ∧ ((Init config s).1 = None
     ↔ cSendTo config ≠ None
       ∧ (∃ hp, SplitHostPort (cHost config) = inl hp)
       ∧ (cAuth config = "Plain" ∨ cAuth config = "CRAMMD5" ∨ cAuth config = "none"))
  ∧ ((Init config s).1 = None →
     sendFunction_set (Init config s).2 = true
     ∧ (auth (Init config s).2 = None ↔ cAuth config = "none"))
  ∧ Init ConfigStruct s
    = (Some "send_to must contain at least one recipient",
       mkSmtpOutput (Some ConfigStruct) (auth s) (sendFunction_set s)).
Proof.
  split_and!; [| | |done]; unfold Init.
  - destruct (cSendTo config); [|done].
    destruct (SplitHostPort (cHost config)) as [[host port]|e]; [|done].
    by destruct (String.eqb (cAuth config) "Plain"),
      (String.eqb (cAuth config) "CRAMMD5"), (String.eqb (cAuth config) "none").
  - destruct (cSendTo config) as [to|].
    2:{ cbn. split; [done|]. by intros [? _]. }
    destruct (SplitHostPort (cHost config)) as [[host port]|e].
    2:{ cbn. split; [done|]. by intros (_ & [hp [=]] & _). }
    destruct (String.eqb_spec (cAuth config) "Plain") as [Hp|Hp].
    { cbn. split; [|done]. intros _. split_and!; [done|by eexists|by left]. }
    destruct (String.eqb_spec (cAuth config) "CRAMMD5") as [Hc|Hc].
    { cbn. split; [|done]. intros _. split_and!; [done|by eexists|by right; left]. }
    destruct (String.eqb_spec (cAuth config) "none") as [Hn|Hn].
    { cbn. split; [|done]. intros _. split_and!; [done|by eexists|by right; right]. }
    cbn. split; [done|]. by intros (_ & _ & [?|[?|?]]).
  - destruct (cSendTo config) as [to|]; [|done].
    destruct (SplitHostPort (cHost config)) as [[host port]|e]; [|done].
    destruct (String.eqb_spec (cAuth config) "Plain") as [Hp|Hp].
    { cbn. intros _. split; [done|]. split; [done|]. rewrite Hp. done. }
    destruct (String.eqb_spec (cAuth config) "CRAMMD5") as [Hc|Hc].
    { cbn. intros _. split; [done|]. split; [done|]. rewrite Hc. done. }
    destruct (String.eqb_spec (cAuth config) "none") as [Hn|Hn]; [|done].
    cbn. by intros _.
Qed.

End SmtpInitProperties.

Section SmtpRunProperties.
Context {T : Type} `{!smtp.Transport T} `{!Encoders}.
Import smtp.

(** X22.  The error [SmtpOutput.Run] returns is the error of the last
    pack alone.  Over an empty queue it returns nil; over [queue ++ [p]]
    it does what it does over [queue], then the body for [p], and
    returns the error of that body - nil when the last mail went out,
    whatever failed before. *)
Theorem SmtpOutput_Run_last_error conf subject (msgs : MessageStore) queue p (t : T) :
  SmtpOutput_Run conf subject msgs [] t = (None, t, [])
  ∧ SmtpOutput_Run conf subject msgs (queue ++ [p]) t
    = let '(_, t1, tr1) := SmtpOutput_Run conf subject msgs queue t in
      let '(e, t2, ev) := Run_pack conf subject (msgs p) p t1 in
      (e, t2, tr1 ++ OTake p :: ev).
Proof.
  split; [done|]. unfold SmtpOutput_Run. generalize (@None Error) as err. revert t.
  induction queue as [|q queue IH]; intros t err; cbn [Run_loop app].
  - destruct (Run_pack conf subject (msgs p) p t) as [[e t2] ev].
    by rewrite app_nil_r.
  - destruct (Run_pack conf subject (msgs q) q t) as [[e1 t1] ev1].
    rewrite IH.
    destruct (Run_loop conf subject msgs queue t1 e1) as [[r t2] tr].
    destruct (Run_pack conf subject (msgs p) p t2) as [[e t3] ev].
    cbn. by rewrite <- app_assoc.
Qed.

Lemma mails_app tr1 tr2 : mails (tr1 ++ tr2) = mails tr1 ++ mails tr2.
Proof. apply flat_map_app. Qed.

Lemma logged_app tr1 tr2 : logged (tr1 ++ tr2) = logged tr1 ++ logged tr2.
Proof. apply flat_map_app. Qed.

Lemma Run_pack_mails conf subject m p (t : T) :
  mails (Run_pack conf subject m p t).2 = option_list (mail_for conf subject m).
Proof.
  unfold Run_pack, mail_for.
  destruct (PayloadOnly conf).
  - by destruct (sendFunction t conf _) as [[e|] t'].
  - destruct (json_Marshal m) as [contents|e]; [|done].
    by destruct (sendFunction t conf _) as [[e|] t'].
Qed.

(** X23.  What [SmtpOutput.Run] sends does not depend on the transport:
    for each pack of the queue, in order, one mail with the subject and
    the payload, or with the JSON of the message - and no mail for a
    message that cannot be marshaled.  A send that fails is not
    repeated. *)
Theorem SmtpOutput_Run_mails conf subject (msgs : MessageStore) queue (t : T) :
  mails (SmtpOutput_Run conf subject msgs queue t).2
  = flat_map (λ p, option_list (mail_for conf subject (msgs p))) queue.
Proof.
  unfold SmtpOutput_Run. generalize (@None Error) as err. revert t.
  induction queue as [|p queue IH]; intros t err; [done|].
  cbn [Run_loop flat_map].
  pose proof (Run_pack_mails conf subject (msgs p) p t) as Hp.
  destruct (Run_pack conf subject (msgs p) p t) as [[err1 t1] ev].
  specialize (IH t1 err1).
  destruct (Run_loop conf subject msgs queue t1 err1) as [[r t2] tr].
  cbn [snd] in *. change (OTake p :: ev ++ tr) with ([OTake p] ++ ev ++ tr).
  by rewrite !mails_app, Hp, IH.
Qed.

Lemma Run_pack_logged conf subject m p (t : T) :
  (∀ t0 c b, (sendFunction t0 c b).1 = None) →
  logged (Run_pack conf subject m p t).2
  = if PayloadOnly conf then []
    else match json_Marshal m with inl _ => [] | inr e => [e; e] end.
Proof.
  intros Hok. unfold Run_pack.
  destruct (PayloadOnly conf).
  - pose proof (Hok t conf (mail subject (String.list_byte_of_string (GetPayload m)))) as Hs.
    destruct (sendFunction t conf _) as [e t']. cbn in Hs. by subst e.
  - destruct (json_Marshal m) as [contents|e]; [|done].
    pose proof (Hok t conf (mail subject contents)) as Hs.
    destruct (sendFunction t conf _) as [e t']. cbn in Hs. by subst e.
Qed.

(** X24.  A message that cannot be marshaled is logged twice.  With a
    transport that never fails, the log of [SmtpOutput.Run] holds, for
    each pack whose message [json.Marshal] rejects, the same error two
    times in a row, and nothing else; in payload-only mode it is
    empty. *)
Theorem SmtpOutput_Run_logs_twice conf subject (msgs : MessageStore) queue (t : T) :
  (∀ t0 c b, (sendFunction t0 c b).1 = None) →
  logged (SmtpOutput_Run conf subject msgs queue t).2
  = flat_map (λ p, if PayloadOnly conf then []
                   else match json_Marshal (msgs p) with
                        | inl _ => []
                        | inr e => [e; e]
                        end) queue.
Proof.
  intros Hok. unfold SmtpOutput_Run. generalize (@None Error) as err. revert t.
  induction queue as [|p queue IH]; intros t err; [done|].
  cbn [Run_loop flat_map].
  pose proof (Run_pack_logged conf subject (msgs p) p t Hok) as Hp.
  destruct (Run_pack conf subject (msgs p) p t) as [[err1 t1] ev].
  specialize (IH t1 err1).
  destruct (Run_loop conf subject msgs queue t1 err1) as [[r t2] tr].
  cbn [snd] in *. change (OTake p :: ev ++ tr) with ([OTake p] ++ ev ++ tr).
  by rewrite !logged_app, Hp, IH.
Qed.

End SmtpRunProperties.

Section LuaProperties.
Import http_status.

Lemma Qle_bool_inject (a b : Z) : Qle_bool (inject_Z a) (inject_Z b) = (a <=? b)%Z.
Proof. unfold Qle_bool, inject_Z. cbn. by rewrite !Z.mul_1_r. Qed.

Lemma lua_in_number q lo hi :
  lua_in (LNumber q) lo hi = Some (Qle_bool lo q && negb (Qle_bool hi q)).
Proof. unfold lua_in, lua_ge, lua_lt. by destruct (Qle_bool lo q). Qed.

(** X25.  [process_message] of http_status.lua.  A status that is not a
    number - a missing field, a string - makes the script raise an
    error.  A number makes it add one to exactly one column of the row
    of the message's timestamp and return 0.  For an integer status [z]
    the column is [z / 100 - 1] when [200 <= z < 600] (HTTP_200 to
    HTTP_500) and HTTP_UNKNOWN, column 5, otherwise. *)
Theorem process_message_columns (ts : Z) :
  (∀ sc, (∀ q, sc ≠ LNumber q) → process_message ts sc = None)
  ∧ (∀ q, ∃ col, process_message ts (LNumber q) = Some (0%Z, [(ts, col, 1%Z)])
                 ∧ (1 ≤ col ≤ 5)%Z)
  ∧ (∀ z, process_message ts (LNumber (inject_Z z))
          = Some (0%Z, [(ts, if (200 <=? z)%Z && (z <? 600)%Z
                             then (z / 100 - 1)%Z else HTTP_UNKNOWN, 1%Z)])).
Proof.
  split_and!.
  - intros sc Hsc. destruct sc as [|b|q|s]; try done. by destruct (Hsc q).
  - intros q. unfold process_message. rewrite !lua_in_number.
    destruct (Qle_bool 200 q && negb (Qle_bool 300 q));
      [by eexists; split; [reflexivity|]|].
    destruct (Qle_bool 300 q && negb (Qle_bool 400 q));
      [by eexists; split; [reflexivity|]|].
    destruct (Qle_bool 400 q && negb (Qle_bool 500 q));
      [by eexists; split; [reflexivity|]|].
    destruct (Qle_bool 500 q && negb (Qle_bool 600 q));
      by eexists; split; [reflexivity|].
  - intros z. unfold process_message. rewrite !lua_in_number.
    change 200%Q with (inject_Z 200). change 300%Q with (inject_Z 300).
    change 400%Q with (inject_Z 400). change 500%Q with (inject_Z 500).
    change 600%Q with (inject_Z 600).
    rewrite !Qle_bool_inject. unfold HTTP_200, HTTP_300, HTTP_400, HTTP_500, HTTP_UNKNOWN.
    destruct (Z.leb_spec 200 z), (Z.leb_spec 300 z), (Z.leb_spec 400 z),
      (Z.leb_spec 500 z), (Z.leb_spec 600 z), (Z.ltb_spec z 600);
      cbn; try lia; repeat f_equal; Z.to_euclidean_division_equations; lia.
Qed.

End LuaProperties.

Lemma Init_success_witness :
  let r := @file.Init _ ToyFS
             (file.mkFileOutputConfig "/var/log/out" "json" true "644" 250 "700")
             fresh_output [] in
  file.out r.1.2 = file.mkFileOutput "/var/log/out" "json" true 250
  ∧ (∃ p, @file.ParseInt _ ToyFS "644" 8 32 = inl p ∧ file.perm r.1.2 = file.FileMode p).
Proof.
  intros r.
  destruct (@Init_success _ ToyFS
              (file.mkFileOutputConfig "/var/log/out" "json" true "644" 250 "700")
              fresh_output r.1.2 [] r.2 ltac:(vm_compute; reflexivity))
    as (_ & Hout & Hperm & _).
  split; [exact Hout|exact Hperm].
Defined.

Lemma Init_failure_witness :
  let r := @file.Init _ ToyFS
             (file.mkFileOutputConfig "/var/log/out" "xml" true "644" 250 "700")
             fresh_output [] in
  r.1.2 = fresh_output ∧ r.2 = [].
Proof.
  intros r.
  destruct (@Init_failure _ ToyFS
              (file.mkFileOutputConfig "/var/log/out" "xml" true "644" 250 "700")
              fresh_output r.1.2 [] r.2
              "FileOutput '/var/log/out' unsupported format: xml"
              ltac:(vm_compute; reflexivity))
    as (_ & Hsame & _).
  apply Hsame. vm_compute. reflexivity.
Defined.

Lemma SmtpOutput_Run_logs_twice_witness :
  logged (@smtp.SmtpOutput_Run unit OkTransport FailingEncoders
            (smtp.mkSmtpOutputConfig false "heka@localhost" ["ops@localhost"]
                                     "127.0.0.1:25")
            "alerts" (λ _, input_message) [1%nat; 2%nat] tt).2
  = ["unsupported value"; "unsupported value";
     "unsupported value"; "unsupported value"].
Proof.
  apply (@SmtpOutput_Run_logs_twice unit OkTransport FailingEncoders
           (smtp.mkSmtpOutputConfig false "heka@localhost" ["ops@localhost"]
                                    "127.0.0.1:25")
           "alerts" (λ _, input_message) [1%nat; 2%nat] tt).
  intros t0 c b. reflexivity.
Defined.

(** *** RetainPack and InChan with a goroutine still pending *)

Section PendingClear.
Variables (n : nat) (g0 g1 : Goroutine).

Lemma lookup_two_goroutines :
  (replicate n GDone ++ [g0; g1]) !! n = Some g0
  ∧ (replicate n GDone ++ [g0; g1]) !! S n = Some g1.
Proof.
  split.
  - apply list_lookup_middle. by rewrite length_replicate.
  - rewrite lookup_app_r by (rewrite length_replicate; lia).
    rewrite length_replicate. by replace (S n - n)%nat with 1%nat by lia.
Qed.

Lemma insert_two_goroutines g :
  <[n := g]> (replicate n GDone ++ [g0; g1]) = replicate n GDone ++ [g; g1]
  ∧ <[S n := g]> (replicate n GDone ++ [g0; g1]) = replicate n GDone ++ [g0; g].
Proof.
  split.
  - rewrite insert_app_r_alt by (by rewrite length_replicate).
    by rewrite length_replicate, Nat.sub_diag.
  - rewrite insert_app_r_alt by (rewrite length_replicate; lia).
    rewrite length_replicate. by replace (S n - n)%nat with 1%nat by lia.
Qed.

End PendingClear.

(** C2 (what the code does where the claim fails).  The goroutine of
    [InChan] clears the retained slot in a step of its own, after the
    plugin has received the pack.  On a runner whose earlier goroutines
    have finished: the plugin retains [p], calls [InChan()] and receives
    [p]; the goroutine now stands before [foRunner.retainPack = nil].
    If the plugin calls [InChan()] again at this point, it does not get
    the runner's input channel but another retain channel, from which
    it receives [p] a second time.  If it first retains another pack
    [q] and then calls [InChan()], the first value the new channel
    yields can be nil instead of [q]: the pending step clears the slot
    before the new goroutine reads it, and [q] is lost. *)
Theorem InChan_with_pending_clear (rt : Runtime) (p q : PipelinePack) :
  Forall (λ g, g = GDone) (gos rt) →
  inChan (runner rt) ∈ dom (chans rt) →
  let n := length (gos rt) in
  ∃ c0 rt1 rt2,
    foRunner_InChan (foRunner_RetainPack (Some p) rt) = (c0, rt1)
    ∧ exec [Step n; Recv c0] rt1 = (rt2, [Got (Some p)])
    ∧ (∃ c1 rt3 rt4,
         foRunner_InChan rt2 = (c1, rt3)
         ∧ c1 ≠ inChan (runner rt2)
         ∧ exec [Step (S n); Recv c1] rt3 = (rt4, [Got (Some p)]))
    ∧ (∃ c1 rt3 rt4,
         foRunner_InChan (foRunner_RetainPack (Some q) rt2) = (c1, rt3)
         ∧ exec [Step n; Step (S n); Recv c1] rt3 = (rt4, [Got None])
         ∧ retainPack (runner rt4) = None).
Proof.
  intros Hg Hin n.
  unfold foRunner_InChan at 1. unfold foRunner_RetainPack at 1.
  cbn [runner retainPack set_retainPack chans gos].
  set (c0 := fresh (dom (chans rt))).
  assert (gos rt = replicate n GDone) as Hrep.
  { symmetry. apply replicate_as_Forall. split; [done|].
    eapply Forall_impl; [|exact Hg]. by intros g ->. }
  set (fo := set_retainPack (Some p) (runner rt)).
  set (ch := <[c0:=mkChan [] false]> (chans rt)).
  set (rt2 := mkRuntime fo ch (replicate n GDone ++ [GRetainClear c0])).
  assert (exec [Step n; Recv c0] (mkRuntime fo ch (gos rt ++ [GRetainEval c0]))
          = (rt2, [Got (Some p)])) as Hfirst.
  { cbn [exec exec_step gos runner chans]. rewrite Hrep.
    rewrite lookup_last_goroutine, insert_last_goroutine.
    cbn [gos runner chans]. unfold ch at 1. rewrite lookup_insert_eq. cbn [buf].
    rewrite find_sender_finished. cbn [find_sender]. rewrite Nat.eqb_refl.
    cbn [Nat.add]. rewrite insert_last_goroutine. reflexivity. }
  set (c1 := fresh (dom ch)).
  assert (c1 ∉ dom ch) as Hfresh by apply is_fresh.
  assert (c1 ≠ inChan (runner rt)) as Hne.
  { intros Heq. apply Hfresh. rewrite Heq. unfold ch. set_solver. }
  exists c0, (mkRuntime fo ch (gos rt ++ [GRetainEval c0])), rt2.
  split_and!; [reflexivity|exact Hfirst| |].
  - eexists c1, _, _. unfold foRunner_InChan, rt2, fo.
    cbn [runner retainPack set_retainPack chans gos inChan].
    split_and!; [reflexivity|exact Hne|].
    cbn [exec exec_step gos runner chans].
    rewrite <- app_assoc. cbn [app]. fold c1.
    rewrite (proj2 (lookup_two_goroutines n (GRetainClear c0) (GRetainEval c1))).
    cbn [gos runner chans retainPack set_retainPack]. fold c1.
    rewrite (proj2 (insert_two_goroutines n (GRetainClear c0) (GRetainEval c1) _)).
    rewrite lookup_insert_eq. cbn [buf].
    rewrite find_sender_finished. cbn [find_sender]. rewrite Nat.eqb_refl.
    reflexivity.
  - eexists c1, _, _. unfold foRunner_InChan, foRunner_RetainPack, rt2, fo.
    cbn [runner retainPack set_retainPack chans gos].
    split_and!; [reflexivity| |].
    + cbn [exec exec_step gos runner chans].
      rewrite <- app_assoc. cbn [app]. fold c1.
      rewrite (proj1 (lookup_two_goroutines n (GRetainClear c0) (GRetainEval c1))).
      cbn [gos runner chans retainPack set_retainPack]. fold c1.
      rewrite (proj1 (insert_two_goroutines n (GRetainClear c0) (GRetainEval c1) _)).
      rewrite (proj2 (lookup_two_goroutines n (GRetainClose c0) (GRetainEval c1))).
      cbn [gos runner chans retainPack set_retainPack]. fold c1.
      rewrite (proj2 (insert_two_goroutines n (GRetainClose c0) (GRetainEval c1) _)).
      rewrite lookup_insert_eq. cbn [buf].
      rewrite find_sender_finished. cbn [find_sender]. rewrite Nat.eqb_refl.
      reflexivity.
    + reflexivity.
Qed.

Lemma InChan_with_pending_clear_witness :
  ∃ c0 rt1 rt2,
    foRunner_InChan (foRunner_RetainPack (Some 7%nat) rt0) = (c0, rt1)
    ∧ exec [Step 1; Recv c0] rt1 = (rt2, [Got (Some 7%nat)])
    ∧ (∃ c1 rt3 rt4,
         foRunner_InChan rt2 = (c1, rt3)
         ∧ c1 ≠ inChan (runner rt2)
         ∧ exec [Step 2; Recv c1] rt3 = (rt4, [Got (Some 7%nat)]))
    ∧ (∃ c1 rt3 rt4,
         foRunner_InChan (foRunner_RetainPack (Some 8%nat) rt2) = (c1, rt3)
         ∧ exec [Step 1; Step 2; Recv c1] rt3 = (rt4, [Got None])
         ∧ retainPack (runner rt4) = None).
Proof.
  apply (InChan_with_pending_clear rt0 7%nat 8%nat
           (Forall_cons _ _ _ eq_refl (Forall_nil _))).
  apply (bool_decide_unpack (inChan (runner rt0) ∈ dom (chans rt0))).
  vm_compute. exact I.
Defined.

(** *** The text receiver and a message without payload *)

Section ReceiverPanic.
Context `{!Encoders}.
Import file.

Lemma handleMessage_text o now m outBytes :
  format o = "text" →
  handleMessage o now m outBytes
  = match Payload m with
    | None => Panic
    | Some payload =>
      Done (None,
            (if prefix_ts o then outBytes ++ String.list_byte_of_string now
             else outBytes)
            ++ String.list_byte_of_string payload ++ [NEWLINE])
    end.
Proof.
  intros Hf. unfold handleMessage. rewrite Hf. cbn.
  rewrite andb_true_r. by destruct (prefix_ts o).
Qed.

End ReceiverPanic.

(** C8 (what the code does where the claim fails).  With the text
    format - the default - [handleMessage] dereferences the message's
    payload pointer.  When the receiver takes a pack [p] whose message
    has no payload, after any number of ticks and of packs that have
    one, [handleMessage] panics before [pack.Recycle()] is reached: the
    goroutine ends with [p] taken as the last thing it did and never
    recycled, without closing [batchChan] or releasing the wait group;
    every earlier pack was recycled once.  [SmtpOutput.Run] reads the
    payload through [GetPayload] and recycles the same pack. *)
Theorem receiver_nil_payload_leaks (enc : Encoders) (o : file.FileOutput)
        (msgs : MessageStore) (pre post : list file.Select)
        (p : PipelinePack) (now : string) (outBatch : list byte) :
  file.format o = "text" →
  Payload (msgs p) = None →
  Forall (passes_text msgs) pre →
  (∃ tr0,
     file.receiver o msgs (pre ++ file.InPack p now :: post) outBatch
     = (Panic, tr0 ++ [OTake p])
     ∧ pack_events tr0 = take_recycle (file.taken pre)
     ∧ Forall receiver_may tr0)
  ∧ (∀ (T : Type) (tr_ : smtp.Transport T) conf subject (t : T),
       pack_events (smtp.Run_pack conf subject (msgs p) p t).2 = [ORecycle p]).
Proof.
  intros Hf Hp Hpre. split; [|intros; apply Run_pack_events].
  revert outBatch. induction Hpre as [|s pre Hs Hpre IH]; intros outBatch.
  - exists []. cbn [app file.receiver]. unfold file.receive_pack.
    rewrite (handleMessage_text _ _ _ _ Hf), Hp. by split_and!.
  - destruct s as [q nq| |]; cbn in Hs; [|done|].
    + cbn [app file.receiver]. unfold file.receive_pack.
      rewrite (handleMessage_text _ _ _ _ Hf).
      destruct (Payload (msgs q)) as [pl|]; [|done].
      match goal with
      | |- context [file.receiver o msgs _ ?b] => destruct (IH b) as (tr0 & -> & Hev & Hmay)
      end.
      exists (OTake q :: [ORecycle q] ++ tr0). split_and!.
      * reflexivity.
      * change (OTake q :: [ORecycle q] ++ tr0) with ([OTake q; ORecycle q] ++ tr0).
        rewrite pack_events_app, Hev. reflexivity.
      * by repeat constructor.
    + cbn [app file.receiver file.taken].
      destruct (0 <? length outBatch)%nat eqn:Hlen.
      * destruct (IH []) as (tr0 & -> & Hev & Hmay).
        exists (OBatch outBatch :: tr0). split_and!; [reflexivity|exact Hev|].
        constructor; [|done]. cbn. intros ->. cbn in Hlen. done.
      * apply IH.
Qed.

Lemma receiver_nil_payload_leaks_witness :
  ∃ tr0,
    @file.receiver FailingEncoders text_output
      (λ q, if Nat.eqb q 2 then SetType "T" zero else SetPayload "line" zero)
      ([file.InPack 1%nat "t"; file.Tick] ++ file.InPack 2%nat "t" :: [file.InClosed]) []
    = (Panic, tr0 ++ [OTake 2%nat])
    ∧ pack_events tr0 = [OTake 1%nat; ORecycle 1%nat].
Proof.
  assert (Forall (passes_text
                    (λ q, if Nat.eqb q 2 then SetType "T" zero
                          else SetPayload "line" zero))
                 [file.InPack 1%nat "t"; file.Tick]) as Hpre.
  { constructor; [cbn; discriminate|]. constructor; [exact I|constructor]. }
  destruct (proj1 (receiver_nil_payload_leaks FailingEncoders text_output
              (λ q, if Nat.eqb q 2 then SetType "T" zero else SetPayload "line" zero)
              [file.InPack 1%nat "t"; file.Tick] [file.InClosed] 2%nat "t" []
              eq_refl eq_refl Hpre))
    as (tr0 & Hr & Hev & _).
  exists tr0. split; [exact Hr|exact Hev].
Defined.
